(** * dynamiqs: the jump-SSE solver front end, method descriptors and
      time-array algebra

    A shallow embedding of
    - [dynamiqs/method.py] (method descriptors, supported gradients,
      attribute delegation of [Event]),
    - [dynamiqs/integrators/apis/jssesolve.py] (argument checks, batching,
      trajectory vectorisation, smart sampling),
    - [tests/solver_tester.py] (the gradient-checking routine),
    - the time-array algebra exercised by [tests/test_time_tensor.py].

    Python exceptions are values of [Py.exn]; a computation that may raise
    lives in the error monad [Py.M].  Python floats that are only stored and
    handed on (tolerances, step sizes) are carried as rationals. *)

From Stdlib Require Import List String Ascii Bool Arith ZArith QArith Qabs Lia.
From Stdlib Require Import DecimalString.
Import ListNotations.
Open Scope nat_scope.
Open Scope string_scope.

(* ===================================================================== *)
(** ** Python exceptions and the error monad *)
(* ===================================================================== *)

Module Py.

Inductive exn : Type :=
| ValueError (msg : string)
| TypeError (msg : string)
| IndexError (msg : string)
| KeyError (msg : string)
| AttributeError (msg : string)
| AssertionError (msg : string)
| NotImplementedError.

Inductive M (A : Type) : Type :=
| Ok (a : A)
| Raise (e : exn).
Arguments Ok {A} a.
Arguments Raise {A} e.

Definition bind {A B : Type} (c : M A) (k : A -> M B) : M B :=
  match c with
  | Ok a => k a
  | Raise e => Raise e
  end.

(** [for x in xs: body(x)], stopping at the first exception. *)
Fixpoint for_each {A : Type} (body : A -> M unit) (xs : list A) : M unit :=
  match xs with
  | [] => Ok tt
  | x :: xs' => bind (body x) (fun _ => for_each body xs')
  end.

(** [[f(x) for x in xs]], stopping at the first exception. *)
Fixpoint map_m {A B : Type} (f : A -> M B) (xs : list A) : M (list B) :=
  match xs with
  | [] => Ok []
  | x :: xs' =>
      bind (f x) (fun y => bind (map_m f xs') (fun ys => Ok (y :: ys)))
  end.

(** [enumerate(xs)] *)
Definition enumerate {A : Type} (xs : list A) : list (nat * A) :=
  combine (seq 0 (List.length xs)) xs.

(** [str(n)] for a non-negative integer. *)
Definition str_nat (n : nat) : string :=
  NilEmpty.string_of_uint (Nat.to_uint n).

(** [needle in haystack] on strings. *)
Fixpoint contains (needle haystack : string) : bool :=
  String.prefix needle haystack
  || match haystack with
     | EmptyString => false
     | String _ rest => contains needle rest
     end.

(** [x] occurs in [s]. *)
Definition infix (x s : string) : Prop :=
  exists p q, s = p ++ x ++ q.


Lemma prefix_append (x q : string) : String.prefix x (x ++ q) = true.
Proof.
  induction x as [|c x IH]; simpl.
  - now destruct q.
  - destruct (ascii_dec c c) as [_|Hne]; [exact IH | now elim Hne].
Qed.

Lemma contains_unfold (x s : string) :
  contains x s
  = (String.prefix x s
     || match s with
        | EmptyString => false
        | String _ rest => contains x rest
        end)%bool.
Proof. now destruct s. Qed.

Lemma contains_infix (x s : string) : infix x s -> contains x s = true.
Proof.
  intros (p & q & ->).
  induction p as [|c p IH].
  - rewrite contains_unfold. simpl. now rewrite prefix_append.
  - simpl. rewrite IH. apply orb_true_r.
Qed.





(** A list comprehension succeeds when every element does. *)
Lemma map_m_ok {A B : Type} (f : A -> M B) (g : A -> B) (xs : list A) :
  (forall x, In x xs -> f x = Ok (g x)) -> map_m f xs = Ok (map g xs).
Proof.
  induction xs as [|x xs IH]; intros Hf; simpl; [reflexivity|].
  rewrite (Hf x (or_introl eq_refl)). simpl.
  rewrite IH; [reflexivity|].
  intros y Hy. apply Hf. now right.
Qed.

End Py.

Declare Scope py_scope.
Delimit Scope py_scope with py.
Notation "x <- c ;; k" := (Py.bind c (fun x => k))
  (at level 61, c at next level, right associativity) : py_scope.
Notation "c ;;; k" := (Py.bind c (fun _ => k))
  (at level 61, right associativity) : py_scope.
Open Scope py_scope.

(* ===================================================================== *)
(** ** dynamiqs/method.py *)
(* ===================================================================== *)

Module Method.
Import Py.

(** The gradient classes imported from [dynamiqs.gradient]: the base class
    [Gradient], its three library subclasses, and any further subclass a
    caller may define ([class name(parent)]). *)
Inductive gradient_class : Type :=
| Gradient
| Autograd
| CheckpointAutograd
| ForwardAutograd
| Subclass (name : string) (parent : gradient_class).

(** [cls.__name__] *)
Definition gradient_name (c : gradient_class) : string :=
  match c with
  | Gradient => "Gradient"
  | Autograd => "Autograd"
  | CheckpointAutograd => "CheckpointAutograd"
  | ForwardAutograd => "ForwardAutograd"
  | Subclass name _ => name
  end.

Fixpoint gradient_class_eqb (c d : gradient_class) : bool :=
  match c, d with
  | Gradient, Gradient => true
  | Autograd, Autograd => true
  | CheckpointAutograd, CheckpointAutograd => true
  | ForwardAutograd, ForwardAutograd => true
  | Subclass n p, Subclass n' p' => String.eqb n n' && gradient_class_eqb p p'
  | _, _ => false
  end.

(** [issubclass(c, d)]: [c] is [d] or derives from it. *)
Fixpoint issubclass (c d : gradient_class) : bool :=
  gradient_class_eqb c d
  || match c with
     | Gradient => false
     | Autograd | CheckpointAutograd | ForwardAutograd =>
         gradient_class_eqb Gradient d
     | Subclass _ parent => issubclass parent d
     end.

(** A gradient object; only its class matters to this module. *)
Record gradient : Type := mk_gradient { type_of_gradient : gradient_class }.

(** [isinstance(gradient, classes)] with [gradient] possibly [None]. *)
Definition isinstance (g : option gradient) (classes : list gradient_class)
  : bool :=
  match g with
  | None => false
  | Some g => existsb (issubclass (type_of_gradient g)) classes
  end.

(** The concrete method classes of the module ([type(method)]). *)
Inductive method_class : Type :=
| cExpm | cEuler | cEulerMaruyama | cRouchon1
| cDopri5 | cDopri8 | cTsit5 | cKvaerno3 | cKvaerno5 | cEvent.

Definition method_class_eqb (c d : method_class) : bool :=
  match c, d with
  | cExpm, cExpm | cEuler, cEuler | cEulerMaruyama, cEulerMaruyama
  | cRouchon1, cRouchon1 | cDopri5, cDopri5 | cDopri8, cDopri8
  | cTsit5, cTsit5 | cKvaerno3, cKvaerno3 | cKvaerno5, cKvaerno5
  | cEvent, cEvent => true
  | _, _ => false
  end.

(** [cls.__name__] *)
Definition class_name (c : method_class) : string :=
  match c with
  | cExpm => "Expm"
  | cEuler => "Euler"
  | cEulerMaruyama => "EulerMaruyama"
  | cRouchon1 => "Rouchon1"
  | cDopri5 => "Dopri5"
  | cDopri8 => "Dopri8"
  | cTsit5 => "Tsit5"
  | cKvaerno3 => "Kvaerno3"
  | cKvaerno5 => "Kvaerno5"
  | cEvent => "Event"
  end.

(** [SUPPORTED_GRADIENT], class by class. *)
Definition SUPPORTED_GRADIENT (c : method_class) : list gradient_class :=
  match c with
  | cExpm => [Autograd]
  | cEuler => [Autograd; CheckpointAutograd; ForwardAutograd]
  | cEulerMaruyama => [Autograd]
  | cRouchon1 => [Autograd; CheckpointAutograd; ForwardAutograd]
  | cDopri5 => [Autograd; CheckpointAutograd; ForwardAutograd]
  | cDopri8 => [Autograd; CheckpointAutograd; ForwardAutograd]
  | cTsit5 => [Autograd; CheckpointAutograd; ForwardAutograd]
  | cKvaerno3 => [Autograd; CheckpointAutograd; ForwardAutograd]
  | cKvaerno5 => [Autograd; CheckpointAutograd; ForwardAutograd]
  | cEvent => [Autograd; CheckpointAutograd; ForwardAutograd]
  end.

(** [Method.supports_gradient] *)
Definition supports_gradient (cls : method_class) (g : option gradient)
  : bool :=
  isinstance g (SUPPORTED_GRADIENT cls).

(** The text of the [ValueError] of [assert_supports_gradient]. *)
Definition unsupported_gradient_message
  (cls : method_class) (g : gradient) : string :=
  let support_str :=
    String.concat ", "
      (map (fun x => "`" ++ gradient_name x ++ "`") (SUPPORTED_GRADIENT cls))
  in
  "Method `" ++ class_name cls ++ "` does not support gradient"
  ++ " `" ++ gradient_name (type_of_gradient g)
  ++ "` (supported gradient types:"
  ++ " " ++ support_str ++ ").".

(** [Method.assert_supports_gradient] *)
Definition assert_supports_gradient
  (cls : method_class) (g : option gradient) : M unit :=
  match g with
  | Some gr =>
      if negb (supports_gradient cls g)
      then Raise (ValueError (unsupported_gradient_message cls gr))
      else Ok tt
  | None => Ok tt
  end.

(** The fields of [_DEAdaptiveStep]. *)
Record adaptive_step : Type := mk_adaptive_step {
  rtol : Q;
  atol : Q;
  safety_factor : Q;
  min_factor : Q;
  max_factor : Q;
  max_steps : Z
}.

(** The defaults of [_DEAdaptiveStep] and of the adaptive constructors. *)
Definition default_adaptive_step : adaptive_step :=
  {| rtol := 1e-6; atol := 1e-6; safety_factor := 0.9;
     min_factor := 0.2; max_factor := 5.0; max_steps := 100000 |}.

(** An [optimistix.AbstractRootFinder], opaque to this library. *)
Inductive AbstractRootFinder : Type :=
| RootFinder (name : string).

(** Method objects.  Each constructor carries the dataclass fields of its
    class, inherited ones included. *)
Inductive method : Type :=
| Expm
| Euler (dt : Q)
| EulerMaruyama (dt : Q)
| Rouchon1 (dt : Q) (normalize : bool)
| Dopri5 (p : adaptive_step)
| Dopri8 (p : adaptive_step)
| Tsit5 (p : adaptive_step)
| Kvaerno3 (p : adaptive_step)
| Kvaerno5 (p : adaptive_step)
| Event (noclick_method : method) (root_finder : option AbstractRootFinder)
        (smart_sampling : bool).

(** [Event()] with its defaults: [Tsit5()], no root finder, no smart
    sampling. *)
Definition default_Event : method :=
  Event (Tsit5 default_adaptive_step) None false.

(** [type(method)] *)
Definition type_of (m : method) : method_class :=
  match m with
  | Expm => cExpm
  | Euler _ => cEuler
  | EulerMaruyama _ => cEulerMaruyama
  | Rouchon1 _ _ => cRouchon1
  | Dopri5 _ => cDopri5
  | Dopri8 _ => cDopri8
  | Tsit5 _ => cTsit5
  | Kvaerno3 _ => cKvaerno3
  | Kvaerno5 _ => cKvaerno5
  | Event _ _ _ => cEvent
  end.

(** What an attribute access can return. *)
Inductive value : Type :=
| VFloat (x : Q)
| VInt (n : Z)
| VBool (b : bool)
| VNone
| VMethod (m : method)
| VRootFinder (r : AbstractRootFinder)
| VGradientClasses (cs : list gradient_class)
| VBoundMethod (cls : method_class) (name : string)
| VInstanceMethod (self : method) (name : string).

Definition adaptive_field (p : adaptive_step) (attr : string)
  : option value :=
  if attr =? "rtol" then Some (VFloat (rtol p))
  else if attr =? "atol" then Some (VFloat (atol p))
  else if attr =? "safety_factor" then Some (VFloat (safety_factor p))
  else if attr =? "min_factor" then Some (VFloat (min_factor p))
  else if attr =? "max_factor" then Some (VFloat (max_factor p))
  else if attr =? "max_steps" then Some (VInt (max_steps p))
  else None.

(** The instance fields of a method object. *)
Definition instance_field (m : method) (attr : string) : option value :=
  match m with
  | Expm => None
  | Euler dt | EulerMaruyama dt =>
      if attr =? "dt" then Some (VFloat dt) else None
  | Rouchon1 dt normalize =>
      if attr =? "dt" then Some (VFloat dt)
      else if attr =? "normalize" then Some (VBool normalize)
      else None
  | Dopri5 p | Dopri8 p | Tsit5 p | Kvaerno3 p | Kvaerno5 p =>
      adaptive_field p attr
  | Event noclick_method root_finder smart_sampling =>
      if attr =? "noclick_method" then Some (VMethod noclick_method)
      else if attr =? "root_finder" then
        Some (match root_finder with
              | Some r => VRootFinder r
              | None => VNone
              end)
      else if attr =? "smart_sampling" then Some (VBool smart_sampling)
      else None
  end.

(** The names a class defines or inherits from [Method]: the class
    variable and the methods written in [method.py].  The base classes
    ([eqx.Module], [object]) are not in this file; the names they add
    ([__repr__], [__class__], [__hash__], ...) start with an underscore,
    and the properties below are stated for the other names. *)
Definition class_attribute_names (c : method_class) : list string :=
  (["SUPPORTED_GRADIENT"; "supports_gradient"; "assert_supports_gradient";
    "__str__"; "__init__"]
   ++ match c with
      | cEvent => ["__getattr__"]
      | _ => []
      end)%list.

(** The class methods, which are bound to the class. *)
Definition class_method_names : list string :=
  ["supports_gradient"; "assert_supports_gradient"].

(** What the class of [m] answers: the class variable, a class method
    bound to the class, or another method bound to the object [m]. *)
Definition class_attribute (m : method) (attr : string) : option value :=
  let c := type_of m in
  if attr =? "SUPPORTED_GRADIENT"
  then Some (VGradientClasses (SUPPORTED_GRADIENT c))
  else if existsb (String.eqb attr) class_method_names
  then Some (VBoundMethod c attr)
  else if existsb (String.eqb attr) (class_attribute_names c)
  then Some (VInstanceMethod m attr)
  else None.

(** Ordinary attribute lookup ([object.__getattribute__]): the instance
    fields, then the class. *)
Definition lookup_attribute (m : method) (attr : string) : option value :=
  match instance_field m attr with
  | Some v => Some v
  | None => class_attribute m attr
  end.

(** The names ordinary lookup finds on an [Event] object. *)
Definition Event_attribute_names : list string :=
  (["noclick_method"; "root_finder"; "smart_sampling"]
   ++ class_attribute_names cEvent)%list.

Definition no_attribute_message (c : method_class) (attr : string)
  : string :=
  "'" ++ class_name c ++ "' object has no attribute '" ++ attr ++ "'".

(** [getattr(m, attr)].  Python calls [__getattr__] only when ordinary
    lookup fails; [Event.__getattr__] then asks the [noclick_method]. *)
Fixpoint getattr (m : method) (attr : string) : M value :=
  match lookup_attribute m attr with
  | Some v => Ok v
  | None =>
      match m with
      | Event noclick_method _ _ => getattr noclick_method attr
      | _ => Raise (AttributeError (no_attribute_message (type_of m) attr))
      end
  end.

(** The method the delegation of [Event.__getattr__] ends at: the
    no-click method of an [Event], looked for again when that is an
    [Event] too. *)
Fixpoint innermost (m : method) : method :=
  match m with
  | Event noclick_method _ _ => innermost noclick_method
  | _ => m
  end.

(** *** Properties *)

Lemma gradient_class_eqb_refl (c : gradient_class) :
  gradient_class_eqb c c = true.
Proof.
  induction c as [| | | |n p IH]; simpl; try reflexivity.
  now rewrite String.eqb_refl, IH.
Qed.


Lemma assert_supports_gradient_supported (cls : method_class) (g : gradient) :
  supports_gradient cls (Some g) = true ->
  assert_supports_gradient cls (Some g) = Ok tt.
Proof. unfold assert_supports_gradient. now intros ->. Qed.


Lemma lookup_attribute_Event_None
  (nm : method) (rf : option AbstractRootFinder) (ss : bool) (attr : string) :
  ~ In attr Event_attribute_names ->
  lookup_attribute (Event nm rf ss) attr = None.
Proof.
  intros Hnot.
  unfold lookup_attribute, instance_field, class_attribute.
  assert (Hneq : forall name, In name Event_attribute_names ->
                              (attr =? name) = false).
  { intros name Hin. destruct (String.eqb_spec attr name) as [->|]; tauto. }
  rewrite !Hneq by (simpl; tauto).
  simpl type_of. cbv [class_method_names class_attribute_names app existsb].
  rewrite !Hneq by (simpl; tauto).
  reflexivity.
Qed.

(** C10.  For every [Event] object and every public attribute name (one
    that does not start with an underscore: the other names may be found
    on the base classes, which are not in this file) that ordinary lookup
    does not find on the [Event] (none of its three fields, nor a name of
    its class), the access is delegated to [noclick_method]:
    [Event(noclick_method=m, ...).attr] is [m.attr], the same value or the
    same [AttributeError]. *)
Theorem Event_getattr_delegates
  (m : method) (rf : option AbstractRootFinder) (ss : bool) (attr : string) :
  String.prefix "_" attr = false ->
  ~ In attr Event_attribute_names ->
  getattr (Event m rf ss) attr = getattr m attr.
Proof.
  intros _ Hnot.
  pose proof (lookup_attribute_Event_None m rf ss attr Hnot) as Hnone.
  cbn [getattr]. rewrite Hnone. reflexivity.
Qed.

(** *** Further properties of the gradient check and of attribute access *)

Lemma innermost_is_no_Event (m : method) : type_of (innermost m) <> cEvent.
Proof. induction m; cbn; try discriminate. exact IHm. Qed.

(** X1.  Every method class accepts [Autograd], and every class a caller
    derives from it: [supports_gradient] answers [True] and
    [assert_supports_gradient] raises nothing. *)
Theorem Autograd_is_supported_by_every_method
  (cls : method_class) (g : gradient) :
  issubclass (type_of_gradient g) Autograd = true ->
  supports_gradient cls (Some g) = true
  /\ assert_supports_gradient cls (Some g) = Ok tt.
Proof.
  intros Hsub.
  assert (Hs : supports_gradient cls (Some g) = true).
  { unfold supports_gradient, isinstance.
    destruct cls; cbn [SUPPORTED_GRADIENT existsb]; now rewrite Hsub. }
  split; [exact Hs | exact (assert_supports_gradient_supported cls g Hs)].
Qed.

Lemma Autograd_is_supported_by_every_method_witness :
  issubclass (Subclass "MyAutograd" Autograd) Autograd = true
  /\ supports_gradient cExpm
       (Some (mk_gradient (Subclass "MyAutograd" Autograd))) = true.
Proof.
  split; [reflexivity|].
  exact (proj1 (Autograd_is_supported_by_every_method cExpm
                  (mk_gradient (Subclass "MyAutograd" Autograd)) eq_refl)).
Defined.

(** X2.  A public attribute (its name does not start with an underscore;
    the other names may belong to the base classes, which are not in this
    file) that ordinary lookup does not find on an [Event] is read from the
    innermost no-click method, through every [Event] wrapped around it. *)
Theorem getattr_reads_the_innermost_method (m : method) (attr : string) :
  String.prefix "_" attr = false ->
  ~ In attr Event_attribute_names ->
  getattr m attr = getattr (innermost m) attr.
Proof.
  intros _ Hnot.
  induction m as [| | | | | | | | |nm IH rf ss]; try reflexivity.
  cbn [innermost]. rewrite <- IH.
  cbn [getattr]. now rewrite (lookup_attribute_Event_None nm rf ss attr Hnot).
Qed.

Lemma getattr_reads_the_innermost_method_witness :
  String.prefix "_" "dt" = false
  /\ ~ In "dt" Event_attribute_names
  /\ getattr (Event (Event (Euler 1e-4) None true) None false) "dt"
     = Ok (VFloat 1e-4).
Proof.
  assert (H : ~ In "dt" Event_attribute_names).
  { simpl. intros Hin. repeat destruct Hin as [Hin|Hin]; try discriminate Hin.
    exact Hin. }
  split; [reflexivity|]. split; [exact H|].
  rewrite (getattr_reads_the_innermost_method _ "dt" eq_refl H). reflexivity.
Defined.

(** X3.  Access to a public attribute of a method raises nothing but an
    [AttributeError], and the error is that of the innermost no-click
    method: its message names the class of that method, never [Event]. *)
Theorem getattr_error_names_the_innermost_class
  (m : method) (attr : string) (e : exn) :
  String.prefix "_" attr = false ->
  getattr m attr = Raise e ->
  e = AttributeError (no_attribute_message (type_of (innermost m)) attr)
  /\ type_of (innermost m) <> cEvent
  /\ lookup_attribute (innermost m) attr = None.
Proof.
  intros _ Hget.
  split; [|split; [apply innermost_is_no_Event|]].
  - induction m as [| | | | | | | | |nm IH rf ss];
      cbn [getattr] in Hget;
      destruct (lookup_attribute _ attr) eqn:Hl in Hget;
      try discriminate Hget;
      try (now injection Hget as <-).
    exact (IH Hget).
  - induction m as [| | | | | | | | |nm IH rf ss];
      cbn [getattr] in Hget;
      destruct (lookup_attribute _ attr) eqn:Hl in Hget;
      try discriminate Hget;
      try exact Hl.
    exact (IH Hget).
Qed.

Lemma getattr_error_names_the_innermost_class_witness :
  getattr default_Event "dt"
  = Raise (AttributeError "'Tsit5' object has no attribute 'dt'")
  /\ AttributeError "'Tsit5' object has no attribute 'dt'"
     = AttributeError
         (no_attribute_message (type_of (innermost default_Event)) "dt").
Proof.
  split; [reflexivity|].
  exact (proj1 (getattr_error_names_the_innermost_class default_Event "dt"
                  _ eq_refl eq_refl)).
Defined.

End Method.

(** C10, on [Event(noclick_method=Kvaerno5(rtol=1e-8, atol=1e-10,
    max_steps=500))], on [Event(noclick_method=Euler(dt=1e-4))] and on a
    name that no method has: [max_steps], [atol] and [dt] are those of
    the no-click method, and the error is the one of the no-click
    method. *)
Lemma Event_getattr_delegates_witness :
  (String.prefix "_" "max_steps" = false
   /\ ~ In "max_steps" Method.Event_attribute_names)
  /\ Method.getattr
       (Method.Event
          (Method.Kvaerno5
             (Method.mk_adaptive_step 1e-8 1e-10 0.9 0.2 5.0 500))
          None true) "max_steps"
     = Py.Ok (Method.VInt 500)
  /\ Method.getattr
       (Method.Event
          (Method.Kvaerno5
             (Method.mk_adaptive_step 1e-8 1e-10 0.9 0.2 5.0 500))
          None true) "atol"
     = Py.Ok (Method.VFloat 1e-10)
  /\ Method.getattr (Method.Event (Method.Euler 1e-4) None false) "dt"
     = Py.Ok (Method.VFloat 1e-4)
  /\ Method.getattr (Method.Event (Method.Euler 1e-4) None false) "rtol"
     = Py.Raise
         (Py.AttributeError "'Euler' object has no attribute 'rtol'").
Proof.
  assert (Hnot : forall attr,
            In attr ["max_steps"; "atol"; "dt"; "rtol"] ->
            ~ In attr Method.Event_attribute_names).
  { intros attr Hattr Hin. cbn in Hattr, Hin.
    repeat destruct Hattr as [<-|Hattr]; try destruct Hattr;
      repeat destruct Hin as [Hin|Hin]; try discriminate Hin;
      exact Hin. }
  split; [split; [reflexivity | apply Hnot; cbn; tauto]|].
  split; [|split; [|split]].
  - rewrite (Method.Event_getattr_delegates _ None true "max_steps" eq_refl)
      by (apply Hnot; cbn; tauto).
    reflexivity.
  - rewrite (Method.Event_getattr_delegates _ None true "atol" eq_refl)
      by (apply Hnot; cbn; tauto).
    reflexivity.
  - rewrite (Method.Event_getattr_delegates _ None false "dt" eq_refl)
      by (apply Hnot; cbn; tauto).
    reflexivity.
  - rewrite (Method.Event_getattr_delegates _ None false "rtol" eq_refl)
      by (apply Hnot; cbn; tauto).
    reflexivity.
Defined.

(* ===================================================================== *)
(** ** Arrays, broadcasting and argument checks *)
(* ===================================================================== *)

Module Jax.
Import Py.
Local Open Scope nat_scope.

Section Arrays.

(** The entries of an array, whatever their dtype. *)
Variable S : Type.

(** An array is its shape and its entries, addressed by a multi-index.
    Qarrays and time-qarrays are arrays too: only their shape and their
    slices matter to the solver front end. *)
Record array : Type := mk_array {
  shape : list nat;
  at_ : list nat -> S
}.

(** [x.ndim] *)
Definition ndim (x : array) : nat := List.length (shape x).

(** [x.shape[:-2]]: all but the last two axes (nothing when there are
    fewer than two). *)
Definition batch_shape (x : array) : list nat :=
  firstn (ndim x - 2) (shape x).

Fixpoint remove_nth {A : Type} (k : nat) (l : list A) : list A :=
  match k, l with
  | _, [] => []
  | 0, _ :: l' => l'
  | Datatypes.S k', x :: l' => x :: remove_nth k' l'
  end.

Fixpoint insert_nth {A : Type} (k : nat) (x : A) (l : list A) : list A :=
  match k, l with
  | 0, _ => x :: l
  | Datatypes.S k', [] => [x]
  | Datatypes.S k', y :: l' => y :: insert_nth k' x l'
  end.

(** The slice [i] of [x] along axis [k] ([x[i]] when [k = 0]). *)
Definition take (k i : nat) (x : array) : array :=
  {| shape := remove_nth k (shape x);
     at_ := fun idx => at_ x (insert_nth k i idx) |}.

(** [x[0]] with a static index: out of bounds on an axis of size 0, and
    too many indices on a scalar. *)
Definition getitem0 (x : array) : M array :=
  match shape x with
  | [] => Raise (IndexError "Too many indices: array is 0-dimensional")
  | 0 :: _ =>
      Raise (IndexError "index is out of bounds for axis 0 with size 0")
  | _ :: _ => Ok (take 0 0 x)
  end.

(** [x[1:]] *)
Definition getitem_from1 (x : array) : M array :=
  match shape x with
  | [] => Raise (IndexError "Too many indices: array is 0-dimensional")
  | n :: s =>
      Ok {| shape := (n - 1) :: s;
            at_ := fun idx =>
                     match idx with
                     | i :: r => at_ x (Datatypes.S i :: r)
                     | [] => at_ x []
                     end |}
  end.

(** [x[None]] *)
Definition expand_dims0 (x : array) : array :=
  {| shape := 1 :: shape x; at_ := fun idx => at_ x (tl idx) |}.

(** [jnp.concatenate((x, y))] along axis 0. *)
Definition concatenate (x y : array) : M array :=
  match shape x, shape y with
  | n :: s, m :: s' =>
      if list_eq_dec Nat.eq_dec s s'
      then Ok {| shape := (n + m) :: s;
                 at_ := fun idx =>
                          match idx with
                          | i :: r =>
                              if i <? n then at_ x (i :: r)
                              else at_ y ((i - n) :: r)
                          | [] => at_ x []
                          end |}
      else Raise (ValueError
                    "Cannot concatenate arrays with different shapes")
  | _, _ => Raise (ValueError "Need at least one array of rank >= 1")
  end.

(** [jnp.stack(xs, axis=k)] for arrays shaped like [x0]; what [jax.vmap]
    does with the results of the mapped calls for an output axis [k]. *)
Definition stack (k : nat) (x0 : array) (xs : list array) : array :=
  {| shape := insert_nth k (List.length xs) (shape x0);
     at_ := fun idx => at_ (nth (nth k idx 0) xs x0) (remove_nth k idx) |}.

(** Broadcasting of two shapes read from their last axis. *)
Fixpoint broadcast_rev (s t : list nat) : option (list nat) :=
  match s, t with
  | [], _ => Some t
  | _, [] => Some s
  | a :: s', b :: t' =>
      match broadcast_rev s' t' with
      | None => None
      | Some r =>
          if a =? b then Some (a :: r)
          else if a =? 1 then Some (b :: r)
          else if b =? 1 then Some (a :: r)
          else None
      end
  end.

(** [jnp.broadcast_shapes] of several shapes: trailing axes are aligned; two sizes
    agree when they are equal or one of them is 1. *)
Definition broadcast_shapes (shapes : list (list nat)) : M (list nat) :=
  match
    fold_left
      (fun acc s =>
         match acc with
         | None => None
         | Some r => broadcast_rev r (rev s)
         end)
      shapes (Some [])
  with
  | Some r => Ok (rev r)
  | None => Raise (ValueError "Incompatible shapes for broadcasting")
  end.

(** Whether a shape broadcasts to a target, both read from the last
    axis. *)
Fixpoint broadcastable_rev (s target : list nat) : bool :=
  match s, target with
  | [], _ => true
  | _ :: _, [] => false
  | a :: s', b :: t' => ((a =? b) || (a =? 1)) && broadcastable_rev s' t'
  end.

(** The index of the source entry read at a target index, both read from
    the last axis: leading target axes are dropped, and an axis of size 1
    is read at 0. *)
Fixpoint source_index_rev (s idx : list nat) : list nat :=
  match s, idx with
  | [], _ => []
  | _ :: s', [] => 0 :: source_index_rev s' []
  | a :: s', i :: idx' =>
      (if a =? 1 then 0 else i) :: source_index_rev s' idx'
  end.

(** [x.broadcast_to] of the axes of [target] *)
Definition broadcast_to (x : array) (target : list nat) : M array :=
  if broadcastable_rev (rev (shape x)) (rev target)
  then Ok {| shape := target;
             at_ := fun idx =>
                      at_ x (rev (source_index_rev (rev (shape x))
                                                   (rev idx))) |}
  else Raise (ValueError "Incompatible shapes for broadcasting").

(** [x.shape[-1]] *)
Definition last_dim (x : array) : M nat :=
  match rev (shape x) with
  | n :: _ => Ok n
  | [] => Raise (IndexError "tuple index out of range")
  end.

(** *** Properties of broadcasting *)

Lemma broadcastable_rev_refl (s : list nat) : broadcastable_rev s s = true.
Proof.
  induction s as [|a s IH]; simpl; [reflexivity|].
  now rewrite Nat.eqb_refl, IH.
Qed.

Lemma broadcastable_rev_trans (s t u : list nat) :
  broadcastable_rev s t = true -> broadcastable_rev t u = true ->
  broadcastable_rev s u = true.
Proof.
  revert t u. induction s as [|a s IH]; intros [|b t] [|c u]; simpl;
    try reflexivity; try discriminate.
  intros Hst Htu.
  apply andb_true_iff in Hst. destruct Hst as [Hab Hst].
  apply andb_true_iff in Htu. destruct Htu as [Hbc Htu].
  rewrite (IH t u Hst Htu), andb_true_r.
  apply orb_true_iff in Hab. apply orb_true_iff in Hbc.
  apply orb_true_iff.
  destruct Hab as [Hab|Ha]; [|now right].
  apply Nat.eqb_eq in Hab. subst b.
  destruct Hbc as [Hac|Ha]; [now left | now right].
Qed.

Lemma broadcast_rev_broadcastable (s t r : list nat) :
  broadcast_rev s t = Some r ->
  broadcastable_rev s r = true /\ broadcastable_rev t r = true.
Proof.
  revert t r. induction s as [|a s IH]; intros t r.
  - simpl. intros [= <-]. split; [reflexivity|apply broadcastable_rev_refl].
  - destruct t as [|b t].
    + cbn [broadcast_rev]. intros [= <-].
      split; [apply broadcastable_rev_refl|reflexivity].
    + simpl. destruct (broadcast_rev s t) as [r'|] eqn:Hr'; [|discriminate].
      destruct (IH t r' Hr') as [Hs Ht].
      destruct (Nat.eqb_spec a b) as [->|Hab].
      * intros [= <-]. simpl. now rewrite Nat.eqb_refl, Hs, Ht.
      * destruct (Nat.eqb_spec a 1) as [->|Ha].
        -- intros [= <-]. simpl. rewrite Nat.eqb_refl, Hs, Ht.
           now rewrite orb_true_r.
        -- destruct (Nat.eqb_spec b 1) as [->|Hb]; [|discriminate].
           intros [= <-]. simpl. rewrite Nat.eqb_refl, Hs, Ht.
           now rewrite orb_true_r.
Qed.

Lemma fold_broadcast_None (shapes : list (list nat)) :
  fold_left
    (fun acc s =>
       match acc with
       | None => None
       | Some r => broadcast_rev r (rev s)
       end)
    shapes None = None.
Proof. induction shapes; simpl; auto. Qed.

Lemma fold_broadcast_broadcastable (shapes : list (list nat))
  (r0 r : list nat) :
  fold_left
    (fun acc s =>
       match acc with
       | None => None
       | Some r => broadcast_rev r (rev s)
       end)
    shapes (Some r0) = Some r ->
  broadcastable_rev r0 r = true
  /\ forall s, In s shapes -> broadcastable_rev (rev s) r = true.
Proof.
  revert r0. induction shapes as [|s0 shapes IH]; intros r0; simpl.
  - intros [= <-]. split; [apply broadcastable_rev_refl|tauto].
  - destruct (broadcast_rev r0 (rev s0)) as [r1|] eqn:Hr1.
    + intros Hfold. destruct (IH r1 Hfold) as [H1 Hall].
      destruct (broadcast_rev_broadcastable _ _ _ Hr1) as [H0 Hs0].
      split; [exact (broadcastable_rev_trans _ _ _ H0 H1)|].
      intros s [<-|Hin]; [|now apply Hall].
      exact (broadcastable_rev_trans _ _ _ Hs0 H1).
    + rewrite fold_broadcast_None. discriminate.
Qed.

(** Every shape given to [broadcast_shapes] broadcasts to its result. *)
Lemma broadcast_shapes_broadcastable (shapes : list (list nat))
  (b : list nat) :
  broadcast_shapes shapes = Ok b ->
  forall s, In s shapes -> broadcastable_rev (rev s) (rev b) = true.
Proof.
  unfold broadcast_shapes.
  destruct (fold_left _ shapes (Some [])) as [r|] eqn:Hfold; [|discriminate].
  intros [= <-]. rewrite rev_involutive.
  exact (proj2 (fold_broadcast_broadcastable _ _ _ Hfold)).
Qed.

(** [broadcast_shapes] raises nothing but a [ValueError]. *)
Lemma broadcast_shapes_raises (shapes : list (list nat)) (e : exn) :
  broadcast_shapes shapes = Raise e -> exists msg, e = ValueError msg.
Proof.
  unfold broadcast_shapes.
  destruct (fold_left _ shapes (Some [])); [discriminate|].
  intros [= <-]. eauto.
Qed.

Lemma broadcastable_rev_app (p s t : list nat) :
  broadcastable_rev (p ++ s) (p ++ t) = broadcastable_rev s t.
Proof.
  induction p as [|a p IH]; simpl; [reflexivity|].
  now rewrite Nat.eqb_refl, IH.
Qed.

(** Batch axes that broadcast still do once the matrix axes follow. *)
Lemma broadcast_to_batch (x : array) (bx b t : list nat) :
  shape x = (bx ++ t)%list ->
  broadcastable_rev (rev bx) (rev b) = true ->
  exists y, broadcast_to x (b ++ t)%list = Ok y
            /\ shape y = (b ++ t)%list.
Proof.
  intros Hx Hb. unfold broadcast_to.
  rewrite Hx, !rev_app_distr, broadcastable_rev_app, Hb.
  eexists. split; reflexivity.
Qed.

Lemma batch_shape_app (x : array) (b t : list nat) :
  shape x = (b ++ t)%list -> List.length t = 2 -> batch_shape x = b.
Proof.
  intros Hx Ht. unfold batch_shape, ndim. rewrite Hx, length_app, Ht.
  replace (List.length b + 2 - 2) with (List.length b + 0) by lia.
  now rewrite firstn_app_2, app_nil_r.
Qed.

Lemma ndim_app (x : array) (b t : list nat) :
  shape x = (b ++ t)%list -> List.length t = 2 ->
  ndim x - 2 = List.length b.
Proof.
  intros Hx Ht. unfold ndim. rewrite Hx, length_app, Ht. lia.
Qed.

End Arrays.

Arguments shape {S} _.
Arguments at_ {S} _ _.
Arguments ndim {S} _.
Arguments batch_shape {S} _.
Arguments take {S} _ _ _.
Arguments getitem0 {S} _.
Arguments getitem_from1 {S} _.
Arguments expand_dims0 {S} _.
Arguments concatenate {S} _ _.
Arguments stack {S} _ _ _.
Arguments broadcast_to {S} _ _.
Arguments last_dim {S} _.

End Jax.

(* ===================================================================== *)
(** ** dynamiqs/_checks.py: the shape check used by the solver *)
(* ===================================================================== *)

Module Checks.
Import Py.

(** [repr] of a shape tuple: [()], [(3,)], [(2, 3)]. *)
Definition repr_shape (s : list nat) : string :=
  match s with
  | [] => "()"
  | [n] => "(" ++ str_nat n ++ ",)"
  | _ => "(" ++ String.concat ", " (map str_nat s) ++ ")"
  end.

(** [s.replace(old, new)] for a non-empty [old]. *)
Fixpoint replace_fuel (fuel : nat) (old new s : string) : string :=
  match fuel with
  | 0 => s
  | Datatypes.S fuel' =>
      if String.prefix old s
      then new ++ replace_fuel fuel' old new
                    (substring (String.length old)
                               (String.length s - String.length old) s)
      else match s with
           | EmptyString => EmptyString
           | String c rest => String c (replace_fuel fuel' old new rest)
           end
  end.

Definition replace (old new s : string) : string :=
  if (String.length old =? 0)%nat then s
  else replace_fuel (Datatypes.S (String.length s)) old new s.

(** Modelled from the spec: [has_shape] of [dynamiqs/_checks.py], which is
    not among the sources.  The three patterns the solver asks for mean
    what they spell: [(..., n, n)] is a square matrix under any batch axes,
    [(..., n, 1)] a column under any batch axes, [(n, n)] a square matrix
    with no batch axis. *)
Definition has_shape (s : list nat) (pattern : string) : bool :=
  match rev s with
  | c :: r :: batch =>
      if pattern =? "(..., n, n)" then (r =? c)%nat
      else if pattern =? "(..., n, 1)" then (c =? 1)%nat
      else if pattern =? "(n, n)"
      then ((r =? c)%nat && (List.length batch =? 0)%nat)%bool
      else false
  | _ => false
  end.

(** The text of the [ValueError] of [check_shape]: the argument, the
    expected pattern (after substitution) and the shape found. *)
Definition shape_message (argname pattern : string) (s : list nat)
  : string :=
  "Argument `" ++ argname ++ "` must have shape " ++ pattern
  ++ ", but has shape " ++ argname ++ ".shape=" ++ repr_shape s ++ ".".

(** Modelled from the spec: [check_shape(x, argname, pattern, subs=...)] of
    [dynamiqs/_checks.py], which is not among the sources: a configuration
    error naming the argument and the expected shape pattern, in which
    [subs] renames the batch axes. *)
Definition check_shape {S : Type} (x : Jax.array S) (argname pattern : string)
  (subs : list (string * string)) : M unit :=
  if has_shape (Jax.shape x) pattern then Ok tt
  else
    let shown :=
      fold_left (fun p kv => replace (fst kv) (snd kv) p) subs pattern in
    Raise (ValueError (shape_message argname shown (Jax.shape x))).

End Checks.

(* ===================================================================== *)
(** ** dynamiqs/integrators/apis/jssesolve.py *)
(* ===================================================================== *)

Module JSSESolve.
Import Py.
Local Open Scope nat_scope.

(** A user function stored in the options, opaque to the solver. *)
Inductive callable : Type :=
| Callable (name : string).

(** [dq.Options] as [jssesolve] documents it. *)
Record Options : Type := mk_Options {
  save_states : bool;
  cartesian_batching : bool;
  t0 : option Q;
  save_extra : option callable;
  nmaxclick : Z
}.

(** The values of the dictionary [integrator_constructors]. *)
Inductive integrator_constructor : Type :=
| jssesolve_event_euler_integrator_constructor
| jssesolve_event_dopri5_integrator_constructor
| jssesolve_event_dopri8_integrator_constructor
| jssesolve_event_tsit5_integrator_constructor
| jssesolve_event_kvaerno3_integrator_constructor
| jssesolve_event_kvaerno5_integrator_constructor.

(** The dictionary [integrator_constructors], keyed by the class of the
    no-click method. *)
Definition integrator_constructors (c : Method.method_class)
  : option integrator_constructor :=
  match c with
  | Method.cEuler => Some jssesolve_event_euler_integrator_constructor
  | Method.cDopri5 => Some jssesolve_event_dopri5_integrator_constructor
  | Method.cDopri8 => Some jssesolve_event_dopri8_integrator_constructor
  | Method.cTsit5 => Some jssesolve_event_tsit5_integrator_constructor
  | Method.cKvaerno3 => Some jssesolve_event_kvaerno3_integrator_constructor
  | Method.cKvaerno5 => Some jssesolve_event_kvaerno5_integrator_constructor
  | _ => None
  end.

(** An axis specification of [jax.vmap] for a list argument: one axis for
    the whole list, or one per element. *)
Inductive list_axes : Type :=
| AllOf (ax : option nat)
| Each (axs : list (option nat)).

(** [in_axes] for [core_args = (H, Ls, psi0, tsave)]. *)
Record core_axes : Type := mk_core_axes {
  ax_H : option nat;
  ax_Ls : list_axes;
  ax_psi0 : option nat;
  ax_tsave : option nat
}.

(** [in_axes] for [(key, noclick, noclick_min_prob)]. *)
Record click_axes : Type := mk_click_axes {
  ax_key : option nat;
  ax_noclick : option nat;
  ax_noclick_min_prob : option nat
}.

(** [in_axes] for [other_args = (exp_ops, method, gradient, options)]. *)
Record other_axes : Type := mk_other_axes {
  ax_exp_ops : option nat;
  ax_method : option nat;
  ax_gradient : option nat;
  ax_options : option nat
}.

(** [out_axes]: one entry per field of [JSSESolveResult]. *)
Record result_axes : Type := mk_result_axes {
  oa_tsave : option nat;
  oa_method : option nat;
  oa_gradient : option nat;
  oa_options : option nat;
  oa_saved : option nat;
  oa_infos : option nat;
  oa_keys : option nat
}.

(** The number of nested maps per argument ([nvmap]) of
    [_vectorized_clicks_jssesolve]. *)
Record nvmap_tree : Type := mk_nvmap {
  nv_H : nat;
  nv_Ls : list nat;
  nv_psi0 : nat;
  nv_tsave : nat;
  nv_keys : nat;
  nv_exp_ops : nat;
  nv_method : nat;
  nv_gradient : nat;
  nv_options : nat
}.

(** The leaves of the argument tree of [_vectorized_clicks_jssesolve], in
    flattening order. *)
Inductive leaf : Type :=
| LH | LL (i : nat) | Lpsi0 | Ltsave | Lkeys
| Lexp_ops | Lmethod | Lgradient | Loptions.

Definition no_other_axes : other_axes :=
  {| ax_exp_ops := None; ax_method := None;
     ax_gradient := None; ax_options := None |}.

Section Solver.

(** The entries of arrays. *)
Variable S : Type.
Local Abbreviation array := (Jax.array S).

(** [0.0] and [x**2] on entries. *)
Variable zero : S.
Variable square : S -> S.

(** [(H, Ls, psi0, tsave)] *)
Record core_args : Type := mk_core {
  H : array;
  Ls : list array;
  psi0 : array;
  tsave : array
}.

(** [(key, noclick, noclick_min_prob)] *)
Record click_args : Type := mk_click {
  key : array;
  noclick : bool;
  noclick_min_prob : S
}.

(** [(exp_ops, method, gradient, options)] *)
Record other_args : Type := mk_other {
  exp_ops : option (list array);
  method : Method.method;
  gradient : option Method.gradient;
  options : Options
}.

(** [JSSESolveResult]: the echoed configuration, the saved data and the
    solver information as trees of array leaves, and the keys.  The fields
    are those the solver names: [tsave], [method], [gradient], [options],
    [_saved], [infos], [keys]. *)
Record JSSESolveResult : Type := mk_result {
  res_tsave : array;
  res_method : Method.method;
  res_gradient : option Method.gradient;
  res_options : Options;
  res_saved : list array;
  res_infos : list array;
  res_keys : array
}.

(** An integrator as its constructor builds it: the constructor chosen and
    the keyword arguments it was given ([ts], [y0], [H], [Ls] in the first
    group, [key], [noclick], [noclick_min_prob] in the second, [Es],
    [method], [gradient], [options] in the third). *)
Record Integrator : Type := mk_integrator {
  constructor : integrator_constructor;
  int_core : core_args;
  int_click : click_args;
  int_other : other_args
}.

(** The parts of the library that are not among the sources, as
    parameters: [integrator.run()], the property [final_state_norm] of a
    result, [check_times], [check_options], [Options.initialise], the
    error of [assert_method_supported], and the converters [asqarray] and
    [astimeqarray], which return a qarray or raise on an argument they do
    not accept. *)
Variable run : Integrator -> M JSSESolveResult.
Variable final_state_norm : JSSESolveResult -> S.
Variable check_times : array -> string -> M array.
Variable check_options : Options -> string -> M unit.
Variable initialise : Options -> Options.
Variable unsupported_method_error :
  Method.method -> list Method.method_class -> exn.
Variable asqarray : array -> M array.
Variable astimeqarray : array -> M array.

(** [jnp.asarray] on an array. *)
Definition asarray (x : array) : array := x.

(** Modelled from the spec: the property [in_axes] of a time-qarray,
    which is not among the sources: the parameter batch axes map over the
    leading axis. *)
Definition in_axes_of (x : array) : option nat := Some 0.

(** Modelled from the spec: [JSSESolveResult.out_axes()], which is not
    among the sources: the result is vectorized over [_saved], [infos] and
    [keys], and nothing else. *)
Definition out_axes_of_result : result_axes :=
  {| oa_tsave := None; oa_method := None; oa_gradient := None;
     oa_options := None;
     oa_saved := Some 0; oa_infos := Some 0; oa_keys := Some 0 |}.

(** *** [jax.vmap] on the functions of this file *)

(** The size of the mapped axis of one argument, if it is mapped. *)
Definition size_along (ax : option nat) (x : array) : M (list nat) :=
  match ax with
  | None => Ok []
  | Some k =>
      match nth_error (Jax.shape x) k with
      | Some n => Ok [n]
      | None => Raise (ValueError "vmap: axis out of bounds for argument")
      end
  end.

Definition slice_along (ax : option nat) (i : nat) (x : array) : array :=
  match ax with
  | None => x
  | Some k => Jax.take k i x
  end.

(** The axis of every element of a list argument. *)
Definition axes_of_list (la : list_axes) (xs : list array)
  : M (list (option nat)) :=
  match la with
  | AllOf ax => Ok (map (fun _ => ax) xs)
  | Each axs =>
      if List.length axs =? List.length xs then Ok axs
      else Raise (ValueError "vmap: in_axes does not match the argument")
  end.

(** An argument that is no array cannot be mapped. *)
Definition size_static (ax : option nat) : M (list nat) :=
  match ax with
  | None => Ok []
  | Some _ => Raise (ValueError "vmap: axis given for a rank-0 argument")
  end.

Definition sizes_core (ia : core_axes) (c : core_args) : M (list nat) :=
  sH <- size_along (ax_H ia) (H c) ;;
  axs <- axes_of_list (ax_Ls ia) (Ls c) ;;
  sLs <- map_m (fun p => size_along (fst p) (snd p)) (combine axs (Ls c)) ;;
  sp <- size_along (ax_psi0 ia) (psi0 c) ;;
  st <- size_along (ax_tsave ia) (tsave c) ;;
  Ok (sH ++ List.concat sLs ++ sp ++ st)%list.

Definition slice_core (ia : core_axes) (i : nat) (c : core_args)
  : core_args :=
  {| H := slice_along (ax_H ia) i (H c);
     Ls := match axes_of_list (ax_Ls ia) (Ls c) with
           | Ok axs =>
               map (fun p => slice_along (fst p) i (snd p))
                   (combine axs (Ls c))
           | Raise _ => Ls c
           end;
     psi0 := slice_along (ax_psi0 ia) i (psi0 c);
     tsave := slice_along (ax_tsave ia) i (tsave c) |}.

Definition sizes_other (ia : other_axes) (o : other_args) : M (list nat) :=
  sE <- match exp_ops o with
        | Some es =>
            ss <- map_m (size_along (ax_exp_ops ia)) es ;; Ok (List.concat ss)
        | None => Ok []
        end ;;
  sm <- size_static (ax_method ia) ;;
  sg <- size_static (ax_gradient ia) ;;
  so <- size_static (ax_options ia) ;;
  Ok (sE ++ sm ++ sg ++ so)%list.

Definition slice_other (ia : other_axes) (i : nat) (o : other_args)
  : other_args :=
  {| exp_ops := option_map (map (slice_along (ax_exp_ops ia) i)) (exp_ops o);
     method := method o;
     gradient := gradient o;
     options := options o |}.

Definition sizes_click (ia : click_axes) (k : click_args) : M (list nat) :=
  sk <- size_along (ax_key ia) (key k) ;;
  sn <- size_static (ax_noclick ia) ;;
  sm <- size_static (ax_noclick_min_prob ia) ;;
  Ok (sk ++ sn ++ sm)%list.

Definition slice_click (ia : click_axes) (i : nat) (k : click_args)
  : click_args :=
  {| key := slice_along (ax_key ia) i (key k);
     noclick := noclick k;
     noclick_min_prob := noclick_min_prob k |}.

(** The common size of the mapped axes. *)
Definition axis_size (sizes : list nat) : M nat :=
  match sizes with
  | [] =>
      Raise (ValueError
               "vmap must have at least one non-None value in in_axes")
  | n :: rest =>
      if forallb (Nat.eqb n) rest then Ok n
      else Raise (ValueError
                    "vmap got inconsistent sizes for array axes to be mapped")
  end.

(** The leaves of a tree stacked leaf by leaf along axis [k]; [j] is the
    position of the first leaf of [t0] in the whole tree. *)
Fixpoint stack_leaves (k j : nat) (t0 : list array) (ts : list (list array))
  : list array :=
  match t0 with
  | [] => []
  | x0 :: t0' =>
      Jax.stack k x0 (map (fun t => nth j t x0) ts)
      :: stack_leaves k (Datatypes.S j) t0' ts
  end.

Definition static_out {A : Type} (ax : option nat) (v : A) : M A :=
  match ax with
  | None => Ok v
  | Some _ => Raise (ValueError "vmap: out_axes given for a static output")
  end.

(** The result of a mapped function from the results [rs] of its calls:
    a field whose out axis is [None] is the one of the traced call [r0],
    a field with an out axis is stacked along it. *)
Definition stack_results (oa : result_axes) (r0 : JSSESolveResult)
  (rs : list JSSESolveResult) : M JSSESolveResult :=
  m <- static_out (oa_method oa) (res_method r0) ;;
  g <- static_out (oa_gradient oa) (res_gradient r0) ;;
  o <- static_out (oa_options oa) (res_options r0) ;;
  Ok {| res_tsave :=
          match oa_tsave oa with
          | None => res_tsave r0
          | Some k => Jax.stack k (res_tsave r0) (map res_tsave rs)
          end;
        res_method := m;
        res_gradient := g;
        res_options := o;
        res_saved :=
          match oa_saved oa with
          | None => res_saved r0
          | Some k => stack_leaves k 0 (res_saved r0) (map res_saved rs)
          end;
        res_infos :=
          match oa_infos oa with
          | None => res_infos r0
          | Some k => stack_leaves k 0 (res_infos r0) (map res_infos rs)
          end;
        res_keys :=
          match oa_keys oa with
          | None => res_keys r0
          | Some k => Jax.stack k (res_keys r0) (map res_keys rs)
          end |}.

(** [jax.vmap(f, in_axes, out_axes)] for a function of arguments [A],
    given how [in_axes] sizes and slices them.  The function is traced
    once, on slice 0, which fixes the output shapes and the unmapped
    outputs and raises whatever the Python code of [f] raises, even when the
    mapped axis is empty; the mapped outputs are those of the calls on
    every slice. *)
Definition vmap {A : Type} (sizes : A -> M (list nat))
  (slice : nat -> A -> A) (f : A -> M JSSESolveResult)
  (out_axes : result_axes) (a : A) : M JSSESolveResult :=
  ns <- sizes a ;;
  n <- axis_size ns ;;
  r0 <- f (slice 0 a) ;;
  rs <- map_m (fun i => f (slice i a)) (seq 0 n) ;;
  stack_results out_axes r0 rs.

(** The arguments of [_jssesolve_single_trajectory] and of
    [_vectorized_clicks_jssesolve]. *)
Definition trajectory_args : Type := core_args * click_args * other_args.
Definition batched_args : Type := core_args * array * other_args.

(** [jax.vmap] on a function of the eleven arguments [H, Ls, psi0, tsave,
    key, noclick, noclick_min_prob, exp_ops, method, gradient, options]. *)
Definition vmap_trajectory (f : trajectory_args -> M JSSESolveResult)
  (in_axes : core_axes * click_axes * other_axes) (out_axes : result_axes)
  : trajectory_args -> M JSSESolveResult :=
  let '(iac, iak, iao) := in_axes in
  vmap
    (fun '(c, k, o) =>
       sc <- sizes_core iac c ;;
       sk <- sizes_click iak k ;;
       so <- sizes_other iao o ;;
       Ok (sc ++ sk ++ so)%list)
    (fun i '(c, k, o) =>
       (slice_core iac i c, slice_click iak i k, slice_other iao i o))
    f out_axes.

(** [jax.vmap] on a function of [(H, Ls, psi0, tsave, keys, exp_ops,
    method, gradient, options)]. *)
Definition vmap_batched (f : batched_args -> M JSSESolveResult)
  (in_axes : core_axes * option nat * other_axes) (out_axes : result_axes)
  : batched_args -> M JSSESolveResult :=
  let '(iac, iak, iao) := in_axes in
  vmap
    (fun '(c, k, o) =>
       sc <- sizes_core iac c ;;
       sk <- size_along iak k ;;
       so <- sizes_other iao o ;;
       Ok (sc ++ sk ++ so)%list)
    (fun i '(c, k, o) =>
       (slice_core iac i c, slice_along iak i k, slice_other iao i o))
    f out_axes.

(** *** Helpers of [dynamiqs/integrators/_utils.py] *)

Fixpoint iterate {A : Type} (n : nat) (g : A -> A) (x : A) : A :=
  match n with
  | 0 => x
  | Datatypes.S n' => g (iterate n' g x)
  end.

(** The leaves of the argument tree when there are [k] jump operators. *)
Definition leaves (k : nat) : list leaf :=
  (LH :: map LL (seq 0 k)
   ++ [Lpsi0; Ltsave; Lkeys; Lexp_ops; Lmethod; Lgradient; Loptions])%list.

(** The axis [in_axes] gives to a leaf. *)
Definition axis_at (in_axes : core_axes * option nat * other_axes)
  (l : leaf) : option nat :=
  let '(iac, iak, iao) := in_axes in
  match l with
  | LH => ax_H iac
  | LL i =>
      match ax_Ls iac with
      | AllOf ax => ax
      | Each axs => nth i axs None
      end
  | Lpsi0 => ax_psi0 iac
  | Ltsave => ax_tsave iac
  | Lkeys => iak
  | Lexp_ops => ax_exp_ops iao
  | Lmethod => ax_method iao
  | Lgradient => ax_gradient iao
  | Loptions => ax_options iao
  end.

(** The number of maps [nvmap] gives to a leaf. *)
Definition count_at (nvmap : nvmap_tree) (l : leaf) : nat :=
  match l with
  | LH => nv_H nvmap
  | LL i => nth i (nv_Ls nvmap) 0
  | Lpsi0 => nv_psi0 nvmap
  | Ltsave => nv_tsave nvmap
  | Lkeys => nv_keys nvmap
  | Lexp_ops => nv_exp_ops nvmap
  | Lmethod => nv_method nvmap
  | Lgradient => nv_gradient nvmap
  | Loptions => nv_options nvmap
  end.

Definition leaf_eqb (l l' : leaf) : bool :=
  match l, l' with
  | LH, LH | Lpsi0, Lpsi0 | Ltsave, Ltsave | Lkeys, Lkeys
  | Lexp_ops, Lexp_ops | Lmethod, Lmethod | Lgradient, Lgradient
  | Loptions, Loptions => true
  | LL i, LL j => i =? j
  | _, _ => false
  end.

(** The [in_axes] tree, for [k] jump operators, that maps leaf [l] along
    [ax] and nothing else. *)
Definition only (k : nat) (l : leaf) (ax : option nat)
  : core_axes * option nat * other_axes :=
  let pick l' := if leaf_eqb l l' then ax else None in
  ({| ax_H := pick LH;
      ax_Ls := Each (map (fun i => pick (LL i)) (seq 0 k));
      ax_psi0 := pick Lpsi0;
      ax_tsave := pick Ltsave |},
   pick Lkeys,
   {| ax_exp_ops := pick Lexp_ops; ax_method := pick Lmethod;
      ax_gradient := pick Lgradient; ax_options := pick Loptions |}).

(** The number of jump-operator leaves of an [in_axes] tree. *)
Definition count_Ls (in_axes : core_axes * option nat * other_axes) : nat :=
  match ax_Ls (fst (fst in_axes)) with
  | AllOf _ => 0
  | Each axs => List.length axs
  end.

(** Modelled from the spec: [cartesian_vmap(f, in_axes, out_axes, nvmap)]
    of [dynamiqs/integrators/_utils.py], which is not among the sources:
    nested vectorized maps, one per batch dimension, each over one leaf
    of the arguments only, applied so that the first leaf (H) is the
    outermost map and the last mapped leaf (the initial state) the
    innermost. *)
Definition cartesian_vmap (f : batched_args -> M JSSESolveResult)
  (in_axes : core_axes * option nat * other_axes) (out_axes : result_axes)
  (nvmap : nvmap_tree) : batched_args -> M JSSESolveResult :=
  let k := count_Ls in_axes in
  fold_right
    (fun l g =>
       match axis_at in_axes l with
       | None => g
       | Some ax =>
           iterate (count_at nvmap l)
                   (fun h => vmap_batched h (only k l (Some ax)) out_axes) g
       end)
    f (leaves k).

(** Modelled from the spec: [multi_vmap(f, in_axes, out_axes, nvmap)] of
    [dynamiqs/integrators/_utils.py], which is not among the sources: one
    vectorized map over all mapped arguments at once, per dimension of the
    common batch shape. *)
Definition multi_vmap (f : batched_args -> M JSSESolveResult)
  (in_axes : core_axes * option nat * other_axes) (out_axes : result_axes)
  (nvmap : nat) : batched_args -> M JSSESolveResult :=
  iterate nvmap (fun h => vmap_batched h in_axes out_axes) f.

(** Modelled from the spec: [assert_method_supported(method, supported)]
    of [dynamiqs/integrators/_utils.py], which is not among the sources: a
    method of another class is refused. *)
Definition assert_method_supported (m : Method.method)
  (supported_methods : list Method.method_class) : M unit :=
  if existsb (Method.method_class_eqb (Method.type_of m)) supported_methods
  then Ok tt
  else Raise (unsupported_method_error m supported_methods).

(** *** The functions of [jssesolve.py] *)

(** [_jssesolve_single_trajectory] *)
Definition _jssesolve_single_trajectory (a : trajectory_args)
  : M JSSESolveResult :=
  let '(core, click, other) := a in
  (* === select integrator constructor *)
  let supported_methods := [Method.cEvent] in
  assert_method_supported (method other) supported_methods ;;;
  integrator_constructor <-
    match method other with
    | Method.Event noclick_method _ _ =>
        match integrator_constructors (Method.type_of noclick_method) with
        | Some c => Ok c
        | None =>
            Raise (KeyError (Method.class_name
                               (Method.type_of noclick_method)))
        end
    | _ => Raise NotImplementedError
    end ;;
  (* === check gradient is supported *)
  Method.assert_supports_gradient (Method.type_of (method other))
                                  (gradient other) ;;;
  (* === init integrator *)
  let integrator := mk_integrator integrator_constructor core click other in
  (* === run integrator *)
  run integrator.

(** Python's truth value of an attribute. *)
Definition truthy (v : Method.value) : bool :=
  match v with
  | Method.VBool b => b
  | Method.VNone => false
  | Method.VInt n => negb (n =? 0)%Z
  | Method.VFloat x => negb (Qeq_bool x 0)
  | Method.VGradientClasses cs => negb (List.length cs =? 0)
  | _ => true
  end.

(** The leaf function [_concatenate_results] of the smart-sampling
    branch; [ax] is [getattr(out_axes, path[0].name)]. *)
Definition _concatenate_results (ax : option nat) (leaf1 leaf2 : array)
  : M array :=
  match ax with
  | None => Ok leaf1
  | Some _ => Jax.concatenate (Jax.expand_dims0 leaf1) leaf2
  end.

(** [zip] of the leaves of two trees of the same structure. *)
Fixpoint map2_leaves (f : array -> array -> M array) (t1 t2 : list array)
  : M (list array) :=
  match t1, t2 with
  | [], [] => Ok []
  | x :: t1', y :: t2' =>
      z <- f x y ;; zs <- map2_leaves f t1' t2' ;; Ok (z :: zs)
  | _, _ => Raise (ValueError "Custom node type mismatch")
  end.

(** The static leaves of a result (those of [method], [gradient] and
    [options]) are no arrays: they can be kept, not concatenated. *)
Definition keep_static {A : Type} (ax : option nat) (v1 : A) : M A :=
  match ax with
  | None => Ok v1
  | Some _ => Raise (ValueError "concatenate: zero-dimensional arrays")
  end.

(** [jax.tree.map_with_path(_concatenate_results, r1, r2)] with the
    [out_axes] the leaf function closes over. *)
Definition tree_map_concatenate (out_axes : result_axes)
  (r1 r2 : JSSESolveResult) : M JSSESolveResult :=
  ts <- _concatenate_results (oa_tsave out_axes)
                             (res_tsave r1) (res_tsave r2) ;;
  m <- keep_static (oa_method out_axes) (res_method r1) ;;
  g <- keep_static (oa_gradient out_axes) (res_gradient r1) ;;
  o <- keep_static (oa_options out_axes) (res_options r1) ;;
  sv <- map2_leaves (_concatenate_results (oa_saved out_axes))
                    (res_saved r1) (res_saved r2) ;;
  inf <- map2_leaves (_concatenate_results (oa_infos out_axes))
                     (res_infos r1) (res_infos r2) ;;
  ks <- _concatenate_results (oa_keys out_axes)
                             (res_keys r1) (res_keys r2) ;;
  Ok {| res_tsave := ts; res_method := m; res_gradient := g;
        res_options := o; res_saved := sv; res_infos := inf;
        res_keys := ks |}.

(** The [in_axes] of the map over trajectories: the key only. *)
Definition trajectory_in_axes : core_axes * click_axes * other_axes :=
  ({| ax_H := None; ax_Ls := AllOf None; ax_psi0 := None;
      ax_tsave := None |},
   {| ax_key := Some 0; ax_noclick := None; ax_noclick_min_prob := None |},
   {| ax_exp_ops := None; ax_method := None; ax_gradient := None;
      ax_options := None |}).

(** [_vectorized_clicks_jssesolve] *)
Definition _vectorized_clicks_jssesolve (a : batched_args)
  : M JSSESolveResult :=
  let '(core_args, keys, other_args) := a in
  let f := _jssesolve_single_trajectory in
  (* === vectorize function over stochastic trajectories *)
  let out_axes := out_axes_of_result in
  let in_axes := trajectory_in_axes in
  let f := vmap_trajectory f in_axes out_axes in
  smart_sampling <- Method.getattr (method other_args) "smart_sampling" ;;
  if truthy smart_sampling then
    (* consume the first key for the no-click trajectory *)
    key0 <- Jax.getitem0 keys ;;
    let noclick_args := mk_click key0 true zero in
    noclick_result <-
      _jssesolve_single_trajectory (core_args, noclick_args, other_args) ;;
    (* consume the remaining keys for the click trajectories *)
    keys1 <- Jax.getitem_from1 keys ;;
    let click_args :=
      mk_click keys1 false (square (final_state_norm noclick_result)) in
    click_result <- f (core_args, click_args, other_args) ;;
    (* concatenate the results of the no-click and click trajectories *)
    tree_map_concatenate out_axes noclick_result click_result
  else
    let click_args := mk_click keys false zero in
    f (core_args, click_args, other_args).

(** The [in_axes] of the maps over the batch axes:
    [(H.in_axes, [L.in_axes for L in Ls], 0, None, None, None, None, None,
    None)]. *)
Definition batch_in_axes (core : core_args)
  : core_axes * option nat * other_axes :=
  ({| ax_H := in_axes_of (H core);
      ax_Ls := Each (map in_axes_of (Ls core));
      ax_psi0 := Some 0;
      ax_tsave := None |},
   None, no_other_axes).

(** [_vectorized_jssesolve].  [H.ndim - 2] counts maps, so a negative
    difference counts none, as the truncated subtraction does. *)
Definition _vectorized_jssesolve (a : batched_args) : M JSSESolveResult :=
  let '(core, keys, other) := a in
  let f := _vectorized_clicks_jssesolve in
  (* === vectorize function over H, Ls and psi0 *)
  let out_axes := out_axes_of_result in
  let in_axes := batch_in_axes core in
  if cartesian_batching (options other) then
    let nvmap :=
      {| nv_H := Jax.ndim (H core) - 2;
         nv_Ls := map (fun L => Jax.ndim L - 2) (Ls core);
         nv_psi0 := Jax.ndim (psi0 core) - 2;
         nv_tsave := 0; nv_keys := 0; nv_exp_ops := 0; nv_method := 0;
         nv_gradient := 0; nv_options := 0 |} in
    cartesian_vmap f in_axes out_axes nvmap (core, keys, other)
  else
    bshape <- Jax.broadcast_shapes
                (map Jax.batch_shape (H core :: Ls core ++ [psi0 core])%list) ;;
    let nvmap := List.length bshape in
    (* broadcast all vectorized input to same shape *)
    n <- Jax.last_dim (H core) ;;
    H' <- Jax.broadcast_to (H core) (bshape ++ [n; n])%list ;;
    Ls' <- map_m (fun L => Jax.broadcast_to L (bshape ++ [n; n])%list)
                 (Ls core) ;;
    psi0' <- Jax.broadcast_to (psi0 core) (bshape ++ [n; 1])%list ;;
    (* vectorize the function *)
    multi_vmap f in_axes out_axes nvmap
      (mk_core H' Ls' psi0' (tsave core), keys, other).

(** The text of the [ValueError] for an empty list of jump operators. *)
Definition empty_jump_ops_message : string :=
  "Argument `jump_ops` is an empty list, consider using `dq.sesolve()` to"
  ++ " solve the Schrödinger equation.".

(** [_check_jssesolve_args] *)
Definition _check_jssesolve_args (H : array) (Ls : list array)
  (psi0 : array) (exp_ops : option (list array)) : M unit :=
  (* === check H shape *)
  Checks.check_shape H "H" "(..., n, n)" [("...", "...H")] ;;;
  (* === check Ls shape *)
  for_each
    (fun '(i, L) =>
       Checks.check_shape L ("jump_ops[" ++ str_nat i ++ "]") "(..., n, n)"
                          [("...", "...L" ++ str_nat i)])
    (enumerate Ls) ;;;
  (if List.length Ls =? 0
   then Raise (ValueError empty_jump_ops_message)
   else Ok tt) ;;;
  (* === check psi0 shape *)
  Checks.check_shape psi0 "psi0" "(..., n, 1)" [("...", "...psi0")] ;;;
  (* === check exp_ops shape *)
  match exp_ops with
  | Some es =>
      for_each
        (fun '(i, E) =>
           Checks.check_shape E ("exp_ops[" ++ str_nat i ++ "]") "(n, n)" [])
        (enumerate es)
  | None => Ok tt
  end.

(** [jssesolve] *)
Definition jssesolve (H : array) (jump_ops : list array) (psi0 : array)
  (tsave : array) (keys : array) (exp_ops : option (list array))
  (method : Method.method) (gradient : option Method.gradient)
  (options : Options) : M JSSESolveResult :=
  (* === convert arguments *)
  H <- astimeqarray H ;;
  Ls <- map_m astimeqarray jump_ops ;;
  psi0 <- asqarray psi0 ;;
  let tsave := asarray tsave in
  let keys := asarray keys in
  exp_ops <-
    match exp_ops with
    | Some es =>
        if 0 <? List.length es
        then es' <- map_m asqarray es ;; Ok (Some es')
        else Ok None
    | None => Ok None
    end ;;
  (* === check arguments *)
  _check_jssesolve_args H Ls psi0 exp_ops ;;;
  tsave <- check_times tsave "tsave" ;;
  check_options options "jssesolve" ;;;
  let options := initialise options in
  _vectorized_jssesolve
    (mk_core H Ls psi0 tsave, keys, mk_other exp_ops method gradient options).


(** *** What the properties speak of *)

(** What makes a call ill-configured for the checks of
    [_check_jssesolve_args]: no jump operator, or an ill-shaped [H],
    initial state or observable. *)
Definition offending (H : array) (Ls : list array) (psi0 : array)
  (exp_ops : option (list array)) : Prop :=
  Ls = []
  \/ Checks.has_shape (Jax.shape H) "(..., n, n)" = false
  \/ Checks.has_shape (Jax.shape psi0) "(..., n, 1)" = false
  \/ exists es E, exp_ops = Some es /\ In E es
                  /\ Checks.has_shape (Jax.shape E) "(n, n)" = false.

(** The message of the first check that fails, in the order of the
    checks: [H], the jump operators by index, the empty list, the initial
    state, the observables by index.  Each names the argument that
    offends with the shape pattern expected of it, or reports the empty
    list of jump operators. *)
Inductive first_offender (H : array) (Ls : list array) (psi0 : array)
  (exp_ops : option (list array)) : string -> Prop :=
| first_H :
    Checks.has_shape (Jax.shape H) "(..., n, n)" = false ->
    first_offender H Ls psi0 exp_ops
      (Checks.shape_message "H" "(...H, n, n)" (Jax.shape H))
| first_jump_op (i : nat) (L : array) :
    Checks.has_shape (Jax.shape H) "(..., n, n)" = true ->
    nth_error Ls i = Some L ->
    Checks.has_shape (Jax.shape L) "(..., n, n)" = false ->
    (forall j L', j < i -> nth_error Ls j = Some L' ->
       Checks.has_shape (Jax.shape L') "(..., n, n)" = true) ->
    first_offender H Ls psi0 exp_ops
      (Checks.shape_message ("jump_ops[" ++ str_nat i ++ "]")
                            ("(...L" ++ str_nat i ++ ", n, n)")
                            (Jax.shape L))
| first_empty :
    Checks.has_shape (Jax.shape H) "(..., n, n)" = true ->
    Ls = [] ->
    first_offender H Ls psi0 exp_ops empty_jump_ops_message
| first_psi0 :
    Checks.has_shape (Jax.shape H) "(..., n, n)" = true ->
    Forall (fun L => Checks.has_shape (Jax.shape L) "(..., n, n)" = true) Ls ->
    Ls <> [] ->
    Checks.has_shape (Jax.shape psi0) "(..., n, 1)" = false ->
    first_offender H Ls psi0 exp_ops
      (Checks.shape_message "psi0" "(...psi0, n, 1)" (Jax.shape psi0))
| first_exp_op (es : list array) (i : nat) (E : array) :
    Checks.has_shape (Jax.shape H) "(..., n, n)" = true ->
    Forall (fun L => Checks.has_shape (Jax.shape L) "(..., n, n)" = true) Ls ->
    Ls <> [] ->
    Checks.has_shape (Jax.shape psi0) "(..., n, 1)" = true ->
    exp_ops = Some es ->
    nth_error es i = Some E ->
    Checks.has_shape (Jax.shape E) "(n, n)" = false ->
    (forall j E', j < i -> nth_error es j = Some E' ->
       Checks.has_shape (Jax.shape E') "(n, n)" = true) ->
    first_offender H Ls psi0 exp_ops
      (Checks.shape_message ("exp_ops[" ++ str_nat i ++ "]") "(n, n)"
                            (Jax.shape E)).

(** The converters accept the arguments of a call and return [H'], [Ls'],
    [psi0'] and [exp_ops']; an empty list of observables becomes
    [None]. *)
Definition converted (H : array) (jump_ops : list array) (psi0 : array)
  (exp_ops : option (list array))
  (H' : array) (Ls' : list array) (psi0' : array)
  (exp_ops' : option (list array)) : Prop :=
  astimeqarray H = Ok H'
  /\ map_m astimeqarray jump_ops = Ok Ls'
  /\ asqarray psi0 = Ok psi0'
  /\ match exp_ops with
     | Some (E :: es) =>
         exists es', map_m asqarray (E :: es) = Ok es'
                     /\ exp_ops' = Some es'
     | _ => exp_ops' = None
     end.

(** An array to stand for a leaf that a tree does not have. *)
Definition no_array : array := Jax.mk_array S [] (fun _ => zero).

(** Leaf [j] of a tree. *)
Definition leaf_at (j : nat) (t : list array) : array := nth j t no_array.

(** [x] stacks the [n] arrays [xt 0], ..., [xt (n - 1)] along axis 0. *)
Definition is_stack (x : array) (n : nat) (x0 : array) (xt : nat -> array)
  : Prop :=
  Jax.shape x = n :: Jax.shape x0
  /\ forall t idx, t < n -> Jax.at_ x (t :: idx) = Jax.at_ (xt t) idx.

(** Every leaf of [l] stacks the matching leaves of the trees [lt t]; a
    tree that lacks the leaf contributes the leaf of [l0]. *)
Definition leaves_are_stacks (l : list array) (n : nat) (l0 : list array)
  (lt : nat -> list array) : Prop :=
  List.length l = List.length l0
  /\ forall j, j < List.length l0 ->
       is_stack (leaf_at j l) n (leaf_at j l0)
                (fun t => nth j (lt t) (leaf_at j l0)).

(** [x] is [first] followed along axis 0 by the [n] arrays [rest 0], ...,
    [rest (n - 1)]. *)
Definition prepends (x : array) (first : array) (n : nat)
  (rest : nat -> array) : Prop :=
  Jax.shape x = Datatypes.S n :: Jax.shape first
  /\ (forall idx, Jax.at_ x (0 :: idx) = Jax.at_ first idx)
  /\ forall t idx, t < n ->
       Jax.at_ x (Datatypes.S t :: idx) = Jax.at_ (rest t) idx.

Definition leaves_prepend (l : list array) (first : list array) (n : nat)
  (rest : nat -> list array) : Prop :=
  List.length l = List.length first
  /\ forall j, j < List.length first ->
       prepends (leaf_at j l) (leaf_at j first) n
                (fun t => leaf_at j (rest t)).

(** The per-trajectory leaves of [r] have the leading axes [pre] before
    the shapes [sh] (leaves of [_saved]), [shi] (leaves of [infos]) and [shk]
    ([keys]). *)
Definition has_leading (pre : list nat) (sh shi : list (list nat))
  (shk : list nat) (r : JSSESolveResult) : Prop :=
  map (@Jax.shape S) (res_saved r) = map (fun s => pre ++ s)%list sh
  /\ map (@Jax.shape S) (res_infos r) = map (fun s => pre ++ s)%list shi
  /\ Jax.shape (res_keys r) = (pre ++ shk)%list.

(** [x[i1, ..., ik]]: the slices along the leading axis, one index after
    the other. *)
Definition getitem (p : list nat) (x : array) : array :=
  fold_left (fun y i => Jax.take 0 i y) p x.

(** A multi-index within the axes [s]. *)
Definition in_bounds (p s : list nat) : Prop := Forall2 lt p s.

(** The arguments of one batch element: [H[pH]], every [L_k[pL_k]] and
    [psi0[pp]], with the other arguments as they are. *)
Definition element (pH : list nat) (pLs : list (list nat)) (pp : list nat)
  (a : core_args * array * other_args) : core_args * array * other_args :=
  let '(c, k, o) := a in
  (mk_core (getitem pH (H c))
           (map (fun pL => getitem (fst pL) (snd pL)) (combine pLs (Ls c)))
           (getitem pp (psi0 c))
           (tsave c),
   k, o).

(** Under the leading index [p], the per-trajectory leaves of [r] hold
    the entries of those of [r']: [leaf(r)[p] = leaf(r')]. *)
Definition agrees_at (p : list nat) (r r' : JSSESolveResult) : Prop :=
  (forall j idx,
     Jax.at_ (leaf_at j (res_saved r)) (p ++ idx)%list
     = Jax.at_ (leaf_at j (res_saved r')) idx)
  /\ (forall j idx,
        Jax.at_ (leaf_at j (res_infos r)) (p ++ idx)%list
        = Jax.at_ (leaf_at j (res_infos r')) idx)
  /\ forall idx,
       Jax.at_ (res_keys r) (p ++ idx)%list = Jax.at_ (res_keys r') idx.

(** What the checks of [_check_jssesolve_args] ask for, argument by
    argument: a square [H], at least one jump operator and every one of
    them square, a column for the initial state, and every observable a
    square matrix without batch axes. *)
Definition well_shaped (H : array) (Ls : list array) (psi0 : array)
  (exp_ops : option (list array)) : Prop :=
  Checks.has_shape (Jax.shape H) "(..., n, n)" = true
  /\ Forall (fun L => Checks.has_shape (Jax.shape L) "(..., n, n)" = true) Ls
  /\ Ls <> []
  /\ Checks.has_shape (Jax.shape psi0) "(..., n, 1)" = true
  /\ match exp_ops with
     | Some es =>
         Forall (fun E => Checks.has_shape (Jax.shape E) "(n, n)" = true) es
     | None => True
     end.

(** *** Properties of the argument checks *)

Lemma bind_Ok {A B : Type} (a : A) (k : A -> M B) : bind (Ok a) k = k a.
Proof. reflexivity. Qed.

Lemma bind_Raise {A B : Type} (e : exn) (k : A -> M B) :
  bind (Raise e) k = Raise e.
Proof. reflexivity. Qed.

(** A [for] loop runs through, or stops at the first element whose body
    raises. *)
Lemma for_each_cases {A : Type} (body : A -> M unit) (xs : list A) :
  for_each body xs = Ok tt
  \/ exists x e, In x xs /\ body x = Raise e /\ for_each body xs = Raise e.
Proof.
  induction xs as [|x xs IH]; simpl; [now left|].
  destruct (body x) as [[]|e] eqn:Hx; simpl.
  - destruct IH as [IH|(y & e & Hy & Hb & Hf)]; [now left|].
    right. exists y, e. auto.
  - right. exists x, e. auto.
Qed.

Lemma for_each_Ok_all {A : Type} (body : A -> M unit) (xs : list A) :
  for_each body xs = Ok tt -> forall x, In x xs -> body x = Ok tt.
Proof.
  induction xs as [|x xs IH]; simpl; [tauto|].
  destruct (body x) as [[]|e] eqn:Hx; simpl; [|discriminate].
  intros Hf y [<-|Hy]; [exact Hx | now apply IH].
Qed.

Lemma in_combine_seq {A : Type} (xs : list A) (st i : nat) (x : A) :
  In (i, x) (combine (seq st (List.length xs)) xs) ->
  st <= i /\ nth_error xs (i - st) = Some x.
Proof.
  revert st. induction xs as [|y xs IH]; intros st; simpl; [tauto|].
  intros [Heq|Hin].
  - inversion Heq; subst. rewrite Nat.sub_diag. auto.
  - destruct (IH _ Hin) as [Hle Hnth]. split; [lia|].
    replace (i - st) with (Datatypes.S (i - Datatypes.S st)) by lia.
    exact Hnth.
Qed.

Lemma in_enumerate {A : Type} (xs : list A) (i : nat) (x : A) :
  In (i, x) (enumerate xs) -> nth_error xs i = Some x.
Proof.
  intros Hin. apply in_combine_seq in Hin as [_ Hnth].
  now rewrite Nat.sub_0_r in Hnth.
Qed.

Lemma in_enumerate_inv {A : Type} (xs : list A) (x : A) :
  In x xs -> exists i, In (i, x) (enumerate xs).
Proof.
  unfold enumerate. generalize 0.
  induction xs as [|y xs IH]; intros st; simpl; [tauto|].
  intros [->|Hin].
  - exists st. now left.
  - destruct (IH (Datatypes.S st) Hin) as [i Hi]. exists i. now right.
Qed.

Lemma check_shape_cases (x : array) (argname pattern : string)
  (subs : list (string * string)) :
  (Checks.has_shape (Jax.shape x) pattern = true
   /\ Checks.check_shape x argname pattern subs = Ok tt)
  \/ (Checks.has_shape (Jax.shape x) pattern = false
      /\ Checks.check_shape x argname pattern subs
         = Raise (ValueError
                    (Checks.shape_message argname
                       (fold_left
                          (fun p kv => Checks.replace (fst kv) (snd kv) p)
                          subs pattern)
                       (Jax.shape x)))).
Proof.
  unfold Checks.check_shape.
  destruct (Checks.has_shape (Jax.shape x) pattern); auto.
Qed.

Lemma for_each_all_Ok {A : Type} (body : A -> M unit) (xs : list A) :
  (forall x, In x xs -> body x = Ok tt) -> for_each body xs = Ok tt.
Proof.
  induction xs as [|x xs IH]; intros Hall; simpl; [reflexivity|].
  rewrite (Hall x (or_introl eq_refl)). simpl.
  apply IH. intros y Hy. apply Hall. now right.
Qed.

(** A loop over a list of shape checks runs through when every element has
    the shape, and raises a [ValueError] otherwise. *)
Lemma for_each_check_shape_cases (name : nat -> string) (pattern : string)
  (subs : nat -> list (string * string)) (xs : list array) :
  (Forall (fun x => Checks.has_shape (Jax.shape x) pattern = true) xs
   /\ for_each (fun '(i, x) => Checks.check_shape x (name i) pattern (subs i))
               (enumerate xs) = Ok tt)
  \/ (~ Forall (fun x => Checks.has_shape (Jax.shape x) pattern = true) xs
      /\ exists msg,
           for_each
             (fun '(i, x) => Checks.check_shape x (name i) pattern (subs i))
             (enumerate xs) = Raise (ValueError msg)).
Proof.
  match goal with
  | |- context [for_each ?body (enumerate xs)] =>
      destruct (for_each_cases body (enumerate xs))
        as [Hok|([i x] & e & Hin & Hbody & Hraise)]
  end.
  - left. split; [|exact Hok].
    apply Forall_forall. intros x Hx.
    destruct (in_enumerate_inv xs x Hx) as [i Hi].
    pose proof (for_each_Ok_all _ _ Hok (i, x) Hi) as Hb.
    cbn beta iota in Hb.
    destruct (check_shape_cases x (name i) pattern (subs i))
      as [[Hs _]|[_ Hc]]; [exact Hs | congruence].
  - right.
    destruct (check_shape_cases x (name i) pattern (subs i))
      as [[_ Hc]|[Hs Hc]]; rewrite Hc in Hbody; [discriminate|].
    injection Hbody as <-. split; [|eexists; exact Hraise].
    intros Hall. rewrite Forall_forall in Hall.
    apply in_enumerate, nth_error_In in Hin.
    rewrite (Hall x Hin) in Hs. discriminate.
Qed.

(** The checks pass on well-shaped arguments and raise a [ValueError] on
    all others. *)
Lemma check_args_cases (H : array) (Ls : list array) (psi0 : array)
  (exp_ops : option (list array)) :
  (well_shaped H Ls psi0 exp_ops
   /\ _check_jssesolve_args H Ls psi0 exp_ops = Ok tt)
  \/ (~ well_shaped H Ls psi0 exp_ops
      /\ exists msg,
           _check_jssesolve_args H Ls psi0 exp_ops = Raise (ValueError msg)).
Proof.
  unfold _check_jssesolve_args, well_shaped.
  destruct (check_shape_cases H "H" "(..., n, n)" [("...", "...H")])
    as [[HH ->]|[HH ->]]; rewrite ?bind_Ok, ?bind_Raise.
  2:{ right. split; [|eauto]. intros (HH' & _). congruence. }
  destruct (for_each_check_shape_cases
              (fun i => "jump_ops[" ++ str_nat i ++ "]") "(..., n, n)"
              (fun i => [("...", "...L" ++ str_nat i)]) Ls)
    as [[HLs ->]|[HLs (msg & ->)]]; rewrite ?bind_Ok, ?bind_Raise.
  2:{ right. split; [|eauto]. intros (_ & HLs' & _). tauto. }
  destruct Ls as [|L0 Ls'].
  { cbn [List.length Nat.eqb]. rewrite bind_Raise.
    right. split; [|eauto]. intros (_ & _ & Hne & _). now apply Hne. }
  cbn [List.length Nat.eqb]. rewrite bind_Ok.
  destruct (check_shape_cases psi0 "psi0" "(..., n, 1)" [("...", "...psi0")])
    as [[Hp ->]|[Hp ->]]; rewrite ?bind_Ok, ?bind_Raise.
  2:{ right. split; [|eauto]. intros (_ & _ & _ & Hp' & _). congruence. }
  destruct exp_ops as [es|].
  - destruct (for_each_check_shape_cases
                (fun i => "exp_ops[" ++ str_nat i ++ "]") "(n, n)"
                (fun _ => []) es)
      as [[Hes ->]|[Hes (msg & ->)]].
    + left. repeat split; try assumption. discriminate.
    + right. split; [|eauto]. intros (_ & _ & _ & _ & Hes'). tauto.
  - left. repeat split; try assumption. discriminate.
Qed.

Lemma nth_error_enumerate_from {A : Type} (xs : list A) (st i : nat)
  (x : A) :
  nth_error xs i = Some x ->
  nth_error (combine (seq st (List.length xs)) xs) i = Some (st + i, x).
Proof.
  revert st i. induction xs as [|y xs IH]; intros st [|i]; simpl;
    try discriminate.
  - intros [= ->]. now rewrite Nat.add_0_r.
  - intros Hx. rewrite (IH (Datatypes.S st) i Hx). f_equal. f_equal. lia.
Qed.

(** A loop stops at the first element whose body raises. *)
Lemma for_each_first_raise {A : Type} (body : A -> M unit) (xs : list A)
  (i : nat) (x : A) (e : exn) :
  nth_error xs i = Some x ->
  body x = Raise e ->
  (forall j y, j < i -> nth_error xs j = Some y -> body y = Ok tt) ->
  for_each body xs = Raise e.
Proof.
  revert i. induction xs as [|y xs IH]; intros [|i]; simpl; try discriminate.
  - intros [= ->] -> _. reflexivity.
  - intros Hx Hb Hbefore.
    rewrite (Hbefore 0 y (Nat.lt_0_succ i) eq_refl). simpl.
    apply (IH i Hx Hb). intros j z Hj Hz.
    apply (Hbefore (Datatypes.S j) z); [lia | exact Hz].
Qed.

(** [jssesolve] on arguments the converters accept. *)
Lemma jssesolve_converted
  (H : array) (jump_ops : list array) (psi0 tsave keys : array)
  (exp_ops : option (list array))
  (method : Method.method) (gradient : option Method.gradient)
  (options : Options)
  (H' : array) (Ls' : list array) (psi0' : array)
  (exp_ops' : option (list array)) :
  converted H jump_ops psi0 exp_ops H' Ls' psi0' exp_ops' ->
  jssesolve H jump_ops psi0 tsave keys exp_ops method gradient options
  = (_check_jssesolve_args H' Ls' psi0' exp_ops' ;;;
     tsave' <- check_times tsave "tsave" ;;
     check_options options "jssesolve" ;;;
     _vectorized_jssesolve
       (mk_core H' Ls' psi0' tsave', keys,
        mk_other exp_ops' method gradient (initialise options))).
Proof.
  intros (HH & HL & Hp & HE). unfold jssesolve, asarray.
  rewrite HH, bind_Ok, HL, bind_Ok, Hp, bind_Ok.
  destruct exp_ops as [[|E es]|].
  - subst exp_ops'. reflexivity.
  - destruct HE as (es' & Hes & ->).
    cbn [List.length Nat.ltb Nat.leb]. rewrite Hes. reflexivity.
  - subst exp_ops'. reflexivity.
Qed.

(** C9.  A call with [exp_ops=[]] is the call with [exp_ops=None]: the
    empty list is turned into [None] before the checks, so that no
    observable is checked and the integrator is given no observable. *)
Theorem jssesolve_empty_exp_ops_is_None
  (H : array) (jump_ops : list array) (psi0 tsave keys : array)
  (method : Method.method) (gradient : option Method.gradient)
  (options : Options) :
  jssesolve H jump_ops psi0 tsave keys (Some []) method gradient options
  = jssesolve H jump_ops psi0 tsave keys None method gradient options
  /\ jssesolve H jump_ops psi0 tsave keys (Some []) method gradient options
     = (H' <- astimeqarray H ;;
        Ls' <- map_m astimeqarray jump_ops ;;
        psi0' <- asqarray psi0 ;;
        _check_jssesolve_args H' Ls' psi0' None ;;;
        tsave' <- check_times tsave "tsave" ;;
        check_options options "jssesolve" ;;;
        _vectorized_jssesolve
          (mk_core H' Ls' psi0' tsave', keys,
           mk_other None method gradient (initialise options))).
Proof.
  split; reflexivity.
Qed.

Lemma shown_pattern_L (i : nat) :
  fold_left (fun p kv => Checks.replace (fst kv) (snd kv) p)
            [("...", "...L" ++ str_nat i)] "(..., n, n)"
  = "(...L" ++ str_nat i ++ ", n, n)".
Proof. reflexivity. Qed.

(** A loop of shape checks raises the error of the first element that
    has not the shape. *)
Lemma for_each_check_shape_first (name : nat -> string) (pattern : string)
  (subs : nat -> list (string * string)) (xs : list array)
  (i : nat) (x : array) :
  nth_error xs i = Some x ->
  Checks.has_shape (Jax.shape x) pattern = false ->
  (forall j y, j < i -> nth_error xs j = Some y ->
     Checks.has_shape (Jax.shape y) pattern = true) ->
  for_each (fun '(i, x) => Checks.check_shape x (name i) pattern (subs i))
           (enumerate xs)
  = Raise (ValueError
             (Checks.shape_message (name i)
                (fold_left (fun p kv => Checks.replace (fst kv) (snd kv) p)
                           (subs i) pattern)
                (Jax.shape x))).
Proof.
  intros Hnth Hx Hbefore.
  apply (for_each_first_raise _ (enumerate xs) i (i, x)).
  - exact (nth_error_enumerate_from xs 0 i x Hnth).
  - destruct (check_shape_cases x (name i) pattern (subs i))
      as [[Hx' _]|[_ Hc]]; [congruence | exact Hc].
  - intros j [j' y] Hj Hnth'.
    assert (Hy : nth_error xs j = Some y /\ j' = j).
    { destruct (nth_error xs j) as [y'|] eqn:Hxj.
      - unfold enumerate in Hnth'.
        rewrite (nth_error_enumerate_from xs 0 j y' Hxj) in Hnth'.
        now injection Hnth' as <- <-.
      - apply nth_error_None in Hxj.
        assert (Hlen : List.length (enumerate xs) <= j).
        { unfold enumerate. rewrite length_combine, length_seq. lia. }
        apply nth_error_None in Hlen. congruence. }
    destruct Hy as [Hxj ->].
    destruct (check_shape_cases y (name j) pattern (subs j))
      as [[_ Hc]|[Hy' _]]; [exact Hc|].
    rewrite (Hbefore j y Hj Hxj) in Hy'. discriminate.
Qed.

Lemma for_each_check_shape_all (name : nat -> string) (pattern : string)
  (subs : nat -> list (string * string)) (xs : list array) :
  Forall (fun x => Checks.has_shape (Jax.shape x) pattern = true) xs ->
  for_each (fun '(i, x) => Checks.check_shape x (name i) pattern (subs i))
           (enumerate xs) = Ok tt.
Proof.
  intros Hall.
  destruct (for_each_check_shape_cases name pattern subs xs)
    as [[_ Hok]|[Hn _]]; [exact Hok | tauto].
Qed.

(** The checks raise the message of the first one that fails. *)
Lemma first_offender_raises (H : array) (Ls : list array) (psi0 : array)
  (exp_ops : option (list array)) (msg : string) :
  first_offender H Ls psi0 exp_ops msg ->
  _check_jssesolve_args H Ls psi0 exp_ops = Raise (ValueError msg).
Proof.
  intros Hfirst. unfold _check_jssesolve_args.
  destruct (check_shape_cases H "H" "(..., n, n)" [("...", "...H")])
    as [[HH ->]|[HH ->]]; rewrite ?bind_Ok, ?bind_Raise.
  2:{ destruct Hfirst; try congruence. reflexivity. }
  destruct Hfirst as [HH'|i L _ Hnth HL Hbefore|_ ->|_ HLs Hne Hp
                      |es i E _ HLs Hne Hp -> Hnth HE Hbefore];
    [congruence| | | |].
  - rewrite (for_each_check_shape_first
               (fun i => "jump_ops[" ++ str_nat i ++ "]") "(..., n, n)"
               (fun i => [("...", "...L" ++ str_nat i)]) Ls i L Hnth HL
               Hbefore).
    reflexivity.
  - reflexivity.
  - rewrite (for_each_check_shape_all
               (fun i => "jump_ops[" ++ str_nat i ++ "]") "(..., n, n)"
               (fun i => [("...", "...L" ++ str_nat i)]) Ls HLs), bind_Ok.
    destruct Ls as [|L0 Ls']; [now elim Hne|].
    cbn [List.length Nat.eqb]. rewrite bind_Ok.
    destruct (check_shape_cases psi0 "psi0" "(..., n, 1)"
                [("...", "...psi0")]) as [[Hp' _]|[_ ->]]; [congruence|].
    reflexivity.
  - rewrite (for_each_check_shape_all
               (fun i => "jump_ops[" ++ str_nat i ++ "]") "(..., n, n)"
               (fun i => [("...", "...L" ++ str_nat i)]) Ls HLs), bind_Ok.
    destruct Ls as [|L0 Ls']; [now elim Hne|].
    cbn [List.length Nat.eqb]. rewrite bind_Ok.
    destruct (check_shape_cases psi0 "psi0" "(..., n, 1)"
                [("...", "...psi0")]) as [[_ ->]|[Hp' _]]; [|congruence].
    rewrite bind_Ok.
    exact (for_each_check_shape_first
             (fun i => "exp_ops[" ++ str_nat i ++ "]") "(n, n)"
             (fun _ => []) es i E Hnth HE Hbefore).
Qed.

(** In a list, every element passes a test or there is a first one that
    fails it. *)
Lemma first_failing {A : Type} (f : A -> bool) (xs : list A) :
  Forall (fun x => f x = true) xs
  \/ exists i x, nth_error xs i = Some x /\ f x = false
                 /\ forall j y, j < i -> nth_error xs j = Some y ->
                                f y = true.
Proof.
  induction xs as [|x xs IH]; [left; constructor|].
  destruct (f x) eqn:Hx.
  - destruct IH as [Hall|(i & y & Hnth & Hy & Hbefore)].
    + left. now constructor.
    + right. exists (Datatypes.S i), y. split; [exact Hnth|].
      split; [exact Hy|]. intros [|j] z Hj Hz.
      * now injection Hz as <-.
      * apply (Hbefore j z); [lia | exact Hz].
  - right. exists 0, x. split; [reflexivity|]. split; [exact Hx|].
    intros j y Hj. lia.
Qed.

(** Offending arguments have a first check that fails. *)
Lemma offending_has_first (H : array) (Ls : list array) (psi0 : array)
  (exp_ops : option (list array)) :
  offending H Ls psi0 exp_ops ->
  exists msg, first_offender H Ls psi0 exp_ops msg.
Proof.
  intros Hoff.
  destruct (Checks.has_shape (Jax.shape H) "(..., n, n)") eqn:HH.
  2:{ eexists. exact (first_H H Ls psi0 exp_ops HH). }
  destruct (first_failing
              (fun L => Checks.has_shape (Jax.shape L) "(..., n, n)") Ls)
    as [HLs|(i & L & Hnth & HL & Hbefore)].
  2:{ eexists. exact (first_jump_op H Ls psi0 exp_ops i L HH Hnth HL
                        Hbefore). }
  destruct Ls as [|L0 Ls'].
  { eexists. exact (first_empty H [] psi0 exp_ops HH eq_refl). }
  destruct (Checks.has_shape (Jax.shape psi0) "(..., n, 1)") eqn:Hp.
  2:{ eexists. apply first_psi0; try assumption. discriminate. }
  destruct Hoff as [Hnil|[HH'|[Hp'|(es & E & -> & HinE & HE)]]];
    [discriminate | congruence | congruence |].
  destruct (first_failing
              (fun E => Checks.has_shape (Jax.shape E) "(n, n)") es)
    as [Hes|(i & E' & Hnth & HE' & Hbefore)].
  - rewrite Forall_forall in Hes. rewrite (Hes E HinE) in HE. discriminate.
  - eexists.
    apply (first_exp_op H (L0 :: Ls') psi0 (Some es) es i E');
      try assumption; try reflexivity. discriminate.
Qed.

Lemma empty_jump_ops_message_names_sesolve :
  contains "dq.sesolve()" empty_jump_ops_message = true.
Proof. reflexivity. Qed.

(** C4, as the code has it.  When the converters accept the arguments of
    a call and return no jump operator, or an [H] not of shape
    [(..., n, n)], or an initial state not of shape [(..., n, 1)], or an
    observable not of shape [(n, n)], the call raises a [ValueError] in
    the argument checks, whatever the time check, the option check and
    the integrator would do: the checks run first.  The message is that of
    the first check that fails, in the order [H], jump operators, empty
    list, initial state, observables, and of no other: it names the
    argument that offends and the pattern expected of it.  With no jump
    operator and a well-shaped [H] it is the message that points to
    [dq.sesolve()]. *)
Theorem jssesolve_rejects_offending_arguments
  (H : array) (jump_ops : list array) (psi0 tsave keys : array)
  (exp_ops : option (list array))
  (method : Method.method) (gradient : option Method.gradient)
  (options : Options)
  (H' : array) (Ls' : list array) (psi0' : array)
  (exp_ops' : option (list array)) :
  converted H jump_ops psi0 exp_ops H' Ls' psi0' exp_ops' ->
  offending H' Ls' psi0' exp_ops' ->
  exists msg,
    jssesolve H jump_ops psi0 tsave keys exp_ops method gradient options
    = Raise (ValueError msg)
    /\ _check_jssesolve_args H' Ls' psi0' exp_ops' = Raise (ValueError msg)
    /\ first_offender H' Ls' psi0' exp_ops' msg
    /\ (forall msg', first_offender H' Ls' psi0' exp_ops' msg' -> msg' = msg)
    /\ (Ls' = [] ->
        Checks.has_shape (Jax.shape H') "(..., n, n)" = true ->
        msg = empty_jump_ops_message
        /\ contains "dq.sesolve()" msg = true).
Proof.
  intros Hconv Hoff.
  destruct (offending_has_first H' Ls' psi0' exp_ops' Hoff) as (msg & Hfirst).
  pose proof (first_offender_raises _ _ _ _ _ Hfirst) as Hcheck.
  assert (Hunique : forall msg', first_offender H' Ls' psi0' exp_ops' msg' ->
                                 msg' = msg).
  { intros msg' Hfirst'.
    pose proof (first_offender_raises _ _ _ _ _ Hfirst') as Hcheck'.
    congruence. }
  exists msg. split; [|split; [exact Hcheck|split; [exact Hfirst|split]]].
  - rewrite (jssesolve_converted _ _ _ _ _ _ _ _ _ _ _ _ _ Hconv), Hcheck.
    reflexivity.
  - exact Hunique.
  - intros HLs HH.
    assert (Hmsg : msg = empty_jump_ops_message).
    { symmetry. apply Hunique.
      exact (first_empty H' Ls' psi0' exp_ops' HH HLs). }
    split; [exact Hmsg|]. rewrite Hmsg.
    exact empty_jump_ops_message_names_sesolve.
Qed.


(** *** Properties of the map over trajectories *)

Lemma size_along_head (x : array) (d : nat) (s : list nat) :
  Jax.shape x = d :: s -> size_along (Some 0) x = Ok [d].
Proof. intros Hx. unfold size_along. now rewrite Hx. Qed.

Lemma shape_take_head (x : array) (d i : nat) (s : list nat) :
  Jax.shape x = d :: s -> Jax.shape (Jax.take 0 i x) = s.
Proof. intros Hx. cbn. now rewrite Hx. Qed.

Lemma map_m_ext {A B : Type} (f g : A -> M B) (xs : list A) :
  (forall x, In x xs -> f x = g x) -> map_m f xs = map_m g xs.
Proof.
  induction xs as [|x xs IH]; intros Hfg; simpl; [reflexivity|].
  rewrite (Hfg x (or_introl eq_refl)), IH; [reflexivity|].
  intros y Hy. apply Hfg. now right.
Qed.

Lemma concat_nils {A B : Type} (l : list B) :
  List.concat (map (fun _ => @nil A) l) = [].
Proof. induction l; simpl; auto. Qed.

Lemma sizes_all_none (axs : list (option nat)) (xs : list array) :
  Forall (fun a => a = None) axs ->
  map_m (fun p => size_along (fst p) (snd p)) (combine axs xs)
  = Ok (map (fun _ => []) (combine axs xs)).
Proof.
  intros Hall. apply map_m_ok. intros [a x] Hin.
  apply in_combine_l in Hin. rewrite Forall_forall in Hall.
  cbn [fst snd]. now rewrite (Hall a Hin).
Qed.

Lemma slices_all_none (axs : list (option nat)) (xs : list array) (i : nat) :
  Forall (fun a => a = None) axs ->
  List.length axs = List.length xs ->
  map (fun p => slice_along (fst p) i (snd p)) (combine axs xs) = xs.
Proof.
  intros Hall. revert xs.
  induction Hall as [|a axs Ha _ IH]; intros [|x xs] Hlen;
    try discriminate; [reflexivity|].
  simpl. subst a. cbn [slice_along]. f_equal. apply IH.
  now injection Hlen.
Qed.

Lemma sizes_core_unmapped (c : core_args) :
  sizes_core (mk_core_axes None (AllOf None) None None) c = Ok [].
Proof.
  unfold sizes_core. cbn [ax_H ax_Ls ax_psi0 ax_tsave size_along axes_of_list].
  rewrite !bind_Ok, sizes_all_none, !bind_Ok.
  - now rewrite concat_nils.
  - apply Forall_forall. intros a Ha. apply in_map_iff in Ha.
    now destruct Ha as (x & <- & _).
Qed.

Lemma slice_core_unmapped (i : nat) (c : core_args) :
  slice_core (mk_core_axes None (AllOf None) None None) i c = c.
Proof.
  destruct c as [h ls p ts]. unfold slice_core.
  cbn [ax_H ax_Ls ax_psi0 ax_tsave slice_along axes_of_list H Ls psi0 tsave].
  rewrite slices_all_none; [reflexivity| |now rewrite length_map].
  apply Forall_forall. intros a Ha. apply in_map_iff in Ha.
  now destruct Ha as (x & <- & _).
Qed.

Lemma sizes_other_unmapped (o : other_args) :
  sizes_other no_other_axes o = Ok [].
Proof.
  unfold sizes_other, no_other_axes.
  cbn [ax_exp_ops ax_method ax_gradient ax_options size_static].
  destruct (exp_ops o) as [es|]; [|reflexivity].
  rewrite (map_m_ok _ (fun _ => []) es) by reflexivity.
  rewrite !bind_Ok. now rewrite concat_nils.
Qed.

Lemma slice_other_unmapped (i : nat) (o : other_args) :
  slice_other no_other_axes i o = o.
Proof.
  destruct o as [es m g op]. unfold slice_other, no_other_axes.
  cbn [ax_exp_ops exp_ops method gradient options].
  f_equal. destruct es as [es|]; [|reflexivity].
  cbn [option_map]. f_equal. apply map_id.
Qed.

(** The map over trajectories slices the key and nothing else. *)
Lemma vmap_trajectory_unfold (f : trajectory_args -> M JSSESolveResult)
  (oa : result_axes) (core : core_args) (click : click_args)
  (other : other_args) (n : nat) (ks : list nat) :
  Jax.shape (key click) = n :: ks ->
  vmap_trajectory f trajectory_in_axes oa (core, click, other)
  = (r0 <- f (core,
              mk_click (Jax.take 0 0 (key click)) (noclick click)
                       (noclick_min_prob click),
              other) ;;
     rs <- map_m
             (fun t => f (core,
                          mk_click (Jax.take 0 t (key click)) (noclick click)
                                   (noclick_min_prob click),
                          other))
             (seq 0 n) ;;
     stack_results oa r0 rs).
Proof.
  intros Hshape.
  unfold vmap_trajectory, trajectory_in_axes, vmap.
  fold no_other_axes.
  rewrite sizes_core_unmapped, sizes_other_unmapped.
  unfold sizes_click.
  cbn [ax_key ax_noclick ax_noclick_min_prob size_along size_static].
  rewrite Hshape. cbn [nth_error]. rewrite !bind_Ok.
  cbn [app axis_size forallb]. rewrite bind_Ok.
  rewrite slice_core_unmapped, slice_other_unmapped.
  unfold slice_click at 1. cbn [ax_key slice_along].
  rewrite (map_m_ext _
             (fun t => f (core,
                          mk_click (Jax.take 0 t (key click)) (noclick click)
                                   (noclick_min_prob click),
                          other))); [reflexivity|].
  intros t _. now rewrite slice_core_unmapped, slice_other_unmapped.
Qed.

Lemma nth_map_seq {A : Type} (f : nat -> A) (n t : nat) (d : A) :
  t < n -> nth t (map f (seq 0 n)) d = f t.
Proof.
  intros Ht.
  rewrite (nth_indep _ d (f 0)) by now rewrite length_map, length_seq.
  rewrite map_nth, seq_nth; auto.
Qed.

Lemma stack_is_stack (x0 : array) (n : nat) (xt : nat -> array) :
  is_stack (Jax.stack 0 x0 (map xt (seq 0 n))) n x0 xt.
Proof.
  split.
  - cbn. now rewrite length_map, length_seq.
  - intros t idx Ht. cbn. now rewrite nth_map_seq.
Qed.

Lemma stack_leaves_length (k j : nat) (t0 : list array)
  (ts : list (list array)) :
  List.length (stack_leaves k j t0 ts) = List.length t0.
Proof.
  revert j. induction t0 as [|x0 t0 IH]; intros j; simpl; auto.
Qed.

Lemma stack_leaves_nth (j0 n : nat) (t0 : list array)
  (lt : nat -> list array) (j : nat) :
  j < List.length t0 ->
  leaf_at j (stack_leaves 0 j0 t0 (map lt (seq 0 n)))
  = Jax.stack 0 (leaf_at j t0)
      (map (fun t => nth (j0 + j) (lt t) (leaf_at j t0)) (seq 0 n)).
Proof.
  unfold leaf_at. revert j0 j.
  induction t0 as [|x0 t0 IH]; intros j0 j Hj; simpl in Hj; [lia|].
  destruct j as [|j]; simpl.
  - now rewrite map_map, Nat.add_0_r.
  - rewrite IH by lia. now rewrite Nat.add_succ_r.
Qed.

Lemma stack_leaves_are_stacks (n : nat) (l0 : list array)
  (lt : nat -> list array) :
  leaves_are_stacks (stack_leaves 0 0 l0 (map lt (seq 0 n))) n l0 lt.
Proof.
  split; [apply stack_leaves_length|].
  intros j Hj. rewrite stack_leaves_nth by exact Hj.
  apply stack_is_stack.
Qed.

(** The result of the map over trajectories when the single-trajectory
    calls return [rt 0], ..., [rt (n - 1)]. *)
Lemma vmap_trajectory_result (core : core_args) (click : click_args)
  (other : other_args) (n : nat) (ks : list nat)
  (rt : nat -> JSSESolveResult) :
  Jax.shape (key click) = n :: ks ->
  (forall t, t < n \/ t = 0 ->
     _jssesolve_single_trajectory
       (core,
        mk_click (Jax.take 0 t (key click)) (noclick click)
                 (noclick_min_prob click),
        other)
     = Ok (rt t)) ->
  vmap_trajectory _jssesolve_single_trajectory trajectory_in_axes
                  out_axes_of_result (core, click, other)
  = Ok {| res_tsave := res_tsave (rt 0);
          res_method := res_method (rt 0);
          res_gradient := res_gradient (rt 0);
          res_options := res_options (rt 0);
          res_saved :=
            stack_leaves 0 0 (res_saved (rt 0))
                         (map (fun t => res_saved (rt t)) (seq 0 n));
          res_infos :=
            stack_leaves 0 0 (res_infos (rt 0))
                         (map (fun t => res_infos (rt t)) (seq 0 n));
          res_keys :=
            Jax.stack 0 (res_keys (rt 0))
                      (map (fun t => res_keys (rt t)) (seq 0 n)) |}.
Proof.
  intros Hshape Hrt.
  rewrite (vmap_trajectory_unfold _ _ _ _ _ n ks Hshape).
  rewrite (Hrt 0) by now right. rewrite bind_Ok.
  rewrite (map_m_ok _ rt).
  2:{ intros t Ht. apply in_seq in Ht. apply Hrt. lia. }
  rewrite bind_Ok. unfold stack_results, out_axes_of_result.
  cbn [oa_tsave oa_method oa_gradient oa_options oa_saved oa_infos oa_keys
       static_out]. rewrite !bind_Ok, !map_map. reflexivity.
Qed.

(** C3.  The map over trajectories has [in_axes] 0 for the key and [None]
    for every other argument, and the maps over the batch axes have
    [None] for the save times, the keys, the observables, the method, the
    gradient and the options.  When the single-trajectory calls on the
    [n] keys return [rt 0], ..., [rt (n - 1)], the mapped function returns
    the result whose per-trajectory leaves stack theirs along a leading
    axis of size [n], each call having been made on one key and on the
    same [H], [Ls], [psi0], [tsave], [exp_ops], [method], [gradient] and
    [options]; the other fields are those of one call.  Without smart
    sampling this is the result of [_vectorized_clicks_jssesolve]. *)
Theorem trajectories_map_over_keys_only (core : core_args)
  (click : click_args) (other : other_args) (n : nat) (ks : list nat)
  (rt : nat -> JSSESolveResult) :
  Jax.shape (key click) = n :: ks ->
  (forall t, t < n \/ t = 0 ->
     _jssesolve_single_trajectory
       (core,
        mk_click (Jax.take 0 t (key click)) (noclick click)
                 (noclick_min_prob click),
        other)
     = Ok (rt t)) ->
  trajectory_in_axes
  = (mk_core_axes None (AllOf None) None None,
     mk_click_axes (Some 0) None None,
     mk_other_axes None None None None)
  /\ (ax_tsave (fst (fst (batch_in_axes core))) = None
      /\ snd (fst (batch_in_axes core)) = None
      /\ snd (batch_in_axes core) = mk_other_axes None None None None)
  /\ exists r,
       vmap_trajectory _jssesolve_single_trajectory trajectory_in_axes
                       out_axes_of_result (core, click, other) = Ok r
       /\ res_tsave r = res_tsave (rt 0)
       /\ res_method r = res_method (rt 0)
       /\ res_gradient r = res_gradient (rt 0)
       /\ res_options r = res_options (rt 0)
       /\ leaves_are_stacks (res_saved r) n (res_saved (rt 0))
                            (fun t => res_saved (rt t))
       /\ leaves_are_stacks (res_infos r) n (res_infos (rt 0))
                            (fun t => res_infos (rt t))
       /\ is_stack (res_keys r) n (res_keys (rt 0))
                   (fun t => res_keys (rt t))
       /\ forall nm rf,
            method other = Method.Event nm rf false ->
            noclick click = false ->
            noclick_min_prob click = zero ->
            _vectorized_clicks_jssesolve (core, key click, other) = Ok r.
Proof.
  intros Hshape Hrt.
  split; [reflexivity|]. split; [now repeat split|].
  eexists. split; [exact (vmap_trajectory_result _ _ _ n ks rt Hshape Hrt)|].
  cbn [res_tsave res_method res_gradient res_options res_saved res_infos
       res_keys].
  do 4 (split; [reflexivity|]).
  split; [apply stack_leaves_are_stacks|].
  split; [apply stack_leaves_are_stacks|].
  split; [apply stack_is_stack|].
  - intros nm rf Hm Hnc Hp.
    unfold _vectorized_clicks_jssesolve. rewrite Hm.
    cbn [Method.getattr Method.lookup_attribute Method.instance_field
         String.eqb Ascii.eqb Bool.eqb]. rewrite bind_Ok. cbn [truthy].
    rewrite <- Hnc, <- Hp.
    replace (mk_click (key click) (noclick click) (noclick_min_prob click))
      with click by now destruct click.
    exact (vmap_trajectory_result _ _ _ n ks rt Hshape Hrt).
Qed.

(** *** Properties of smart sampling *)

Lemma take_from1 (keys : array) (n : nat) (ks : list nat) :
  Jax.shape keys = Datatypes.S n :: ks ->
  exists keys1,
    Jax.getitem_from1 keys = Ok keys1
    /\ Jax.shape keys1 = n :: ks
    /\ forall t, Jax.take 0 t keys1 = Jax.take 0 (Datatypes.S t) keys.
Proof.
  intros Hshape. unfold Jax.getitem_from1. rewrite Hshape.
  eexists. split; [reflexivity|]. split.
  - cbn. now rewrite Nat.sub_0_r.
  - intros t. unfold Jax.take. cbn. rewrite Hshape. reflexivity.
Qed.

Lemma concatenate_results_None (leaf1 leaf2 : array) :
  _concatenate_results None leaf1 leaf2 = Ok leaf1.
Proof. reflexivity. Qed.

Lemma concatenate_prepends (first x0 : array) (n : nat)
  (xt : nat -> array) :
  Jax.shape x0 = Jax.shape first ->
  exists x,
    _concatenate_results (Some 0) first
                         (Jax.stack 0 x0 (map xt (seq 0 n))) = Ok x
    /\ prepends x first n xt.
Proof.
  intros Hshape. unfold _concatenate_results, Jax.concatenate.
  cbn [Jax.shape Jax.expand_dims0 Jax.stack Jax.insert_nth].
  rewrite Hshape.
  destruct (list_eq_dec Nat.eq_dec (Jax.shape first) (Jax.shape first))
    as [_|Hne]; [|now elim Hne].
  eexists. split; [reflexivity|]. split; [|split].
  - cbn. now rewrite length_map, length_seq.
  - intros idx. reflexivity.
  - intros t idx Ht. cbn. now rewrite Nat.sub_0_r, nth_map_seq.
Qed.

Lemma map2_leaves_prepend (n : nat) (lt : nat -> list array)
  (first l0 : list array) (j0 : nat) :
  map (@Jax.shape S) l0 = map (@Jax.shape S) first ->
  exists l,
    map2_leaves (_concatenate_results (Some 0)) first
                (stack_leaves 0 j0 l0 (map lt (seq 0 n))) = Ok l
    /\ List.length l = List.length first
    /\ forall j, j < List.length first ->
         prepends (leaf_at j l) (leaf_at j first) n
                  (fun t => nth (j0 + j) (lt t) (leaf_at j l0)).
Proof.
  revert l0 j0.
  induction first as [|x first IH]; intros [|x0 l0] j0 Hsh;
    try discriminate.
  - exists []. split; [reflexivity|]. split; [reflexivity|].
    intros j Hj. simpl in Hj. lia.
  - injection Hsh as Hx Hrest.
    cbn [stack_leaves map2_leaves]. rewrite map_map.
    destruct (concatenate_prepends x x0 n (fun t => nth j0 (lt t) x0) Hx)
      as (z & -> & Hz).
    destruct (IH l0 (Datatypes.S j0) Hrest) as (zs & -> & Hlen & Hzs).
    rewrite !bind_Ok. exists (z :: zs). split; [reflexivity|].
    split; [simpl; now rewrite Hlen|].
    intros [|j] Hj.
    + unfold leaf_at. cbn [nth]. now rewrite Nat.add_0_r.
    + unfold leaf_at. cbn [nth]. rewrite Nat.add_succ_r.
      apply Hzs. simpl in Hj. lia.
Qed.

(** C2.  With the [Event] method, [smart_sampling=True] and [n + 1] keys,
    where the single-trajectory solve returns [sol click] with leaves of
    the same shapes for every single key, flag and floor: the first key is
    used
    for one no-click trajectory with floor [0.0]; each later key is used
    for one click trajectory whose floor is the square of the final-state
    norm of the no-click result; in the result, every per-trajectory leaf
    (of [_saved], [infos] and [keys]) has the no-click leaf at index 0 of
    its leading axis and the click leaves after it in key order, and the
    other fields ([tsave], [method], [gradient], [options]) are those of
    the no-click result. *)
Theorem smart_sampling_prepends_noclick (core : core_args) (keys : array)
  (other : other_args) (nm : Method.method)
  (rf : option Method.AbstractRootFinder) (n : nat) (ks : list nat)
  (sol : click_args -> JSSESolveResult) :
  method other = Method.Event nm rf true ->
  Jax.shape keys = Datatypes.S n :: ks ->
  (forall click,
     Jax.shape (key click) = ks ->
     _jssesolve_single_trajectory (core, click, other) = Ok (sol click)) ->
  (forall click click',
     Jax.shape (key click) = ks -> Jax.shape (key click') = ks ->
     map (@Jax.shape S) (res_saved (sol click))
     = map (@Jax.shape S) (res_saved (sol click'))
     /\ map (@Jax.shape S) (res_infos (sol click))
        = map (@Jax.shape S) (res_infos (sol click'))
     /\ Jax.shape (res_keys (sol click)) = Jax.shape (res_keys (sol click'))) ->
  exists r,
    _vectorized_clicks_jssesolve (core, keys, other) = Ok r
    /\ res_tsave r
       = res_tsave (sol (mk_click (Jax.take 0 0 keys) true zero))
    /\ res_method r
       = res_method (sol (mk_click (Jax.take 0 0 keys) true zero))
    /\ res_gradient r
       = res_gradient (sol (mk_click (Jax.take 0 0 keys) true zero))
    /\ res_options r
       = res_options (sol (mk_click (Jax.take 0 0 keys) true zero))
    /\ leaves_prepend (res_saved r)
         (res_saved (sol (mk_click (Jax.take 0 0 keys) true zero))) n
         (fun t =>
            res_saved
              (sol (mk_click (Jax.take 0 (Datatypes.S t) keys) false
                      (square
                         (final_state_norm
                            (sol (mk_click (Jax.take 0 0 keys) true
                                           zero)))))))
    /\ leaves_prepend (res_infos r)
         (res_infos (sol (mk_click (Jax.take 0 0 keys) true zero))) n
         (fun t =>
            res_infos
              (sol (mk_click (Jax.take 0 (Datatypes.S t) keys) false
                      (square
                         (final_state_norm
                            (sol (mk_click (Jax.take 0 0 keys) true
                                           zero)))))))
    /\ prepends (res_keys r)
         (res_keys (sol (mk_click (Jax.take 0 0 keys) true zero))) n
         (fun t =>
            res_keys
              (sol (mk_click (Jax.take 0 (Datatypes.S t) keys) false
                      (square
                         (final_state_norm
                            (sol (mk_click (Jax.take 0 0 keys) true
                                           zero))))))).
Proof.
  intros Hm Hshape Hsol Hstatic.
  set (r_nc := sol (mk_click (Jax.take 0 0 keys) true zero)).
  set (p := square (final_state_norm r_nc)).
  destruct (take_from1 keys n ks Hshape) as (keys1 & Hkeys1 & Hsh1 & Htake).
  set (rt := fun t => sol (mk_click (Jax.take 0 t keys1) false p)).
  assert (Hk : forall t, Jax.shape (Jax.take 0 t keys) = ks).
  { intros t. exact (shape_take_head _ _ _ _ Hshape). }
  assert (Hk1 : forall t, Jax.shape (Jax.take 0 t keys1) = ks).
  { intros t. exact (shape_take_head _ _ _ _ Hsh1). }
  unfold _vectorized_clicks_jssesolve. rewrite Hm.
  cbn [Method.getattr Method.lookup_attribute Method.instance_field
       String.eqb Ascii.eqb Bool.eqb]. rewrite bind_Ok. cbn [truthy].
  unfold Jax.getitem0. rewrite Hshape, bind_Ok.
  rewrite Hsol by apply Hk. fold r_nc.
  rewrite bind_Ok, Hkeys1, bind_Ok. fold p.
  rewrite (vmap_trajectory_result core (mk_click keys1 false p) other
             n ks rt Hsh1) by (intros t _; apply Hsol, Hk1).
  rewrite bind_Ok.
  unfold tree_map_concatenate, out_axes_of_result.
  cbn [oa_tsave oa_method oa_gradient oa_options oa_saved oa_infos oa_keys
       res_tsave res_method res_gradient res_options res_saved res_infos
       res_keys keep_static].
  rewrite concatenate_results_None, !bind_Ok.
  destruct (Hstatic (mk_click (Jax.take 0 0 keys1) false p)
                    (mk_click (Jax.take 0 0 keys) true zero)
                    (Hk1 0) (Hk 0))
    as (Hs_saved & Hs_infos & Hs_keys).
  fold (rt 0) in Hs_saved, Hs_infos, Hs_keys.
  fold r_nc in Hs_saved, Hs_infos, Hs_keys.
  destruct (map2_leaves_prepend n (fun t => res_saved (rt t))
              (res_saved r_nc) (res_saved (rt 0)) 0 Hs_saved)
    as (sv & -> & Hsv_len & Hsv).
  destruct (map2_leaves_prepend n (fun t => res_infos (rt t))
              (res_infos r_nc) (res_infos (rt 0)) 0 Hs_infos)
    as (inf & -> & Hinf_len & Hinf).
  destruct (concatenate_prepends (res_keys r_nc) (res_keys (rt 0)) n
              (fun t => res_keys (rt t)) Hs_keys)
    as (kz & -> & Hkz).
  rewrite !bind_Ok. eexists. split; [reflexivity|].
  cbn [res_tsave res_method res_gradient res_options res_saved res_infos
       res_keys].
  do 4 (split; [reflexivity|]).
  assert (Hlen : forall (proj : JSSESolveResult -> list array),
            (forall c c', Jax.shape (key c) = ks -> Jax.shape (key c') = ks ->
                          map (@Jax.shape S) (proj (sol c))
                          = map (@Jax.shape S) (proj (sol c'))) ->
            forall t j, j < List.length (proj r_nc) ->
              nth j (proj (rt t)) (leaf_at j (proj (rt 0)))
              = leaf_at j
                  (proj (sol (mk_click (Jax.take 0 (Datatypes.S t) keys)
                                       false p)))).
  { intros proj Hproj t j Hj. unfold rt at 1. rewrite Htake.
    unfold leaf_at. apply nth_indep.
    pose proof (f_equal (@List.length _)
                  (Hproj (mk_click (Jax.take 0 (Datatypes.S t) keys) false p)
                         (mk_click (Jax.take 0 0 keys) true zero)
                         (Hk _) (Hk _))) as Hl.
    rewrite !length_map in Hl. fold r_nc in Hl. lia. }
  split; [|split].
  - split; [exact Hsv_len|]. intros j Hj.
    destruct (Hsv j Hj) as (H1 & H2 & H3). split; [exact H1|].
    split; [exact H2|]. intros t idx Ht. rewrite (H3 t idx Ht).
    cbn [Nat.add].
    now rewrite (Hlen res_saved
                   (fun c c' Hc Hc' => proj1 (Hstatic c c' Hc Hc')) t j Hj).
  - split; [exact Hinf_len|]. intros j Hj.
    destruct (Hinf j Hj) as (H1 & H2 & H3). split; [exact H1|].
    split; [exact H2|]. intros t idx Ht. rewrite (H3 t idx Ht).
    cbn [Nat.add].
    now rewrite (Hlen res_infos
                   (fun c c' Hc Hc' =>
                      proj1 (proj2 (Hstatic c c' Hc Hc'))) t j Hj).
  - destruct Hkz as (H1 & H2 & H3). split; [exact H1|].
    split; [exact H2|]. intros t idx Ht. rewrite (H3 t idx Ht).
    unfold rt. now rewrite Htake.
Qed.

(** *** Properties of the maps over the batch axes *)

Lemma map_m_exists {A B : Type} (f : A -> M B) (P : B -> Prop)
  (xs : list A) :
  (forall x, In x xs -> exists y, f x = Ok y /\ P y) ->
  exists ys, map_m f xs = Ok ys /\ List.length ys = List.length xs
             /\ Forall P ys.
Proof.
  induction xs as [|x xs IH]; intros Hf.
  - exists []. repeat constructor.
  - destruct (Hf x (or_introl eq_refl)) as (y & Hy & HP).
    destruct IH as (ys & Hys & Hlen & Hall).
    { intros z Hz. apply Hf. now right. }
    exists (y :: ys). simpl. rewrite Hy, bind_Ok, Hys, bind_Ok.
    split; [reflexivity|]. split; [now rewrite Hlen | now constructor].
Qed.

Lemma map_m_app {A B : Type} (f : A -> M B) (l1 l2 : list A) :
  map_m f (l1 ++ l2)%list
  = (ys1 <- map_m f l1 ;; ys2 <- map_m f l2 ;; Ok (ys1 ++ ys2)%list).
Proof.
  induction l1 as [|x l1 IH]; simpl.
  - destruct (map_m f l2); reflexivity.
  - destruct (f x) as [y|e]; simpl; [|reflexivity].
    rewrite IH. destruct (map_m f l1) as [ys1|e]; simpl; [|reflexivity].
    destruct (map_m f l2); reflexivity.
Qed.

Lemma combine_app_eq {A B : Type} (l1 l1' : list A) (l2 l2' : list B) :
  List.length l1 = List.length l2 ->
  combine (l1 ++ l1') (l2 ++ l2')
  = (combine l1 l2 ++ combine l1' l2')%list.
Proof.
  revert l2. induction l1 as [|a l1 IH]; intros [|b l2] Hlen;
    try discriminate; simpl; [reflexivity|].
  f_equal. apply IH. now injection Hlen.
Qed.

Lemma stack_leaves_shapes (k j : nat) (t0 : list array)
  (ts : list (list array)) :
  map (@Jax.shape S) (stack_leaves k j t0 ts)
  = map (fun s => Jax.insert_nth k (List.length ts) s)
        (map (@Jax.shape S) t0).
Proof.
  revert j. induction t0 as [|x0 t0 IH]; intros j; simpl; [reflexivity|].
  now rewrite IH, length_map.
Qed.

Lemma stack_results_leading (pre : list nat) (sh shi : list (list nat))
  (shk : list nat) (r0 : JSSESolveResult) (rs : list JSSESolveResult) :
  has_leading pre sh shi shk r0 ->
  exists r,
    stack_results out_axes_of_result r0 rs = Ok r
    /\ has_leading (List.length rs :: pre) sh shi shk r.
Proof.
  intros (Hs & Hi & Hk). eexists. split; [reflexivity|].
  unfold has_leading.
  cbn [res_saved res_infos res_keys oa_saved oa_infos oa_keys
       out_axes_of_result].
  rewrite !stack_leaves_shapes, Hs, Hi, !map_map, !length_map.
  cbn [Jax.stack Jax.shape]. rewrite Hk, length_map. now cbn.
Qed.

(** *** The entries of a mapped function *)

Lemma map_m_seq_nth {B : Type} (g : nat -> M B) (st n : nat)
  (rs : list B) (d : B) :
  map_m g (seq st n) = Ok rs ->
  List.length rs = n /\ forall i, i < n -> g (st + i) = Ok (nth i rs d).
Proof.
  revert st rs. induction n as [|n IH]; intros st rs; cbn [seq map_m].
  - intros [= <-]. split; [reflexivity | intros i Hi; lia].
  - destruct (g st) as [y|e] eqn:Hg; cbn [bind]; [|discriminate].
    destruct (map_m g (seq (Datatypes.S st) n)) as [ys|e] eqn:Hm;
      cbn [bind]; [|discriminate].
    intros [= <-]. destruct (IH _ _ Hm) as [Hlen Hnth].
    split; [cbn; now rewrite Hlen|].
    intros [|i] Hi.
    + now rewrite Nat.add_0_r.
    + rewrite Nat.add_succ_r. apply Hnth. lia.
Qed.

Lemma list_as_map_nth {B : Type} (l : list B) (d : B) :
  l = map (fun i => nth i l d) (seq 0 (List.length l)).
Proof.
  apply (nth_ext _ _ d d).
  - now rewrite length_map, length_seq.
  - intros i Hi. now rewrite nth_map_seq.
Qed.

Lemma agrees_at_nil (r : JSSESolveResult) : agrees_at [] r r.
Proof. repeat split. Qed.

Lemma agrees_at_app (p q : list nat) (r r1 r2 : JSSESolveResult) :
  agrees_at p r r1 -> agrees_at q r1 r2 -> agrees_at (p ++ q) r r2.
Proof.
  intros (Hs & Hi & Hk) (Hs' & Hi' & Hk').
  split; [|split]; intros; rewrite <- app_assoc.
  - now rewrite Hs, Hs'.
  - now rewrite Hi, Hi'.
  - now rewrite Hk, Hk'.
Qed.

(** Leaf [j] of the stack of the trees [ts], read at [i]. *)
Lemma stack_leaves_at (l0 : list array) (ts : list (list array))
  (i j : nat) (idx : list nat) :
  i < List.length ts ->
  Forall (fun l => List.length l = List.length l0) ts ->
  Jax.at_ (leaf_at j (stack_leaves 0 0 l0 ts)) (i :: idx)
  = Jax.at_ (leaf_at j (nth i ts l0)) idx.
Proof.
  intros Hi Hlen.
  assert (Hli : List.length (nth i ts l0) = List.length l0).
  { rewrite Forall_forall in Hlen. apply Hlen, nth_In, Hi. }
  destruct (Nat.lt_ge_cases j (List.length l0)) as [Hj|Hj].
  - rewrite (list_as_map_nth ts l0) at 1.
    rewrite stack_leaves_nth by exact Hj.
    cbn [Jax.stack Jax.at_ nth Jax.remove_nth Nat.add].
    rewrite nth_map_seq by exact Hi.
    unfold leaf_at. f_equal. apply nth_indep. now rewrite Hli.
  - unfold leaf_at. rewrite !nth_overflow; [reflexivity| |].
    + now rewrite Hli.
    + now rewrite stack_leaves_length.
Qed.

Lemma has_leading_lengths (pre : list nat) (sh shi : list (list nat))
  (shk : list nat) (r : JSSESolveResult) :
  has_leading pre sh shi shk r ->
  List.length (res_saved r) = List.length sh
  /\ List.length (res_infos r) = List.length shi.
Proof.
  intros (Hs & Hi & _).
  apply (f_equal (@List.length _)) in Hs, Hi.
  now rewrite !length_map in Hs, Hi.
Qed.

(** A mapped function returns, under the index [i] of the mapped axis, the
    result of the function on slice [i]. *)
Lemma vmap_agrees {A : Type} (sizes : A -> M (list nat))
  (slice : nat -> A -> A) (f : A -> M JSSESolveResult) (a : A)
  (ns : list nat) (n : nat) (pre : list nat) (sh shi : list (list nat))
  (shk : list nat) (Q : nat -> JSSESolveResult -> Prop) :
  sizes a = Ok ns ->
  axis_size ns = Ok n ->
  (forall i, exists r, f (slice i a) = Ok r
                       /\ has_leading pre sh shi shk r /\ Q i r) ->
  exists r,
    vmap sizes slice f out_axes_of_result a = Ok r
    /\ has_leading (n :: pre) sh shi shk r
    /\ forall i, i < n -> exists ri, agrees_at [i] r ri /\ Q i ri.
Proof.
  intros Hsizes Hn Hf. unfold vmap. rewrite Hsizes, bind_Ok, Hn, bind_Ok.
  destruct (Hf 0) as (r0 & Hr0 & Hl0 & _). rewrite Hr0, bind_Ok.
  destruct (map_m_exists (fun i => f (slice i a)) (fun _ => True) (seq 0 n))
    as (rs & Hrs & Hlen & _).
  { intros i _. destruct (Hf i) as (r & -> & _). now exists r. }
  rewrite Hrs, bind_Ok.
  destruct (map_m_seq_nth _ _ _ _ r0 Hrs) as [Hlen' Hnth].
  destruct (stack_results_leading pre sh shi shk r0 rs Hl0) as (r & Hr & Hl).
  rewrite Hr. exists r. split; [reflexivity|].
  split; [now rewrite Hlen' in Hl|].
  intros i Hi. exists (nth i rs r0).
  destruct (Hf i) as (ri & Hri & Hli & HQ).
  pose proof (Hnth i Hi) as Hnthi. cbn [Nat.add] in Hnthi.
  assert (Heq : nth i rs r0 = ri) by congruence.
  rewrite Heq. split; [|exact HQ].
  injection Hr as <-.
  assert (Hall : forall r', In r' rs ->
            List.length (res_saved r') = List.length sh
            /\ List.length (res_infos r') = List.length shi).
  { intros r' Hin. apply (In_nth _ _ r0) in Hin.
    destruct Hin as (t & Ht & <-).
    destruct (Hf t) as (rt & Hrt & Hlt & _).
    rewrite Hlen' in Ht. pose proof (Hnth t Ht) as Hnt. cbn [Nat.add] in Hnt.
    assert (nth t rs r0 = rt) as -> by congruence.
    exact (has_leading_lengths _ _ _ _ _ Hlt). }
  destruct (has_leading_lengths _ _ _ _ _ Hl0) as [Hs0 Hi0].
  assert (Hi' : i < List.length rs) by now rewrite Hlen'.
  split; [|split];
    cbn [res_saved res_infos res_keys out_axes_of_result oa_saved oa_infos
         oa_keys app].
  - intros j idx. rewrite stack_leaves_at.
    + rewrite <- Heq. f_equal. f_equal.
      rewrite <- (map_nth res_saved rs r0 i). reflexivity.
    + now rewrite length_map.
    + apply Forall_forall. intros l Hl'. apply in_map_iff in Hl'.
      destruct Hl' as (r' & <- & Hin). rewrite Hs0.
      exact (proj1 (Hall r' Hin)).
  - intros j idx. rewrite stack_leaves_at.
    + rewrite <- Heq. f_equal. f_equal.
      rewrite <- (map_nth res_infos rs r0 i). reflexivity.
    + now rewrite length_map.
    + apply Forall_forall. intros l Hl'. apply in_map_iff in Hl'.
      destruct Hl' as (r' & <- & Hin). rewrite Hi0.
      exact (proj2 (Hall r' Hin)).
  - intros idx. cbn [Jax.stack Jax.at_ nth Jax.remove_nth].
    rewrite <- Heq. f_equal.
    rewrite <- (map_nth res_keys rs r0 i). reflexivity.
Qed.

Lemma vmap_batched_agrees (F : batched_args -> M JSSESolveResult)
  (iac : core_axes) (iak : option nat) (iao : other_axes)
  (c : core_args) (k : array) (o : other_args)
  (sc sk so : list nat) (n : nat) (pre : list nat)
  (sh shi : list (list nat)) (shk : list nat)
  (Q : nat -> JSSESolveResult -> Prop) :
  sizes_core iac c = Ok sc ->
  size_along iak k = Ok sk ->
  sizes_other iao o = Ok so ->
  axis_size (sc ++ sk ++ so)%list = Ok n ->
  (forall i, exists r,
     F (slice_core iac i c, slice_along iak i k, slice_other iao i o) = Ok r
     /\ has_leading pre sh shi shk r /\ Q i r) ->
  exists r,
    vmap_batched F (iac, iak, iao) out_axes_of_result (c, k, o) = Ok r
    /\ has_leading (n :: pre) sh shi shk r
    /\ forall i, i < n -> exists ri, agrees_at [i] r ri /\ Q i ri.
Proof.
  intros Hc Hk Ho Hn HF. unfold vmap_batched.
  apply (vmap_agrees _ _ _ _ (sc ++ sk ++ so)%list); [|exact Hn|exact HF].
  now rewrite Hc, bind_Ok, Hk, bind_Ok, Ho, bind_Ok.
Qed.

Lemma axes_each_ok (axs : list (option nat)) (xs : list array) :
  List.length axs = List.length xs ->
  axes_of_list (Each axs) xs = Ok axs.
Proof.
  intros Hlen. unfold axes_of_list. now rewrite Hlen, Nat.eqb_refl.
Qed.

Lemma sizes_core_each (aH ap at' : option nat) (axs : list (option nat))
  (c : core_args) (sH sp st : list nat) (sLs : list (list nat)) :
  List.length axs = List.length (Ls c) ->
  size_along aH (H c) = Ok sH ->
  map_m (fun p => size_along (fst p) (snd p)) (combine axs (Ls c)) = Ok sLs ->
  size_along ap (psi0 c) = Ok sp ->
  size_along at' (tsave c) = Ok st ->
  sizes_core (mk_core_axes aH (Each axs) ap at') c
  = Ok (sH ++ List.concat sLs ++ sp ++ st)%list.
Proof.
  intros Hlen HH HL Hp Ht. unfold sizes_core.
  cbn [ax_H ax_Ls ax_psi0 ax_tsave].
  now rewrite HH, bind_Ok, axes_each_ok, bind_Ok, HL, bind_Ok, Hp, bind_Ok,
    Ht, bind_Ok.
Qed.

Lemma slice_core_each (aH ap at' : option nat) (axs : list (option nat))
  (c : core_args) (i : nat) :
  List.length axs = List.length (Ls c) ->
  slice_core (mk_core_axes aH (Each axs) ap at') i c
  = mk_core (slice_along aH i (H c))
            (map (fun p => slice_along (fst p) i (snd p))
                 (combine axs (Ls c)))
            (slice_along ap i (psi0 c))
            (slice_along at' i (tsave c)).
Proof.
  intros Hlen. unfold slice_core. cbn [ax_H ax_Ls ax_psi0 ax_tsave].
  now rewrite axes_each_ok.
Qed.

Lemma all_none_map_seq (g : nat -> option nat) (st k : nat) :
  (forall i, g i = None) -> Forall (fun a => a = None) (map g (seq st k)).
Proof.
  intros Hg. apply Forall_forall. intros a Ha.
  apply in_map_iff in Ha. destruct Ha as (i & <- & _). apply Hg.
Qed.

(** The sizes and the slices of the jump operators when exactly the one at
    position [length xs1] is mapped. *)
Lemma one_hot_axes (n1 n2 : nat) :
  map (fun i => if n1 =? i then Some 0 else None)
      (seq 0 (n1 + Datatypes.S n2))
  = (repeat None n1 ++ Some 0 :: repeat None n2)%list.
Proof.
  rewrite seq_app, map_app. cbn [seq map Nat.add]. rewrite Nat.eqb_refl.
  f_equal; [|f_equal].
  - rewrite <- (length_seq n1 0) at 2. rewrite <- map_const.
    apply map_ext_in. intros i Hi. apply in_seq in Hi.
    destruct (Nat.eqb_spec n1 i); [lia|reflexivity].
  - rewrite <- (length_seq n2 (Datatypes.S n1)) at 2. rewrite <- map_const.
    apply map_ext_in. intros i Hi. apply in_seq in Hi.
    destruct (Nat.eqb_spec n1 i); [lia|reflexivity].
Qed.

Lemma sizes_repeat_none (n : nat) (xs : list array) :
  map_m (fun p => size_along (fst p) (snd p)) (combine (repeat None n) xs)
  = Ok (map (fun _ => []) (combine (repeat (@None nat) n) xs)).
Proof.
  apply sizes_all_none, Forall_forall. intros a Ha.
  now apply repeat_spec in Ha.
Qed.

Lemma slices_repeat_none (xs : list array) (i : nat) :
  map (fun p => slice_along (fst p) i (snd p))
      (combine (repeat None (List.length xs)) xs) = xs.
Proof.
  apply slices_all_none; [|apply repeat_length].
  apply Forall_forall. intros a Ha. now apply repeat_spec in Ha.
Qed.

Lemma sizes_one_hot (xs1 xs2 : list array) (x : array) (d : nat)
  (s : list nat) :
  Jax.shape x = d :: s ->
  exists sLs,
    map_m (fun p => size_along (fst p) (snd p))
          (combine (repeat None (List.length xs1)
                    ++ Some 0 :: repeat None (List.length xs2))%list
                   (xs1 ++ x :: xs2)%list)
    = Ok sLs
    /\ List.concat sLs = [d].
Proof.
  intros Hx.
  rewrite combine_app_eq by apply repeat_length.
  rewrite map_m_app, sizes_repeat_none, bind_Ok.
  cbn [combine map_m fst snd]. rewrite (size_along_head x d s Hx), bind_Ok.
  rewrite sizes_repeat_none, !bind_Ok.
  eexists. split; [reflexivity|].
  rewrite concat_app, concat_nils. cbn [List.concat app].
  now rewrite concat_nils.
Qed.

Lemma slices_one_hot (xs1 xs2 : list array) (x : array) (i : nat) :
  map (fun p => slice_along (fst p) i (snd p))
      (combine (repeat None (List.length xs1)
                ++ Some 0 :: repeat None (List.length xs2))%list
               (xs1 ++ x :: xs2)%list)
  = (xs1 ++ Jax.take 0 i x :: xs2)%list.
Proof.
  rewrite combine_app_eq by apply repeat_length.
  rewrite map_app, slices_repeat_none.
  cbn [combine map fst snd slice_along]. now rewrite slices_repeat_none.
Qed.

(** The sizes and the slices of the jump operators when all are mapped. *)
Lemma sizes_all_mapped (xs : list array) (d : nat) (cs : list (list nat)) :
  map (@Jax.shape S) xs = map (cons d) cs ->
  exists sLs,
    map_m (fun p => size_along (fst p) (snd p))
          (combine (map (fun _ => Some 0) xs) xs) = Ok sLs
    /\ List.concat sLs = repeat d (List.length xs).
Proof.
  revert cs. induction xs as [|x xs IH]; intros [|c cs] Hsh;
    try discriminate.
  - exists []. now split.
  - injection Hsh as Hx Hrest.
    destruct (IH cs Hrest) as (sLs & HsLs & Hcat).
    exists ([d] :: sLs). cbn [map combine map_m fst snd].
    rewrite (size_along_head x d c Hx), bind_Ok, HsLs, bind_Ok.
    split; [reflexivity|]. cbn. now rewrite Hcat.
Qed.

Lemma slices_all_mapped (xs : list array) (d i : nat)
  (cs : list (list nat)) :
  map (@Jax.shape S) xs = map (cons d) cs ->
  map (@Jax.shape S)
      (map (fun p => slice_along (fst p) i (snd p))
           (combine (map (fun _ => Some 0) xs) xs))
  = cs.
Proof.
  revert cs. induction xs as [|x xs IH]; intros [|c cs] Hsh;
    try discriminate; [reflexivity|].
  injection Hsh as Hx Hrest.
  cbn [map combine fst snd slice_along].
  now rewrite (shape_take_head x d i c Hx), (IH cs Hrest).
Qed.

Lemma concat_all_nil {A : Type} (l : list (list A)) :
  Forall (fun c => c = []) l -> List.concat l = [].
Proof.
  induction 1 as [|c l Hc _ IH]; [reflexivity|].
  subst c. exact IH.
Qed.

Lemma all_nil_map {A B : Type} (l : list B) :
  Forall (fun c : list A => c = []) (map (fun _ => []) l).
Proof. induction l; constructor; auto. Qed.

Lemma all_nil_repeat {A : Type} (n : nat) :
  Forall (fun c : list A => c = []) (repeat [] n).
Proof. induction n; constructor; auto. Qed.

Lemma in_bounds_all_nil (pLs cLs : list (list nat)) :
  Forall2 in_bounds pLs cLs ->
  Forall (fun c => c = []) cLs -> Forall (fun p => p = []) pLs.
Proof.
  induction 1 as [|p c pLs cLs Hp _ IH]; intros Hnil; [constructor|].
  inversion Hnil as [|? ? Hc Hrest]; subst.
  unfold in_bounds in Hp. inversion Hp; subst.
  constructor; [reflexivity | now apply IH].
Qed.

Lemma getitem_all_nil (pLs : list (list nat)) (xs : list array) :
  Forall (fun p => p = []) pLs ->
  List.length pLs = List.length xs ->
  map (fun pL => getitem (fst pL) (snd pL)) (combine pLs xs) = xs.
Proof.
  intros Hnil. revert xs.
  induction Hnil as [|p pLs Hp _ IH]; intros [|x xs] Hlen;
    try discriminate; [reflexivity|].
  subst p. cbn [combine map fst snd getitem fold_left]. f_equal.
  apply IH. now injection Hlen.
Qed.

Lemma element_nil (pLs : list (list nat)) (a : batched_args) :
  Forall (fun p => p = []) pLs ->
  List.length pLs = List.length (Ls (fst (fst a))) ->
  element [] pLs [] a = a.
Proof.
  destruct a as [[[h ls p ts] k] o]. cbn [fst snd Ls]. intros Hnil Hlen.
  unfold element. cbn [H Ls psi0 tsave getitem fold_left].
  now rewrite getitem_all_nil.
Qed.

Lemma element_one_hot (p1 p2 : list (list nat)) (pL pp : list nat) (i : nat)
  (h ps ts : array) (xs1 xs2 : list array) (x k : array) (o : other_args) :
  List.length p1 = List.length xs1 ->
  element [] (p1 ++ (i :: pL) :: p2)%list pp
          (mk_core h (xs1 ++ x :: xs2)%list ps ts, k, o)
  = element [] (p1 ++ pL :: p2)%list pp
            (mk_core h (xs1 ++ Jax.take 0 i x :: xs2)%list ps ts, k, o).
Proof.
  intros Hlen. unfold element. cbn [H Ls psi0 tsave].
  rewrite !combine_app_eq by exact Hlen. rewrite !map_app. reflexivity.
Qed.

Lemma getitem_all_mapped (q : list nat) (i : nat) (xs : list array) :
  map (fun pL => getitem (fst pL) (snd pL))
      (combine (repeat q (List.length xs))
               (map (fun p => slice_along (fst p) i (snd p))
                    (combine (map (fun _ => Some 0) xs) xs)))
  = map (fun pL => getitem (fst pL) (snd pL))
        (combine (repeat (i :: q) (List.length xs)) xs).
Proof.
  induction xs as [|x xs IH]; [reflexivity|].
  cbn [List.length repeat map combine fst snd slice_along].
  now rewrite IH.
Qed.

Section Batching.

(** The shapes of [H], of every jump operator and of the initial state
    below their batch axes; the arguments that no batch map touches; the
    shapes of the per-trajectory leaves of a single trajectory; the
    function [G] that the batch maps are applied to, and the leading axes
    [pre0] of its results. *)
Variables tH tL tp : list nat.
Variable tsave0 keys0 : array.
Variable other0 : other_args.
Variables sh shi : list (list nat).
Variable shk : list nat.
Variable G : batched_args -> M JSSESolveResult.
Variable pre0 : list nat.

(** The arguments [a] have the batch axes [cH] on [H], [cLs] on the jump
    operators and [cp] on the initial state. *)
Definition batched_like (cH : list nat) (cLs : list (list nat))
  (cp : list nat) (a : batched_args) : Prop :=
  Jax.shape (H (fst (fst a))) = (cH ++ tH)%list
  /\ map (@Jax.shape S) (Ls (fst (fst a)))
     = map (fun b => b ++ tL)%list cLs
  /\ Jax.shape (psi0 (fst (fst a))) = (cp ++ tp)%list
  /\ tsave (fst (fst a)) = tsave0
  /\ snd (fst a) = keys0
  /\ snd a = other0.

(** Under every index [pH] into the batch axes of [H], [pLs] into those of
    the jump operators and [pp] into those of the initial state, [r] holds
    the result of [G] on that batch element. *)
Definition entries_of (r : JSSESolveResult) (a : batched_args)
  (cH : list nat) (cLs : list (list nat)) (cp : list nat) : Prop :=
  forall pH pLs pp,
    in_bounds pH cH -> Forall2 in_bounds pLs cLs -> in_bounds pp cp ->
    exists r',
      G (element pH pLs pp a) = Ok r'
      /\ has_leading pre0 sh shi shk r'
      /\ agrees_at (pH ++ List.concat pLs ++ pp)%list r r'.

(** [F] returns, on arguments with these batch axes, a result whose
    per-trajectory leaves have these axes before those of [G], and whose
    entries are the results of [G] on the batch elements. *)
Definition maps_batch (F : batched_args -> M JSSESolveResult)
  (cH : list nat) (cLs : list (list nat)) (cp : list nat) : Prop :=
  forall a, batched_like cH cLs cp a ->
            exists r, F a = Ok r
                      /\ has_leading (cH ++ List.concat cLs ++ cp ++ pre0)%list
                                     sh shi shk r
                      /\ entries_of r a cH cLs cp.

(** The same when [H], the [k] jump operators and the initial state share
    the batch axes [b]: one index [q] selects the batch element. *)
Definition shared_entries_of (r : JSSESolveResult) (a : batched_args)
  (b : list nat) (k : nat) : Prop :=
  forall q,
    in_bounds q b ->
    exists r',
      G (element q (repeat q k) q a) = Ok r'
      /\ has_leading pre0 sh shi shk r'
      /\ agrees_at q r r'.

Definition maps_shared (F : batched_args -> M JSSESolveResult)
  (b : list nat) (k : nat) : Prop :=
  forall a, batched_like b (repeat b k) b a ->
            exists r, F a = Ok r
                      /\ has_leading (b ++ pre0)%list sh shi shk r
                      /\ shared_entries_of r a b k.

Lemma batched_like_length (cH : list nat) (cLs : list (list nat))
  (cp : list nat) (a : batched_args) :
  batched_like cH cLs cp a ->
  List.length (Ls (fst (fst a))) = List.length cLs.
Proof.
  intros (_ & HL & _). apply (f_equal (@List.length _)) in HL.
  now rewrite !length_map in HL.
Qed.

Lemma maps_batch_base (cLs : list (list nat)) :
  Forall (fun c => c = []) cLs ->
  (forall a, batched_like [] cLs [] a ->
             exists r, G a = Ok r /\ has_leading pre0 sh shi shk r) ->
  maps_batch G [] cLs [].
Proof.
  intros Hnil HG a Ha. destruct (HG a Ha) as (r & Hr & Hl).
  exists r. split; [exact Hr|]. split.
  - now rewrite (concat_all_nil _ Hnil).
  - intros pH pLs pp HpH HpLs Hpp.
    unfold in_bounds in HpH, Hpp. inversion HpH; inversion Hpp; subst.
    pose proof (in_bounds_all_nil _ _ HpLs Hnil) as Hnil'.
    rewrite element_nil; [|exact Hnil'|].
    + exists r. split; [exact Hr|]. split; [exact Hl|].
      rewrite (concat_all_nil _ Hnil'). apply agrees_at_nil.
    + rewrite (batched_like_length _ _ _ _ Ha).
      exact (Forall2_length HpLs).
Qed.

Lemma maps_shared_base (k : nat) :
  (forall a, batched_like [] (repeat [] k) [] a ->
             exists r, G a = Ok r /\ has_leading pre0 sh shi shk r) ->
  maps_shared G [] k.
Proof.
  intros HG a Ha. destruct (HG a Ha) as (r & Hr & Hl).
  exists r. split; [exact Hr|]. split; [exact Hl|].
  intros q Hq. unfold in_bounds in Hq. inversion Hq; subst.
  rewrite element_nil.
  - exists r. split; [exact Hr|]. split; [exact Hl|]. apply agrees_at_nil.
  - apply all_nil_repeat.
  - rewrite (batched_like_length _ _ _ _ Ha). reflexivity.
Qed.

Lemma vmap_H_step (F : batched_args -> M JSSESolveResult)
  (cH : list nat) (cLs : list (list nat)) (cp : list nat) (d : nat) :
  maps_batch F cH cLs cp ->
  maps_batch
    (fun a => vmap_batched F (only (List.length cLs) LH (Some 0))
                           out_axes_of_result a)
    (d :: cH) cLs cp.
Proof.
  intros HF [[c k] o] Ha.
  pose proof (batched_like_length _ _ _ _ Ha) as Hlen.
  destruct Ha as (HH & HL & Hp & Ht & Hk & Ho). cbn [fst snd] in *.
  unfold only. cbn [leaf_eqb].
  assert (Hax : List.length
                  (map (fun _ : nat => @None nat) (seq 0 (List.length cLs)))
                = List.length (Ls c))
    by now rewrite length_map, length_seq.
  pose (Q := fun (i : nat) (ri : JSSESolveResult) =>
               entries_of ri
                 (mk_core (Jax.take 0 i (H c)) (Ls c) (psi0 c) (tsave c), k, o)
                 cH cLs cp).
  cbn beta.
  match goal with
  | |- exists r, ?lhs = Ok r /\ _ =>
      assert (Hv : exists r,
                lhs = Ok r
                /\ has_leading (d :: (cH ++ List.concat cLs ++ cp ++ pre0)%list) sh shi shk r
                /\ forall i, i < d ->
                     exists ri, agrees_at [i] r ri /\ Q i ri);
        [eapply (vmap_batched_agrees F) with (Q := Q)
        |destruct Hv as (r & Hr & Hlead & Hent)]
  end.
  - apply sizes_core_each; [exact Hax| | |reflexivity|reflexivity].
    + exact (size_along_head _ _ _ HH).
    + apply sizes_all_none, all_none_map_seq. reflexivity.
  - reflexivity.
  - apply sizes_other_unmapped.
  - rewrite concat_nils. reflexivity.
  - intros i. rewrite slice_core_each by exact Hax.
    rewrite slice_other_unmapped.
    rewrite slices_all_none
      by (try exact Hax; apply all_none_map_seq; reflexivity).
    cbn [slice_along]. apply HF.
    repeat split; cbn [fst snd H Ls psi0 tsave]; try assumption.
    exact (shape_take_head _ _ _ _ HH).
  - exists r. split; [exact Hr|]. split; [exact Hlead|].
    intros pH pLs pp HpH HpLs Hpp.
    unfold in_bounds in HpH.
    inversion HpH as [|i d' pH' cH' Hi HpH']; subst.
    destruct (Hent i Hi) as (ri & Hagree & HQ).
    destruct (HQ pH' pLs pp HpH' HpLs Hpp) as (r' & HG & Hl' & Hag').
    exists r'. split; [exact HG|]. split; [exact Hl'|].
    exact (agrees_at_app [i] _ _ _ _ Hagree Hag').
Qed.

Lemma vmap_psi0_step (F : batched_args -> M JSSESolveResult)
  (cLs : list (list nat)) (cp : list nat) (d : nat) :
  Forall (fun c => c = []) cLs ->
  maps_batch F [] cLs cp ->
  maps_batch
    (fun a => vmap_batched F (only (List.length cLs) Lpsi0 (Some 0))
                           out_axes_of_result a)
    [] cLs (d :: cp).
Proof.
  intros Hnil HF [[c k] o] Ha.
  pose proof (batched_like_length _ _ _ _ Ha) as Hlen.
  destruct Ha as (HH & HL & Hp & Ht & Hk & Ho). cbn [fst snd] in *.
  unfold only. cbn [leaf_eqb].
  assert (Hax : List.length
                  (map (fun _ : nat => @None nat) (seq 0 (List.length cLs)))
                = List.length (Ls c))
    by now rewrite length_map, length_seq.
  pose (Q := fun (i : nat) (ri : JSSESolveResult) =>
               entries_of ri
                 (mk_core (H c) (Ls c) (Jax.take 0 i (psi0 c)) (tsave c), k, o)
                 [] cLs cp).
  cbn beta.
  match goal with
  | |- exists r, ?lhs = Ok r /\ _ =>
      assert (Hv : exists r,
                lhs = Ok r
                /\ has_leading (d :: ([] ++ List.concat cLs ++ cp ++ pre0)%list) sh shi shk r
                /\ forall i, i < d ->
                     exists ri, agrees_at [i] r ri /\ Q i ri);
        [eapply (vmap_batched_agrees F) with (Q := Q)
        |destruct Hv as (r & Hr & Hlead & Hent)]
  end.
  - apply sizes_core_each; [exact Hax|reflexivity| | |reflexivity].
    + apply sizes_all_none, all_none_map_seq. reflexivity.
    + exact (size_along_head _ _ _ Hp).
  - reflexivity.
  - apply sizes_other_unmapped.
  - rewrite concat_nils. reflexivity.
  - intros i. rewrite slice_core_each by exact Hax.
    rewrite slice_other_unmapped.
    rewrite slices_all_none
      by (try exact Hax; apply all_none_map_seq; reflexivity).
    cbn [slice_along]. apply HF.
    repeat split; cbn [fst snd H Ls psi0 tsave]; try assumption.
    exact (shape_take_head _ _ _ _ Hp).
  - exists r. split; [exact Hr|]. split.
    { rewrite (concat_all_nil _ Hnil) in *. exact Hlead. }
    intros pH pLs pp HpH HpLs Hpp.
    unfold in_bounds in HpH, Hpp.
    inversion HpH; subst.
    inversion Hpp as [|i d' pp' cp' Hi Hpp']; subst.
    destruct (Hent i Hi) as (ri & Hagree & HQ).
    destruct (HQ [] pLs pp' (Forall2_nil _) HpLs Hpp')
      as (r' & HG & Hl' & Hag').
    exists r'. split; [exact HG|]. split; [exact Hl'|].
    rewrite (concat_all_nil _ (in_bounds_all_nil _ _ HpLs Hnil)) in *.
    exact (agrees_at_app [i] _ _ _ _ Hagree Hag').
Qed.

Lemma vmap_L_step (F : batched_args -> M JSSESolveResult)
  (l1 l2 : list (list nat)) (cL cp : list nat) (d : nat) :
  Forall (fun c => c = []) l1 ->
  maps_batch F [] (l1 ++ cL :: l2)%list cp ->
  maps_batch
    (fun a => vmap_batched F
                (only (List.length (l1 ++ cL :: l2)%list)
                      (LL (List.length l1)) (Some 0))
                out_axes_of_result a)
    [] (l1 ++ (d :: cL) :: l2)%list cp.
Proof.
  intros Hnil HF [[[h ls ps ts] k] o] Ha.
  destruct Ha as (HH & HL & Hp & Ht & Hk & Ho).
  cbn [fst snd H Ls psi0 tsave] in *.
  rewrite map_app in HL. cbn [map] in HL.
  apply map_eq_app in HL. destruct HL as (xs1 & xs' & HLs & Hxs1 & Hxs').
  apply map_eq_cons in Hxs'. destruct Hxs' as (x & xs2 & -> & Hx & Hxs2).
  subst ls.
  assert (Hn1 : List.length xs1 = List.length l1).
  { apply (f_equal (@List.length _)) in Hxs1. now rewrite !length_map in Hxs1. }
  assert (Hn2 : List.length xs2 = List.length l2).
  { apply (f_equal (@List.length _)) in Hxs2. now rewrite !length_map in Hxs2. }
  unfold only. cbn [leaf_eqb].
  rewrite length_app. cbn [List.length].
  rewrite one_hot_axes, <- Hn1, <- Hn2.
  assert (Hax : List.length
                  (repeat (@None nat) (List.length xs1)
                   ++ Some 0 :: repeat None (List.length xs2))%list
                = List.length (xs1 ++ x :: xs2)%list).
  { rewrite !length_app. cbn [List.length]. now rewrite !repeat_length. }
  destruct (sizes_one_hot xs1 xs2 x d (cL ++ tL)%list Hx)
    as (sLs & HsLs & Hcat).
  pose (Q := fun (i : nat) (ri : JSSESolveResult) =>
               entries_of ri
                 (mk_core h (xs1 ++ Jax.take 0 i x :: xs2)%list ps ts, k, o)
                 [] (l1 ++ cL :: l2)%list cp).
  cbn beta.
  match goal with
  | |- exists r, ?lhs = Ok r /\ _ =>
      assert (Hv : exists r,
                lhs = Ok r
                /\ has_leading (d :: ([] ++ List.concat (l1 ++ cL :: l2) ++ cp ++ pre0)%list) sh shi shk r
                /\ forall i, i < d ->
                     exists ri, agrees_at [i] r ri /\ Q i ri);
        [eapply (vmap_batched_agrees F) with (Q := Q)
        |destruct Hv as (r & Hr & Hlead & Hent)]
  end.
  - apply sizes_core_each;
      [exact Hax|reflexivity|exact HsLs|reflexivity|reflexivity].
  - reflexivity.
  - apply sizes_other_unmapped.
  - rewrite Hcat. reflexivity.
  - intros i. rewrite slice_core_each by exact Hax.
    rewrite slice_other_unmapped. cbn [Ls H psi0 tsave].
    rewrite slices_one_hot. cbn [slice_along]. apply HF.
    repeat split; cbn [fst snd H Ls psi0 tsave]; try assumption.
    rewrite !map_app. cbn [map].
    now rewrite Hxs1, Hxs2, (shape_take_head x d i _ Hx).
  - exists r. split; [exact Hr|]. split.
    { rewrite !concat_app, (concat_all_nil _ Hnil) in *.
      cbn [List.concat app] in *. exact Hlead. }
    intros pH pLs pp HpH HpLs Hpp.
    unfold in_bounds in HpH. inversion HpH; subst.
    apply Forall2_app_inv_r in HpLs.
    destruct HpLs as (p1 & p' & Hp1 & Hp' & ->).
    inversion Hp' as [|pL' cL' p2 l2' HpL Hp2]; subst.
    unfold in_bounds in HpL.
    inversion HpL as [|i d' pL cL'' Hi HpL']; subst.
    destruct (Hent i Hi) as (ri & Hagree & HQ).
    destruct (HQ [] (p1 ++ pL :: p2)%list pp (Forall2_nil _))
      as (r' & HG & Hl' & Hag').
    { apply Forall2_app; [exact Hp1|]. constructor; [exact HpL'|exact Hp2]. }
    { exact Hpp. }
    exists r'.
    rewrite element_one_hot by (rewrite (Forall2_length Hp1); lia).
    split; [exact HG|]. split; [exact Hl'|].
    rewrite !concat_app, (concat_all_nil _ (in_bounds_all_nil _ _ Hp1 Hnil))
      in *.
    cbn [List.concat app] in *.
    exact (agrees_at_app [i] _ _ _ _ Hagree Hag').
Qed.

Lemma batch_in_axes_length (c c' : core_args) :
  List.length (Ls c) = List.length (Ls c') ->
  batch_in_axes c = batch_in_axes c'.
Proof.
  intros Hlen. unfold batch_in_axes, in_axes_of.
  now rewrite !map_const, Hlen.
Qed.

(** One map over [H], every jump operator and the initial state at
    once. *)
Lemma vmap_all_step (F : batched_args -> M JSSESolveResult)
  (b : list nat) (k d : nat) (c0 : core_args) :
  List.length (Ls c0) = k ->
  maps_shared F b k ->
  maps_shared
    (fun a => vmap_batched F (batch_in_axes c0) out_axes_of_result a)
    (d :: b) k.
Proof.
  intros Hc0 HF [[c kk] o] Ha.
  pose proof (batched_like_length _ _ _ _ Ha) as Hlen.
  rewrite repeat_length in Hlen.
  destruct Ha as (HH & HL & Hp & Ht & Hk & Ho). cbn [fst snd] in *.
  rewrite (batch_in_axes_length c0 c) by congruence.
  unfold batch_in_axes, in_axes_of.
  assert (HL' : map (@Jax.shape S) (Ls c)
                = map (cons d) (repeat (b ++ tL)%list k)).
  { rewrite HL, !map_repeat. reflexivity. }
  destruct (sizes_all_mapped (Ls c) d _ HL') as (sLs & HsLs & Hcat).
  assert (Hax : List.length (map (fun _ : array => Some 0) (Ls c))
                = List.length (Ls c)) by apply length_map.
  pose (Q := fun (i : nat) (ri : JSSESolveResult) =>
               shared_entries_of ri
                 (mk_core (Jax.take 0 i (H c))
                          (map (fun p => slice_along (fst p) i (snd p))
                               (combine (map (fun _ => Some 0) (Ls c))
                                        (Ls c)))
                          (Jax.take 0 i (psi0 c)) (tsave c), kk, o)
                 b k).
  cbn beta.
  match goal with
  | |- exists r, ?lhs = Ok r /\ _ =>
      assert (Hv : exists r,
                lhs = Ok r
                /\ has_leading (d :: (b ++ pre0)%list) sh shi shk r
                /\ forall i, i < d ->
                     exists ri, agrees_at [i] r ri /\ Q i ri);
        [eapply (vmap_batched_agrees F) with (Q := Q)
        |destruct Hv as (r & Hr & Hlead & Hent)]
  end.
  - apply sizes_core_each; [exact Hax| |exact HsLs| |reflexivity].
    + exact (size_along_head _ _ _ HH).
    + exact (size_along_head _ _ _ Hp).
  - reflexivity.
  - apply sizes_other_unmapped.
  - rewrite Hcat. cbn [app axis_size]. rewrite app_nil_r.
    replace (forallb (Nat.eqb d) (repeat d (List.length (Ls c)) ++ [d])%list)
      with true; [reflexivity|].
    symmetry. apply forallb_forall. intros y Hy.
    apply in_app_or in Hy. destruct Hy as [Hy|[<-|[]]].
    + apply repeat_spec in Hy. subst y. apply Nat.eqb_refl.
    + apply Nat.eqb_refl.
  - intros i. rewrite slice_core_each by exact Hax.
    rewrite slice_other_unmapped. cbn [slice_along]. apply HF.
    repeat split; cbn [fst snd H Ls psi0 tsave]; try assumption.
    + exact (shape_take_head _ _ _ _ HH).
    + rewrite (slices_all_mapped (Ls c) d i _ HL'). now rewrite map_repeat.
    + exact (shape_take_head _ _ _ _ Hp).
  - exists r. split; [exact Hr|]. split; [exact Hlead|].
    intros q Hq. unfold in_bounds in Hq.
    inversion Hq as [|i d' q' b' Hi Hq']; subst.
    destruct (Hent i Hi) as (ri & Hagree & HQ).
    destruct (HQ q' Hq') as (r' & HG & Hl' & Hag').
    exists r'. split; [|split; [exact Hl'|]].
    + rewrite <- HG. unfold element. cbn [H Ls psi0 tsave].
      rewrite <- Hlen, getitem_all_mapped. reflexivity.
    + exact (agrees_at_app [i] _ _ _ _ Hagree Hag').
Qed.

(** Nested maps over one argument peel its batch axes, outermost
    first. *)
Lemma iterate_H (F : batched_args -> M JSSESolveResult)
  (cH : list nat) (cLs : list (list nat)) (cp b : list nat) :
  maps_batch F cH cLs cp ->
  maps_batch
    (iterate (List.length b)
       (fun h => vmap_batched h (only (List.length cLs) LH (Some 0))
                              out_axes_of_result) F)
    (b ++ cH)%list cLs cp.
Proof.
  intros HF. induction b as [|d b IH]; [exact HF|].
  exact (vmap_H_step _ _ _ _ d IH).
Qed.

Lemma iterate_psi0 (F : batched_args -> M JSSESolveResult)
  (cLs : list (list nat)) (cp b : list nat) :
  Forall (fun c => c = []) cLs ->
  maps_batch F [] cLs cp ->
  maps_batch
    (iterate (List.length b)
       (fun h => vmap_batched h (only (List.length cLs) Lpsi0 (Some 0))
                              out_axes_of_result) F)
    [] cLs (b ++ cp)%list.
Proof.
  intros Hnil HF. induction b as [|d b IH]; [exact HF|].
  exact (vmap_psi0_step _ _ _ d Hnil IH).
Qed.

Lemma iterate_L (F : batched_args -> M JSSESolveResult)
  (l1 l2 : list (list nat)) (cL cp b : list nat) (k : nat) :
  Forall (fun c => c = []) l1 ->
  k = List.length l1 + Datatypes.S (List.length l2) ->
  maps_batch F [] (l1 ++ cL :: l2)%list cp ->
  maps_batch
    (iterate (List.length b)
       (fun h => vmap_batched h (only k (LL (List.length l1)) (Some 0))
                              out_axes_of_result) F)
    [] (l1 ++ (b ++ cL) :: l2)%list cp.
Proof.
  intros Hnil Hk HF. induction b as [|d b IH]; [exact HF|].
  intros a Ha.
  pose proof (vmap_L_step _ l1 l2 (b ++ cL)%list cp d Hnil IH a Ha) as Hs.
  rewrite length_app in Hs. cbn [List.length] in Hs. subst k. exact Hs.
Qed.

Lemma iterate_all (F : batched_args -> M JSSESolveResult)
  (c b : list nat) (k : nat) (c0 : core_args) :
  List.length (Ls c0) = k ->
  maps_shared F c k ->
  maps_shared
    (multi_vmap F (batch_in_axes c0) out_axes_of_result (List.length b))
    (b ++ c)%list k.
Proof.
  intros Hk HF. unfold multi_vmap.
  induction b as [|d b IH]; [exact HF|].
  exact (vmap_all_step _ _ k d c0 Hk IH).
Qed.

(** The maps over the jump operators [n1], [n1 + 1], ...: the operators
    before [n1] have no batch axis left, and [l2] holds the batch axes of
    the others. *)
Lemma fold_Ls (in_axes : core_axes * option nat * other_axes)
  (nvmap : nvmap_tree) (k : nat) (cp : list nat) (l2 : list (list nat)) :
  forall (n1 : nat) (F : batched_args -> M JSSESolveResult),
    k = n1 + List.length l2 ->
    (forall j, j < List.length l2 ->
       axis_at in_axes (LL (n1 + j)) = Some 0
       /\ count_at nvmap (LL (n1 + j)) = List.length (nth j l2 [])) ->
    maps_batch F [] (repeat [] n1 ++ map (fun _ => []) l2)%list cp ->
    maps_batch
      (fold_right
         (fun l g =>
            match axis_at in_axes l with
            | None => g
            | Some ax =>
                iterate (count_at nvmap l)
                  (fun h => vmap_batched h (only k l (Some ax))
                                         out_axes_of_result) g
            end)
         F (map LL (seq n1 (List.length l2))))
      [] (repeat [] n1 ++ l2)%list cp.
Proof.
  induction l2 as [|b l2 IH]; intros n1 F Hk Hleaf HF; [exact HF|].
  cbn [List.length seq map fold_right].
  destruct (Hleaf 0) as [Hax Hcount]; [simpl; lia|].
  rewrite Nat.add_0_r in Hax, Hcount. rewrite Hax, Hcount. cbn [nth].
  match goal with
  | |- maps_batch (iterate _ _ ?G0) _ _ _ => set (G1 := G0)
  end.
  assert (HG : maps_batch G1 [] (repeat [] n1 ++ [] :: l2)%list cp).
  { replace (repeat [] n1 ++ [] :: l2)%list
      with (repeat (@nil nat) (Datatypes.S n1) ++ l2)%list
      by (cbn [repeat]; rewrite repeat_cons, <- app_assoc; reflexivity).
    apply IH.
    - simpl in Hk. lia.
    - intros j Hj. destruct (Hleaf (Datatypes.S j)) as [H1 H2];
        [simpl; lia|].
      rewrite Nat.add_succ_r in H1, H2. now split.
    - cbn [repeat]. rewrite repeat_cons, <- app_assoc. exact HF. }
  pose proof (iterate_L G1 (repeat [] n1) l2 [] cp b k
                (all_nil_repeat n1)) as HL.
  rewrite repeat_length, app_nil_r in HL.
  apply HL; [simpl in Hk; lia | exact HG].
Qed.

Lemma nth_map_lt {A B : Type} (f : A -> B) (l : list A) (j : nat)
  (d : B) (d' : A) :
  j < List.length l -> nth j (map f l) d = f (nth j l d').
Proof.
  intros Hj. rewrite (nth_indep _ d (f d')) by now rewrite length_map.
  apply map_nth.
Qed.

(** The nested maps of the cartesian mode put the batch axes of [H], then
    those of the jump operators in list order, then those of the initial
    state, before the leading axes of the function they map; under an
    index into these axes lies the result of that function on the batch
    element the index selects. *)
Lemma cartesian_vmap_entries (core : core_args) (bH : list nat)
  (bLs : list (list nat)) (bp : list nat) :
  List.length tH = 2 -> List.length tL = 2 -> List.length tp = 2 ->
  batched_like bH bLs bp (core, keys0, other0) ->
  (forall a, batched_like [] (map (fun _ => []) bLs) [] a ->
             exists r, G a = Ok r /\ has_leading pre0 sh shi shk r) ->
  maps_batch
    (cartesian_vmap G (batch_in_axes core) out_axes_of_result
       {| nv_H := Jax.ndim (H core) - 2;
          nv_Ls := map (fun L => Jax.ndim L - 2) (Ls core);
          nv_psi0 := Jax.ndim (psi0 core) - 2;
          nv_tsave := 0; nv_keys := 0; nv_exp_ops := 0; nv_method := 0;
          nv_gradient := 0; nv_options := 0 |})
    bH bLs bp.
Proof.
  intros HtH HtL Htp Hcore HG.
  pose proof (maps_batch_base _ (all_nil_map bLs) HG) as Hf.
  pose proof (batched_like_length _ _ _ _ Hcore) as Hlen.
  destruct Hcore as (HH & HL & Hp & _). cbn [fst snd] in *.
  unfold cartesian_vmap.
  replace (count_Ls (batch_in_axes core)) with (List.length bLs)
    by (cbn; now rewrite length_map).
  unfold leaves. cbn [fold_right]. rewrite fold_right_app.
  cbn [fold_right axis_at batch_in_axes in_axes_of no_other_axes ax_psi0
       ax_tsave ax_exp_ops ax_method ax_gradient ax_options ax_H
       count_at nv_H nv_psi0].
  rewrite (Jax.ndim_app S _ _ _ HH HtH), (Jax.ndim_app S _ _ _ Hp Htp).
  (* the innermost maps: over the initial state *)
  pose proof (iterate_psi0 G (map (fun _ => []) bLs) [] bp
                (all_nil_map bLs) Hf) as Hpsi.
  rewrite length_map, app_nil_r in Hpsi.
  (* the maps over the jump operators *)
  match type of Hpsi with
  | maps_batch ?F0 _ _ _ =>
      pose proof (fold_Ls (batch_in_axes core)
                    {| nv_H := List.length bH;
                       nv_Ls := map (fun L => Jax.ndim L - 2) (Ls core);
                       nv_psi0 := List.length bp;
                       nv_tsave := 0; nv_keys := 0; nv_exp_ops := 0;
                       nv_method := 0; nv_gradient := 0; nv_options := 0 |}
                    (List.length bLs) bp bLs 0 F0 eq_refl) as HLs
  end.
  cbn [repeat app Nat.add] in HLs.
  assert (Hleaf : forall j, j < List.length bLs ->
            nth j (map (fun _ : array => Some 0) (Ls core)) None = Some 0
            /\ nth j (map (fun L => Jax.ndim L - 2) (Ls core)) 0
               = List.length (nth j bLs [])).
  { intros j Hj. split.
    - rewrite (nth_map_lt _ _ _ _ no_array) by lia. reflexivity.
    - rewrite (nth_map_lt _ _ _ _ no_array) by lia.
      apply (Jax.ndim_app S _ _ tL); [|exact HtL].
      apply (f_equal (fun l => nth j l [])) in HL.
      rewrite (nth_map_lt _ _ _ _ no_array) in HL by lia.
      rewrite (nth_map_lt _ _ _ _ []) in HL by lia. exact HL. }
  specialize (HLs Hleaf Hpsi).
  (* the outermost maps: over H *)
  pose proof (iterate_H _ [] bLs bp bH HLs) as HHm.
  rewrite app_nil_r in HHm. exact HHm.
Qed.

End Batching.

(** *** The leading axes of the result *)

Lemma has_leading_nil (sh shi : list (list nat)) (shk : list nat)
  (r : JSSESolveResult) :
  has_leading [] sh shi shk r ->
  map (@Jax.shape S) (res_saved r) = sh
  /\ map (@Jax.shape S) (res_infos r) = shi
  /\ Jax.shape (res_keys r) = shk.
Proof.
  intros (Hs & Hi & Hk). cbn [app] in *. now rewrite !map_id in *.
Qed.

Lemma vmap_trajectory_leading (core : core_args) (click : click_args)
  (other : other_args) (n : nat) (ks : list nat)
  (sh shi : list (list nat)) (shk : list nat) :
  Jax.shape (key click) = n :: ks ->
  (forall click', Jax.shape (key click') = ks ->
     exists r, _jssesolve_single_trajectory (core, click', other) = Ok r
               /\ has_leading [] sh shi shk r) ->
  exists r,
    vmap_trajectory _jssesolve_single_trajectory trajectory_in_axes
                    out_axes_of_result (core, click, other) = Ok r
    /\ has_leading [n] sh shi shk r.
Proof.
  intros Hshape Hsingle.
  rewrite (vmap_trajectory_unfold _ _ _ _ _ n ks Hshape).
  assert (Hslice : forall t, exists r,
            _jssesolve_single_trajectory
              (core,
               mk_click (Jax.take 0 t (key click)) (noclick click)
                        (noclick_min_prob click), other) = Ok r
            /\ has_leading [] sh shi shk r).
  { intros t. apply Hsingle. cbn [key].
    exact (shape_take_head _ _ _ _ Hshape). }
  destruct (Hslice 0) as (r0 & -> & Hr0). rewrite bind_Ok.
  destruct (map_m_exists
              (fun t => _jssesolve_single_trajectory
                          (core,
                           mk_click (Jax.take 0 t (key click))
                                    (noclick click)
                                    (noclick_min_prob click), other))
              (fun _ => True) (seq 0 n)) as (rs & -> & Hlen & _).
  { intros t _. destruct (Hslice t) as (r & -> & _). now exists r. }
  rewrite bind_Ok.
  destruct (stack_results_leading [] sh shi shk r0 rs Hr0) as (r & -> & Hr).
  exists r. split; [reflexivity|]. now rewrite Hlen, length_seq in Hr.
Qed.

Lemma concatenate_shapes (x y : array) (n : nat) (s : list nat) :
  Jax.shape x = s -> Jax.shape y = n :: s ->
  exists z, _concatenate_results (Some 0) x y = Ok z
            /\ Jax.shape z = Datatypes.S n :: s.
Proof.
  intros Hx Hy. unfold _concatenate_results, Jax.concatenate.
  cbn [Jax.shape Jax.expand_dims0]. rewrite Hx, Hy.
  destruct (list_eq_dec Nat.eq_dec s s) as [_|Hne]; [|now elim Hne].
  eexists. split; reflexivity.
Qed.

Lemma map2_leaves_shapes (t1 t2 : list array) (n : nat)
  (sh : list (list nat)) :
  map (@Jax.shape S) t1 = sh ->
  map (@Jax.shape S) t2 = map (cons n) sh ->
  exists l, map2_leaves (_concatenate_results (Some 0)) t1 t2 = Ok l
            /\ map (@Jax.shape S) l = map (cons (Datatypes.S n)) sh.
Proof.
  revert t2 sh. induction t1 as [|x t1 IH]; intros [|y t2] [|s sh] H1 H2;
    try discriminate.
  - exists []. now split.
  - injection H1 as Hx H1. injection H2 as Hy H2.
    destruct (concatenate_shapes x y n s Hx Hy) as (z & Hz & Hzs).
    destruct (IH t2 sh H1 H2) as (zs & Hzs' & Hshapes).
    exists (z :: zs). cbn [map2_leaves].
    rewrite Hz, bind_Ok, Hzs', bind_Ok. split; [reflexivity|].
    cbn [map]. now rewrite Hzs, Hshapes.
Qed.

Lemma tree_map_concatenate_leading (r1 r2 : JSSESolveResult) (n : nat)
  (sh shi : list (list nat)) (shk : list nat) :
  has_leading [] sh shi shk r1 ->
  has_leading [n] sh shi shk r2 ->
  exists r, tree_map_concatenate out_axes_of_result r1 r2 = Ok r
            /\ has_leading [Datatypes.S n] sh shi shk r.
Proof.
  intros H1 (Hs2 & Hi2 & Hk2).
  apply has_leading_nil in H1. destruct H1 as (Hs1 & Hi1 & Hk1).
  unfold tree_map_concatenate, out_axes_of_result.
  cbn [oa_tsave oa_method oa_gradient oa_options oa_saved oa_infos oa_keys
       keep_static].
  rewrite concatenate_results_None, !bind_Ok.
  destruct (map2_leaves_shapes _ _ n sh Hs1 Hs2) as (sv & -> & Hsv).
  destruct (map2_leaves_shapes _ _ n shi Hi1 Hi2) as (inf & -> & Hinf).
  destruct (concatenate_shapes _ _ n shk Hk1 Hk2) as (kz & -> & Hkz).
  rewrite !bind_Ok. eexists. split; [reflexivity|].
  repeat split; cbn [res_saved res_infos res_keys]; assumption.
Qed.

(** The trajectories of [_vectorized_clicks_jssesolve] lie along one
    leading axis, as many as there are keys, with or without smart
    sampling. *)
Lemma clicks_leading (core : core_args) (keys : array) (other : other_args)
  (nm : Method.method) (rf : option Method.AbstractRootFinder) (ss : bool)
  (ntrajs : nat) (ks : list nat) (sh shi : list (list nat))
  (shk : list nat) :
  method other = Method.Event nm rf ss ->
  Jax.shape keys = ntrajs :: ks ->
  (ss = true -> 0 < ntrajs) ->
  (forall click, Jax.shape (key click) = ks ->
     exists r, _jssesolve_single_trajectory (core, click, other) = Ok r
               /\ has_leading [] sh shi shk r) ->
  exists r, _vectorized_clicks_jssesolve (core, keys, other) = Ok r
            /\ has_leading [ntrajs] sh shi shk r.
Proof.
  intros Hm Hshape Hpos Hsingle.
  unfold _vectorized_clicks_jssesolve. rewrite Hm.
  cbn [Method.getattr Method.lookup_attribute Method.instance_field
       String.eqb Ascii.eqb Bool.eqb]. rewrite bind_Ok. cbn [truthy].
  destruct ss.
  - destruct ntrajs as [|n]; [specialize (Hpos eq_refl); lia|].
    unfold Jax.getitem0. rewrite Hshape, bind_Ok.
    destruct (Hsingle (mk_click (Jax.take 0 0 keys) true zero))
      as (r_nc & -> & Hnc).
    { exact (shape_take_head _ _ _ _ Hshape). }
    rewrite bind_Ok.
    destruct (take_from1 keys n ks Hshape) as (keys1 & -> & Hsh1 & _).
    rewrite bind_Ok.
    destruct (vmap_trajectory_leading core
                (mk_click keys1 false (square (final_state_norm r_nc)))
                other n ks sh shi shk Hsh1 Hsingle) as (r_c & -> & Hc).
    rewrite bind_Ok.
    exact (tree_map_concatenate_leading r_nc r_c n sh shi shk Hnc Hc).
  - exact (vmap_trajectory_leading core (mk_click keys false zero) other
             ntrajs ks sh shi shk Hshape Hsingle).
Qed.

Lemma map_batch_shape (xs : list array) (bs : list (list nat))
  (t : list nat) :
  map (@Jax.shape S) xs = map (fun b => b ++ t)%list bs ->
  List.length t = 2 ->
  map (@Jax.batch_shape S) xs = bs.
Proof.
  intros Hxs Ht. revert bs Hxs.
  induction xs as [|x xs IH]; intros [|b bs] Hxs; try discriminate;
    [reflexivity|].
  injection Hxs as Hx Hxs. cbn [map].
  now rewrite (Jax.batch_shape_app S x b t Hx Ht), (IH bs Hxs).
Qed.

Lemma broadcast_jump_ops (xs : list array) (bs : list (list nat))
  (b t : list nat) :
  map (@Jax.shape S) xs = map (fun c => c ++ t)%list bs ->
  (forall c, In c bs -> Jax.broadcastable_rev (rev c) (rev b) = true) ->
  exists ys,
    map_m (fun L => Jax.broadcast_to L (b ++ t)%list) xs = Ok ys
    /\ map (@Jax.shape S) ys
       = map (fun c => c ++ t)%list (repeat b (List.length xs)).
Proof.
  revert bs. induction xs as [|x xs IH]; intros [|c bs] Hxs Hall;
    try discriminate.
  - exists []. now split.
  - injection Hxs as Hx Hxs.
    destruct (Jax.broadcast_to_batch S x c b t Hx (Hall c (or_introl eq_refl)))
      as (y & Hy & Hys).
    destruct (IH bs Hxs (fun c' Hc' => Hall c' (or_intror Hc')))
      as (ys & Hys' & Hshapes).
    exists (y :: ys). cbn [map_m]. rewrite Hy, bind_Ok, Hys', bind_Ok.
    split; [reflexivity|]. cbn. now rewrite Hys, Hshapes.
Qed.

(** C1.  For arguments of the documented shapes ([H] of shape
    [bH ++ [n; n]], jump operators of shapes [bL ++ [n; n]], an initial
    state of shape [bp ++ [n; 1]], [ntrajs] keys), an [Event] method, and a
    single-trajectory solve that succeeds on unbatched arguments with
    per-trajectory leaves of shapes [sh], [shi], [shk]:
    - with [cartesian_batching], every per-trajectory leaf of the result
      has the leading axes [bH], then the [bL] in list order, then [bp],
      then [ntrajs]; and under every index [pH ++ pL_1 ++ ... ++ pp] into
      the batch axes the leaf holds the leaf of the solve over the
      trajectories of the batch element [H[pH]], [L_k[pL_k]], [psi0[pp]];
    - without it, when the batch shapes broadcast to [b], the three
      arguments are broadcast to the batch shape [b], every such leaf has
      the leading axes [b], then [ntrajs], and under every index [q] into
      [b] the leaf holds the leaf of the solve over the trajectories of
      the batch element [q] of the broadcast arguments; and when the batch
      shapes do not broadcast, the call raises the [ValueError] of
      [broadcast_shapes]. *)
Theorem batch_axes_lead_the_result (core : core_args) (keys : array)
  (other : other_args) (bH : list nat) (bLs : list (list nat))
  (bp : list nat) (n ntrajs : nat) (ks : list nat) (nm : Method.method)
  (rf : option Method.AbstractRootFinder) (ss : bool)
  (sh shi : list (list nat)) (shk : list nat) :
  Jax.shape (H core) = (bH ++ [n; n])%list ->
  map (@Jax.shape S) (Ls core) = map (fun b => b ++ [n; n])%list bLs ->
  Jax.shape (psi0 core) = (bp ++ [n; 1])%list ->
  Jax.shape keys = ntrajs :: ks ->
  method other = Method.Event nm rf ss ->
  (ss = true -> 0 < ntrajs) ->
  (forall core' click,
     Jax.shape (H core') = [n; n] ->
     map (@Jax.shape S) (Ls core') = map (fun _ => [n; n]) bLs ->
     Jax.shape (psi0 core') = [n; 1] ->
     tsave core' = tsave core ->
     Jax.shape (key click) = ks ->
     exists r, _jssesolve_single_trajectory (core', click, other) = Ok r
               /\ has_leading [] sh shi shk r) ->
  (cartesian_batching (options other) = true ->
   exists r,
     _vectorized_jssesolve (core, keys, other) = Ok r
     /\ has_leading (bH ++ List.concat bLs ++ bp ++ [ntrajs])%list
                    sh shi shk r
     /\ forall pH pLs pp,
          in_bounds pH bH -> Forall2 in_bounds pLs bLs -> in_bounds pp bp ->
          exists r',
            _vectorized_clicks_jssesolve
              (element pH pLs pp (core, keys, other)) = Ok r'
            /\ has_leading [ntrajs] sh shi shk r'
            /\ agrees_at (pH ++ List.concat pLs ++ pp)%list r r')
  /\ (cartesian_batching (options other) = false ->
      (forall b,
         Jax.broadcast_shapes (bH :: bLs ++ [bp])%list = Ok b ->
         exists H' Ls' psi0' r,
           Jax.broadcast_to (H core) (b ++ [n; n])%list = Ok H'
           /\ map_m (fun L => Jax.broadcast_to L (b ++ [n; n])%list)
                    (Ls core) = Ok Ls'
           /\ Jax.broadcast_to (psi0 core) (b ++ [n; 1])%list = Ok psi0'
           /\ _vectorized_jssesolve (core, keys, other) = Ok r
           /\ has_leading (b ++ [ntrajs])%list sh shi shk r
           /\ forall q,
                in_bounds q b ->
                exists r',
                  _vectorized_clicks_jssesolve
                    (element q (repeat q (List.length bLs)) q
                       (mk_core H' Ls' psi0' (tsave core), keys, other))
                  = Ok r'
                  /\ has_leading [ntrajs] sh shi shk r'
                  /\ agrees_at q r r')
      /\ (forall e,
            Jax.broadcast_shapes (bH :: bLs ++ [bp])%list = Raise e ->
            _vectorized_jssesolve (core, keys, other) = Raise e
            /\ exists msg, e = ValueError msg)).
Proof.
  intros HH HL Hp Hkeys Hm Hpos Hsingle.
  (* the function mapped over the batch axes, on unbatched arguments *)
  assert (Hbase : forall a,
            batched_like [n; n] [n; n] [n; 1] (tsave core) keys other
                         [] (repeat [] (List.length bLs)) [] a ->
            exists r, _vectorized_clicks_jssesolve a = Ok r
                      /\ has_leading [ntrajs] sh shi shk r).
  { intros [[c kk] o] (H1 & H2 & H3 & H4 & H5 & H6). cbn [fst snd app] in *.
    subst kk o. rewrite map_repeat in H2. cbn [app] in H2.
    apply (clicks_leading c keys other nm rf ss ntrajs ks); try assumption.
    intros click Hclick. apply Hsingle; try assumption.
    now rewrite H2, map_const. }
  assert (Hbatch : Jax.batch_shape (H core) :: map (@Jax.batch_shape S)
                                                   (Ls core ++ [psi0 core])
                   = (bH :: bLs ++ [bp])%list).
  { rewrite (Jax.batch_shape_app S _ _ _ HH eq_refl), map_app.
    rewrite (map_batch_shape _ _ _ HL eq_refl). cbn [map].
    now rewrite (Jax.batch_shape_app S _ _ _ Hp eq_refl). }
  assert (Hlen : List.length (Ls core) = List.length bLs).
  { apply (f_equal (@List.length _)) in HL. now rewrite !length_map in HL. }
  split; [|intros Hshared; split].
  - (* cartesian mode *)
    intros Hcart. unfold _vectorized_jssesolve. rewrite Hcart.
    apply (cartesian_vmap_entries [n; n] [n; n] [n; 1] (tsave core) keys
             other sh shi shk _vectorized_clicks_jssesolve [ntrajs] core
             bH bLs bp); try reflexivity.
    + now repeat split.
    + now rewrite map_const.
    + now repeat split.
  - (* shared mode, shapes that broadcast *)
    intros b Hb. unfold _vectorized_jssesolve. rewrite Hshared.
    cbn [map]. rewrite Hbatch, Hb, bind_Ok.
    pose proof (Jax.broadcast_shapes_broadcastable _ _ Hb) as Hall.
    unfold Jax.last_dim. rewrite HH, rev_app_distr. cbn [rev app].
    rewrite bind_Ok.
    destruct (Jax.broadcast_to_batch S (H core) bH b [n; n] HH)
      as (H' & HeH & HH'); [apply Hall; now left|].
    rewrite HeH, bind_Ok.
    destruct (broadcast_jump_ops (Ls core) bLs b [n; n] HL)
      as (Ls' & HeL & HLs').
    { intros c Hc. apply Hall. right. apply in_or_app. now left. }
    rewrite HeL, bind_Ok.
    destruct (Jax.broadcast_to_batch S (psi0 core) bp b [n; 1] Hp)
      as (psi0' & Hep & Hp').
    { apply Hall. right. apply in_or_app. right. now left. }
    rewrite Hep, bind_Ok.
    exists H', Ls', psi0'.
    pose proof (iterate_all [n; n] [n; n] [n; 1] (tsave core) keys other
                  sh shi shk _vectorized_clicks_jssesolve [ntrajs] _ [] b
                  (List.length bLs) core Hlen
                  (maps_shared_base [n; n] [n; n] [n; 1] (tsave core) keys
                     other sh shi shk _vectorized_clicks_jssesolve [ntrajs]
                     (List.length bLs) Hbase)) as Hmulti.
    rewrite !app_nil_r in Hmulti.
    destruct (Hmulti (mk_core H' Ls' psi0' (tsave core), keys, other))
      as (r & Hr & Hlead & Hent).
    { repeat split; cbn [fst snd H Ls psi0 tsave]; try assumption.
      now rewrite HLs', Hlen, !map_repeat. }
    exists r. do 3 (split; [reflexivity|]).
    split; [exact Hr|]. split; [exact Hlead|].
    exact Hent.
  - (* shared mode, shapes that do not broadcast *)
    intros e He. split; [|exact (Jax.broadcast_shapes_raises _ _ He)].
    unfold _vectorized_jssesolve. rewrite Hshared.
    cbn [map]. now rewrite Hbatch, He.
Qed.

(** *** Further properties of the checks and of the choice of the
    integrator *)

(** X5.  The argument checks pass exactly on well-shaped arguments, each
    argument being judged on its own shape, and they raise nothing but a
    [ValueError]. *)
Theorem check_args_pass_exactly_when_well_shaped (H : array)
  (Ls : list array) (psi0 : array) (exp_ops : option (list array)) :
  (_check_jssesolve_args H Ls psi0 exp_ops = Ok tt
   <-> well_shaped H Ls psi0 exp_ops)
  /\ forall e, _check_jssesolve_args H Ls psi0 exp_ops = Raise e ->
               exists msg, e = ValueError msg.
Proof.
  destruct (check_args_cases H Ls psi0 exp_ops)
    as [[Hw Hc]|[Hw (msg & Hc)]]; rewrite Hc.
  - split; [tauto|]. discriminate.
  - split.
    + split; [discriminate | tauto].
    + intros e [= <-]. eauto.
Qed.

(** X6.  With a well-shaped [H], the first jump operator that is not a
    square matrix is the one reported, under its index, whatever the
    later jump operators, the initial state and the observables are. *)
Theorem first_ill_shaped_jump_operator_is_reported (H : array)
  (Ls : list array) (psi0 : array) (exp_ops : option (list array))
  (i : nat) (L : array) :
  Checks.has_shape (Jax.shape H) "(..., n, n)" = true ->
  nth_error Ls i = Some L ->
  Checks.has_shape (Jax.shape L) "(..., n, n)" = false ->
  (forall j L', j < i -> nth_error Ls j = Some L' ->
     Checks.has_shape (Jax.shape L') "(..., n, n)" = true) ->
  _check_jssesolve_args H Ls psi0 exp_ops
  = Raise (ValueError
             (Checks.shape_message ("jump_ops[" ++ str_nat i ++ "]")
                                   ("(...L" ++ str_nat i ++ ", n, n)")
                                   (Jax.shape L))).
Proof.
  intros HH Hnth HL Hbefore. unfold _check_jssesolve_args.
  destruct (check_shape_cases H "H" "(..., n, n)" [("...", "...H")])
    as [[_ ->]|[HH' _]]; [|congruence].
  rewrite bind_Ok.
  match goal with
  | |- context [for_each ?body (enumerate Ls)] =>
      rewrite (for_each_first_raise body (enumerate Ls) i (i, L)
                 (ValueError
                    (Checks.shape_message ("jump_ops[" ++ str_nat i ++ "]")
                       ("(...L" ++ str_nat i ++ ", n, n)") (Jax.shape L))))
  end.
  - reflexivity.
  - exact (nth_error_enumerate_from Ls 0 i L Hnth).
  - destruct (check_shape_cases L ("jump_ops[" ++ str_nat i ++ "]")
                "(..., n, n)" [("...", "...L" ++ str_nat i)])
      as [[HL' _]|[_ Hc]]; [congruence | exact Hc].
  - intros j [j' L'] Hj Hnth'.
    assert (HL' : nth_error Ls j = Some L' /\ j' = j).
    { destruct (nth_error Ls j) as [L''|] eqn:HLj.
      - unfold enumerate in Hnth'.
        rewrite (nth_error_enumerate_from Ls 0 j L'' HLj) in Hnth'.
        now injection Hnth' as <- <-.
      - apply nth_error_None in HLj.
        assert (Hlen : List.length (enumerate Ls) <= j).
        { unfold enumerate. rewrite length_combine, length_seq. lia. }
        apply nth_error_None in Hlen. congruence. }
    destruct HL' as [HLj ->].
    destruct (check_shape_cases L' ("jump_ops[" ++ str_nat j ++ "]")
                "(..., n, n)" [("...", "...L" ++ str_nat j)])
      as [[_ Hc]|[HL'' _]]; [exact Hc|].
    rewrite (Hbefore j L' Hj HLj) in HL''. discriminate.
Qed.

(** X7.  On arguments that the converters accept and return well shaped,
    [jssesolve] checks the times, then the options, then solves: an error
    of [check_times] is raised whatever the options are, an error of
    [check_options] is raised before any integration, and the solver is
    given the converted arguments, the times [check_times] returns, the
    initialised options, and no observables for an empty list of them. *)
Theorem jssesolve_checks_times_then_options
  (H : array) (jump_ops : list array) (psi0 tsave keys : array)
  (exp_ops : option (list array))
  (method : Method.method) (gradient : option Method.gradient)
  (options : Options)
  (H' : array) (Ls' : list array) (psi0' : array)
  (exp_ops' : option (list array)) :
  converted H jump_ops psi0 exp_ops H' Ls' psi0' exp_ops' ->
  well_shaped H' Ls' psi0' exp_ops' ->
  (forall e, check_times tsave "tsave" = Raise e ->
     jssesolve H jump_ops psi0 tsave keys exp_ops method gradient options
     = Raise e)
  /\ (forall tsave' e,
        check_times tsave "tsave" = Ok tsave' ->
        check_options options "jssesolve" = Raise e ->
        jssesolve H jump_ops psi0 tsave keys exp_ops method gradient options
        = Raise e)
  /\ (forall tsave',
        check_times tsave "tsave" = Ok tsave' ->
        check_options options "jssesolve" = Ok tt ->
        jssesolve H jump_ops psi0 tsave keys exp_ops method gradient options
        = _vectorized_jssesolve
            (mk_core H' Ls' psi0' tsave', keys,
             mk_other exp_ops' method gradient (initialise options))).
Proof.
  intros Hconv Hw.
  assert (Hc : _check_jssesolve_args H' Ls' psi0' exp_ops' = Ok tt).
  { destruct (check_args_cases H' Ls' psi0' exp_ops')
      as [[_ Hc]|[Hn _]]; [exact Hc | tauto]. }
  rewrite (jssesolve_converted _ _ _ _ _ _ _ _ _ _ _ _ _ Hconv), Hc, bind_Ok.
  split; [|split].
  - intros e ->. reflexivity.
  - intros tsave' e -> ->. reflexivity.
  - intros tsave' -> ->. reflexivity.
Qed.

(** X8.  A method that is no [Event] has no attribute [smart_sampling]:
    [_vectorized_clicks_jssesolve] raises the [AttributeError] of that
    access, before any trajectory is set up and whatever the other
    arguments are. *)
Theorem method_without_smart_sampling_is_an_AttributeError
  (core : core_args) (keys : array) (other : other_args) :
  Method.type_of (method other) <> Method.cEvent ->
  _vectorized_clicks_jssesolve (core, keys, other)
  = Raise (AttributeError
             (Method.no_attribute_message (Method.type_of (method other))
                                          "smart_sampling")).
Proof.
  intros Hne. unfold _vectorized_clicks_jssesolve.
  destruct (method other) as [| | | |p|p|p|p|p|nm rf ss]; try reflexivity.
  now elim Hne.
Qed.

(** X9.  An [Event] whose no-click method is an [Expm], an
    [EulerMaruyama], a [Rouchon1] or an [Event] has no integrator: the
    single-trajectory solve raises the [KeyError] of the dictionary of
    constructors, for the class of the no-click method, whatever the
    gradient is (the gradient is checked afterwards) and whatever the
    integrators do. *)
Theorem noclick_method_without_integrator_is_a_KeyError
  (core : core_args) (click : click_args) (other : other_args)
  (nm : Method.method) (rf : option Method.AbstractRootFinder) (ss : bool) :
  method other = Method.Event nm rf ss ->
  In (Method.type_of nm)
     [Method.cExpm; Method.cEulerMaruyama; Method.cRouchon1; Method.cEvent] ->
  _jssesolve_single_trajectory (core, click, other)
  = Raise (KeyError (Method.class_name (Method.type_of nm))).
Proof.
  intros Hm Hin.
  unfold _jssesolve_single_trajectory, assert_method_supported.
  rewrite Hm. cbn [Method.type_of existsb Method.method_class_eqb orb].
  rewrite bind_Ok.
  assert (Hnone : integrator_constructors (Method.type_of nm) = None).
  { cbn in Hin. repeat destruct Hin as [<-|Hin]; try reflexivity.
    destruct Hin. }
  now rewrite Hnone.
Qed.

(** X10.  When the trajectory of the first key raises, so does the whole
    map over trajectories, with the same error: with smart sampling that
    trajectory is the no-click one, without it the one the map is traced
    on. *)
Theorem first_trajectory_error_is_raised
  (core : core_args) (keys : array) (other : other_args)
  (nm : Method.method) (rf : option Method.AbstractRootFinder) (ss : bool)
  (n : nat) (ks : list nat) (e : exn) :
  method other = Method.Event nm rf ss ->
  Jax.shape keys = Datatypes.S n :: ks ->
  _jssesolve_single_trajectory
    (core, mk_click (Jax.take 0 0 keys) ss zero, other) = Raise e ->
  _vectorized_clicks_jssesolve (core, keys, other) = Raise e.
Proof.
  intros Hm Hk Hraise. unfold _vectorized_clicks_jssesolve.
  rewrite Hm.
  assert (Hss : Method.getattr (Method.Event nm rf ss) "smart_sampling"
                = Ok (Method.VBool ss)) by reflexivity.
  rewrite Hss, bind_Ok. cbn [truthy].
  destruct ss.
  - unfold Jax.getitem0. rewrite Hk, bind_Ok.
    rewrite Hraise. reflexivity.
  - rewrite (vmap_trajectory_unfold _ _ core (mk_click keys false zero)
               other (Datatypes.S n) ks Hk).
    cbn [key noclick noclick_min_prob]. rewrite Hraise. reflexivity.
Qed.

(** X11.  For every no-click method that has an integrator, the class of
    the method and [Event] support the same gradients: the check made
    against [Event] accepts what a check against the no-click method
    would. *)
Theorem noclick_method_and_Event_support_the_same_gradients
  (nm : Method.method) (g : option Method.gradient)
  (c : integrator_constructor) :
  integrator_constructors (Method.type_of nm) = Some c ->
  Method.supports_gradient (Method.type_of nm) g
  = Method.supports_gradient Method.cEvent g.
Proof.
  destruct nm; cbn [Method.type_of integrator_constructors];
    intros Hc; try discriminate Hc; reflexivity.
Qed.

End Solver.
End JSSESolve.

(* ===================================================================== *)
(** ** The solver on concrete arguments *)
(* ===================================================================== *)

Module Examples.
Import Py JSSESolve.
Local Open Scope nat_scope.

(** An array of the given shape whose entries are all 1. *)
Definition ones (s : list nat) : Jax.array nat :=
  Jax.mk_array nat s (fun _ => 1).

(** The keys [0], [1], ..., [n - 1]. *)
Definition some_keys (n : nat) : Jax.array nat :=
  Jax.mk_array nat [n] (fun idx => nth 0 idx 0).

(** An integrator that saves one leaf [states] of shape [(3, 2, 1)], whose
    entries record the key, the no-click flag and the floor it was given,
    and echoes its configuration. *)
Definition run (i : Integrator nat) : M (JSSESolveResult nat) :=
  Ok {| res_tsave := tsave nat (int_core nat i);
        res_method := method nat (int_other nat i);
        res_gradient := gradient nat (int_other nat i);
        res_options := options nat (int_other nat i);
        res_saved :=
          [Jax.mk_array nat [3; 2; 1]
             (fun _ =>
                Jax.at_ (key nat (int_click nat i)) []
                + 10 * noclick_min_prob nat (int_click nat i)
                + (if noclick nat (int_click nat i) then 100 else 0))];
        res_infos := [];
        res_keys := key nat (int_click nat i) |}.

(** An integrator whose saved leaf records an entry of [H], of the first
    jump operator and of the initial state, and the key. *)
Definition run_entries (i : Integrator nat) : M (JSSESolveResult nat) :=
  Ok {| res_tsave := tsave nat (int_core nat i);
        res_method := method nat (int_other nat i);
        res_gradient := gradient nat (int_other nat i);
        res_options := options nat (int_other nat i);
        res_saved :=
          [Jax.mk_array nat [3; 2; 1]
             (fun _ =>
                Jax.at_ (H nat (int_core nat i)) [0; 0]
                + 10 * Jax.at_ (nth 0 (Ls nat (int_core nat i)) (ones []))
                               [0; 0]
                + 100 * Jax.at_ (psi0 nat (int_core nat i)) [0; 0]
                + 1000 * Jax.at_ (key nat (int_click nat i)) [])];
        res_infos := [];
        res_keys := key nat (int_click nat i) |}.

(** An array of the given shape whose slice [i] along the first axis has
    all entries [i + 1]. *)
Definition counting (s : list nat) : Jax.array nat :=
  Jax.mk_array nat s (fun idx => Datatypes.S (nth 0 idx 0)).

(** The final-state norm of every result is 3 here. *)
Definition final_state_norm (r : JSSESolveResult nat) : nat := 3.

Definition check_times (t : Jax.array nat) (name : string)
  : M (Jax.array nat) := Ok t.

Definition check_options (o : Options) (name : string) : M unit := Ok tt.

Definition unsupported_method_error (m : Method.method)
  (supported : list Method.method_class) : exn :=
  ValueError "Method is not supported".

Definition default_options : Options :=
  {| save_states := true; cartesian_batching := true; t0 := None;
     save_extra := None; nmaxclick := 10000 |}.

Definition smart_Event : Method.method :=
  Method.Event (Method.Tsit5 Method.default_adaptive_step) None true.

(** Converters that accept every array and return it. *)
Definition asqarray (x : Jax.array nat) : M (Jax.array nat) := Ok x.
Definition astimeqarray (x : Jax.array nat) : M (Jax.array nat) := Ok x.

(** [jssesolve] with this integrator and these converters. *)
Definition solve :=
  jssesolve nat 0 (fun x => x * x) run final_state_norm check_times
            check_options (fun o => o) unsupported_method_error
            asqarray astimeqarray.

(** The single-trajectory solve with this integrator and the default
    method. *)
Definition single (m : Method.method) (click : click_args nat)
  : JSSESolveResult nat :=
  {| res_tsave := ones [3];
     res_method := m;
     res_gradient := None;
     res_options := default_options;
     res_saved :=
       [Jax.mk_array nat [3; 2; 1]
          (fun _ =>
             Jax.at_ (key nat click) []
             + 10 * noclick_min_prob nat click
             + (if noclick nat click then 100 else 0))];
     res_infos := [];
     res_keys := key nat click |}.

(** C1, on the example of the specification: [H] of batch shape [(2,)],
    one jump operator of batch shape [(3,)], an unbatched initial state and
    four keys give leaves of leading shape [(2, 3, 4)]; the entry under
    [(i, j, t)] comes from [H[i]], [L[j]] and key [t]. *)
Lemma batch_axes_lead_the_result_witness :
  exists r,
    _vectorized_jssesolve nat 0 (fun x => x * x) run_entries final_state_norm
      unsupported_method_error
      (mk_core nat (counting [2; 2; 2]) [counting [3; 2; 2]] (ones [2; 1])
               (ones [3]),
       some_keys 4,
       mk_other nat None Method.default_Event None default_options)
    = Ok r
    /\ map (@Jax.shape nat) (res_saved nat r) = [[2; 3; 4; 3; 2; 1]]
    /\ Jax.at_ (leaf_at nat 0 0 (res_saved nat r)) [1; 2; 3; 0; 0; 0] = 3132
    /\ Jax.at_ (leaf_at nat 0 0 (res_saved nat r)) [0; 1; 2; 0; 0; 0] = 2121
    /\ Jax.at_ (leaf_at nat 0 0 (res_saved nat r)) [1; 0; 0; 2; 1; 0] = 112.
Proof.
  destruct
    (proj1
       (batch_axes_lead_the_result nat 0 (fun x => x * x) run_entries
          final_state_norm unsupported_method_error
          (mk_core nat (counting [2; 2; 2]) [counting [3; 2; 2]]
                   (ones [2; 1]) (ones [3]))
          (some_keys 4)
          (mk_other nat None Method.default_Event None default_options)
          [2] [[3]] [] 2 4 []
          (Method.Tsit5 Method.default_adaptive_step) None false
          [[3; 2; 1]] [] []
          eq_refl eq_refl eq_refl eq_refl eq_refl
          (fun Hss : false = true =>
             match Hss in _ = b return (if b then 0 < 4 else True) with
             | eq_refl => I
             end)
          (fun core' click _ _ _ _ Hk =>
             ex_intro _ _ (conj eq_refl (conj eq_refl (conj eq_refl Hk)))))
       eq_refl) as (r & Hr & Hs & Hent).
  exists r. split; [exact Hr|]. split; [exact (proj1 Hs)|].
  destruct (Hent [1] [[2]] []) as (r1 & Hr1 & _ & Ha1 & _);
    [unfold in_bounds; repeat constructor ..|].
  destruct (Hent [0] [[1]] []) as (r2 & Hr2 & _ & Ha2 & _);
    [unfold in_bounds; repeat constructor ..|].
  destruct (Hent [1] [[0]] []) as (r3 & Hr3 & _ & Ha3 & _);
    [unfold in_bounds; repeat constructor ..|].
  vm_compute in Hr1, Hr2, Hr3.
  injection Hr1 as <-. injection Hr2 as <-. injection Hr3 as <-.
  split; [exact (Ha1 0 [3; 0; 0; 0])|].
  split; [exact (Ha2 0 [2; 0; 0; 0]) | exact (Ha3 0 [0; 2; 1; 0])].
Defined.

(** C3, on three keys: the three trajectories are the three
    single-trajectory calls, one per key. *)
Lemma trajectories_map_over_keys_only_witness :
  exists r,
    _vectorized_clicks_jssesolve nat 0 (fun x => x * x) run final_state_norm
      unsupported_method_error
      (mk_core nat (ones [2; 2]) [ones [2; 2]] (ones [2; 1]) (ones [3]),
       some_keys 3,
       mk_other nat None Method.default_Event None default_options)
    = Ok r
    /\ map (@Jax.shape nat) (res_saved nat r) = [[3; 3; 2; 1]]
    /\ map (fun t => Jax.at_ (leaf_at nat 0 0 (res_saved nat r)) [t; 0; 0; 0])
           [0; 1; 2]
       = [0; 1; 2].
Proof.
  destruct
    (trajectories_map_over_keys_only nat 0 (fun x => x * x) run
       final_state_norm unsupported_method_error
       (mk_core nat (ones [2; 2]) [ones [2; 2]] (ones [2; 1]) (ones [3]))
       (mk_click nat (some_keys 3) false 0)
       (mk_other nat None Method.default_Event None default_options)
       3 []
       (fun t => single Method.default_Event
                   (mk_click nat (Jax.take 0 t (some_keys 3)) false 0))
       eq_refl (fun t _ => eq_refl))
    as (_ & _ & r & _ & _ & _ & _ & _ & Hsaved & _ & _ & Hclicks).
  exists r. split; [exact (Hclicks _ None eq_refl eq_refl eq_refl)|].
  destruct Hsaved as [Hlen Hstack].
  destruct (Hstack 0 (Nat.lt_0_succ 0)) as [Hshape Hat].
  destruct (res_saved nat r) as [|x [|y l]]; try discriminate Hlen.
  unfold leaf_at in *. cbn [nth map] in *. split.
  - now rewrite Hshape.
  - rewrite (Hat 0 [0; 0; 0]), (Hat 1 [0; 0; 0]), (Hat 2 [0; 0; 0]) by lia.
    reflexivity.
Defined.

(** C2, on three keys: trajectory 0 is the no-click trajectory of key 0
    with floor 0; trajectories 1 and 2 are the click trajectories of keys
    1 and 2 with floor 3 * 3. *)
Lemma smart_sampling_prepends_noclick_witness :
  exists r,
    _vectorized_clicks_jssesolve nat 0 (fun x => x * x) run final_state_norm
      unsupported_method_error
      (mk_core nat (ones [2; 2]) [ones [2; 2]] (ones [2; 1]) (ones [3]),
       some_keys 3,
       mk_other nat None smart_Event None default_options)
    = Ok r
    /\ map (@Jax.shape nat) (res_saved nat r) = [[3; 3; 2; 1]]
    /\ map (fun t => Jax.at_ (leaf_at nat 0 0 (res_saved nat r)) [t; 0; 0; 0])
           [0; 1; 2]
       = [100; 91; 92].
Proof.
  destruct
    (smart_sampling_prepends_noclick nat 0 (fun x => x * x) run
       final_state_norm unsupported_method_error
       (mk_core nat (ones [2; 2]) [ones [2; 2]] (ones [2; 1]) (ones [3]))
       (some_keys 3)
       (mk_other nat None smart_Event None default_options)
       (Method.Tsit5 Method.default_adaptive_step) None 2 []
       (single smart_Event)
       eq_refl eq_refl (fun click _ => eq_refl)
       (fun click click' Hc Hc' =>
          conj eq_refl (conj eq_refl (eq_trans Hc (eq_sym Hc')))))
    as (r & Hr & _ & _ & _ & _ & Hsaved & _).
  exists r. split; [exact Hr|].
  destruct Hsaved as [Hlen Hpre].
  destruct (Hpre 0 (Nat.lt_0_succ 0)) as (Hshape & H0 & Ht).
  destruct (res_saved nat r) as [|x [|y l]]; try discriminate Hlen.
  unfold leaf_at in *. cbn [nth map] in *. split.
  - now rewrite Hshape.
  - rewrite (H0 [0; 0; 0]), (Ht 0 [0; 0; 0]), (Ht 1 [0; 0; 0]) by lia.
    reflexivity.
Defined.

(** C4, on an initial state and an observable that are both ill-shaped,
    after two well-shaped jump operators: the message is that of the
    initial state, which the checks reach first. *)
Lemma jssesolve_rejects_offending_arguments_witness :
  solve (ones [2; 2]) [ones [2; 2]; ones [5; 2; 2]] (ones [3; 2])
        (ones [3]) (some_keys 4) (Some [ones [2; 2]; ones [4; 2; 2]])
        Method.default_Event None default_options
  = Raise
      (ValueError
         "Argument `psi0` must have shape (...psi0, n, 1), but has shape psi0.shape=(3, 2).").
Proof.
  destruct
    (jssesolve_rejects_offending_arguments nat 0 (fun x => x * x) run
       final_state_norm check_times check_options (fun o => o)
       unsupported_method_error asqarray astimeqarray
       (ones [2; 2]) [ones [2; 2]; ones [5; 2; 2]] (ones [3; 2])
       (ones [3]) (some_keys 4) (Some [ones [2; 2]; ones [4; 2; 2]])
       Method.default_Event None default_options
       (ones [2; 2]) [ones [2; 2]; ones [5; 2; 2]] (ones [3; 2])
       (Some [ones [2; 2]; ones [4; 2; 2]])
       (conj eq_refl
          (conj eq_refl
             (conj eq_refl (ex_intro _ _ (conj eq_refl eq_refl)))))
       (or_intror (or_intror (or_introl eq_refl))))
    as (msg & Hsolve & _ & _ & Hunique & _).
  unfold solve. rewrite Hsolve. f_equal. f_equal. symmetry. apply Hunique.
  apply (first_psi0 nat); try reflexivity.
  - repeat constructor.
  - discriminate.
Defined.

(** C4 as it is stated fails where the list of jump operators is empty
    and [H] is ill-shaped as well: the error is the shape error of [H],
    whose message does not mention [sesolve]. *)
Lemma empty_jump_ops_with_ill_shaped_H :
  solve (ones [3; 2]) [] (ones [2; 1]) (ones [3]) (some_keys 4) None
        Method.default_Event None default_options
  = Raise
      (ValueError
         "Argument `H` must have shape (...H, n, n), but has shape H.shape=(3, 2).")
  /\ contains "sesolve"
       "Argument `H` must have shape (...H, n, n), but has shape H.shape=(3, 2)."
     = false.
Proof. split; vm_compute; reflexivity. Qed.


(** X6, on three jump operators of which the second and the third are
    not square: the second is reported, although the initial state is
    ill-shaped too. *)
Lemma first_ill_shaped_jump_operator_is_reported_witness :
  _check_jssesolve_args nat (ones [2; 2])
    [ones [2; 2]; ones [2; 3]; ones [4; 5]] (ones [7]) None
  = Raise
      (ValueError
         "Argument `jump_ops[1]` must have shape (...L1, n, n), but has shape jump_ops[1].shape=(2, 3).").
Proof.
  apply (first_ill_shaped_jump_operator_is_reported nat (ones [2; 2])
           [ones [2; 2]; ones [2; 3]; ones [4; 5]] (ones [7]) None
           1 (ones [2; 3]) eq_refl eq_refl eq_refl).
  intros [|j] L' Hj; [intros [= <-]; reflexivity | lia].
Defined.

(** X7, on a well-shaped call with an empty list of observables. *)
Lemma jssesolve_checks_times_then_options_witness :
  well_shaped nat (ones [2; 2]) [ones [2; 2]] (ones [2; 1]) None
  /\ solve (ones [2; 2]) [ones [2; 2]] (ones [2; 1]) (ones [3]) (some_keys 4)
           (Some []) Method.default_Event None default_options
     = _vectorized_jssesolve nat 0 (fun x => x * x) run final_state_norm
         unsupported_method_error
         (mk_core nat (ones [2; 2]) [ones [2; 2]] (ones [2; 1]) (ones [3]),
          some_keys 4,
          mk_other nat None Method.default_Event None default_options).
Proof.
  assert (Hw : well_shaped nat (ones [2; 2]) [ones [2; 2]] (ones [2; 1])
                           None).
  { split; [reflexivity|]. split; [repeat constructor|].
    split; [discriminate|]. split; [reflexivity | constructor]. }
  split; [exact Hw|].
  exact (proj2 (proj2
           (jssesolve_checks_times_then_options nat 0 (fun x => x * x) run
              final_state_norm check_times check_options (fun o => o)
              unsupported_method_error asqarray astimeqarray
              (ones [2; 2]) [ones [2; 2]] (ones [2; 1]) (ones [3])
              (some_keys 4) (Some []) Method.default_Event None
              default_options
              (ones [2; 2]) [ones [2; 2]] (ones [2; 1]) None
              (conj eq_refl (conj eq_refl (conj eq_refl eq_refl))) Hw))
           (ones [3]) eq_refl eq_refl).
Defined.

(** X8, on [method=Tsit5()]. *)
Lemma method_without_smart_sampling_is_an_AttributeError_witness :
  _vectorized_clicks_jssesolve nat 0 (fun x => x * x) run final_state_norm
    unsupported_method_error
    (mk_core nat (ones [2; 2]) [ones [2; 2]] (ones [2; 1]) (ones [3]),
     some_keys 3,
     mk_other nat None (Method.Tsit5 Method.default_adaptive_step) None
              default_options)
  = Raise (AttributeError "'Tsit5' object has no attribute 'smart_sampling'").
Proof.
  apply (method_without_smart_sampling_is_an_AttributeError nat 0
           (fun x => x * x) run final_state_norm unsupported_method_error
           (mk_core nat (ones [2; 2]) [ones [2; 2]] (ones [2; 1]) (ones [3]))
           (some_keys 3)
           (mk_other nat None (Method.Tsit5 Method.default_adaptive_step)
                     None default_options)).
  discriminate.
Defined.

(** X9, on [Event(noclick_method=Expm())] asked for a gradient that
    [Event] does not support either. *)
Lemma noclick_method_without_integrator_is_a_KeyError_witness :
  _jssesolve_single_trajectory nat run unsupported_method_error
    (mk_core nat (ones [2; 2]) [ones [2; 2]] (ones [2; 1]) (ones [3]),
     mk_click nat (ones []) false 0,
     mk_other nat None (Method.Event Method.Expm None false)
              (Some (Method.mk_gradient Method.Gradient)) default_options)
  = Raise (KeyError "Expm").
Proof.
  apply (noclick_method_without_integrator_is_a_KeyError nat run
           unsupported_method_error
           (mk_core nat (ones [2; 2]) [ones [2; 2]] (ones [2; 1]) (ones [3]))
           (mk_click nat (ones []) false 0)
           (mk_other nat None (Method.Event Method.Expm None false)
                     (Some (Method.mk_gradient Method.Gradient))
                     default_options)
           Method.Expm None false eq_refl).
  cbn. tauto.
Defined.

(** X10, on a gradient that [Event] does not support: the map over three
    keys raises the [ValueError] of the gradient check. *)
Lemma first_trajectory_error_is_raised_witness :
  _vectorized_clicks_jssesolve nat 0 (fun x => x * x) run final_state_norm
    unsupported_method_error
    (mk_core nat (ones [2; 2]) [ones [2; 2]] (ones [2; 1]) (ones [3]),
     some_keys 3,
     mk_other nat None Method.default_Event
              (Some (Method.mk_gradient Method.Gradient)) default_options)
  = Raise
      (ValueError
         "Method `Event` does not support gradient `Gradient` (supported gradient types: `Autograd`, `CheckpointAutograd`, `ForwardAutograd`).").
Proof.
  exact (first_trajectory_error_is_raised nat 0 (fun x => x * x) run
           final_state_norm unsupported_method_error
           (mk_core nat (ones [2; 2]) [ones [2; 2]] (ones [2; 1]) (ones [3]))
           (some_keys 3)
           (mk_other nat None Method.default_Event
                     (Some (Method.mk_gradient Method.Gradient))
                     default_options)
           (Method.Tsit5 Method.default_adaptive_step) None false 2 [] _
           eq_refl eq_refl eq_refl).
Defined.

(** X11, on [Euler] and [CheckpointAutograd]. *)
Lemma noclick_method_and_Event_support_the_same_gradients_witness :
  integrator_constructors (Method.type_of (Method.Euler 1e-4))
  = Some jssesolve_event_euler_integrator_constructor
  /\ Method.supports_gradient Method.cEuler
       (Some (Method.mk_gradient Method.CheckpointAutograd))
     = Method.supports_gradient Method.cEvent
         (Some (Method.mk_gradient Method.CheckpointAutograd)).
Proof.
  split; [reflexivity|].
  exact (noclick_method_and_Event_support_the_same_gradients
           (Method.Euler 1e-4)
           (Some (Method.mk_gradient Method.CheckpointAutograd))
           jssesolve_event_euler_integrator_constructor eq_refl).
Defined.

End Examples.

(* ===================================================================== *)
(** ** tests/solver_tester.py: the gradient-checking routine *)
(* ===================================================================== *)

Module SolverTester.
Import Py.

(** A pytree of gradients: its leaves, each an array of numbers along one
    axis.  The floating-point numbers of the arrays are carried as
    rationals, so the comparisons below are exact. *)
Definition pytree : Type := list (list Q).

(** The entries of two arrays of one size compared in turn:
    [|a - b| <= atol + rtol * |b|]. *)
Fixpoint allclose_entries (rtol atol : Q) (a b : list Q) : bool :=
  match a, b with
  | x :: a', y :: b' =>
      Qle_bool (Qabs (x - y)) (atol + rtol * Qabs y)
      && allclose_entries rtol atol a' b'
  | _, _ => true
  end.

(** [jnp.allclose(a, b, rtol=rtol, atol=atol)] on two arrays of one axis:
    an array of size 1 is broadcast to the size of the other; other sizes
    that differ are an error. *)
Definition allclose (rtol atol : Q) (a b : list Q) : M bool :=
  let n := List.length a in
  let m := List.length b in
  if (n =? m)%nat then Ok (allclose_entries rtol atol a b)
  else if (n =? 1)%nat
       then Ok (allclose_entries rtol atol (repeat (hd 0%Q a) m) b)
  else if (m =? 1)%nat
       then Ok (allclose_entries rtol atol a (repeat (hd 0%Q b) n))
  else Raise (ValueError "Incompatible shapes for broadcasting").

(** [jax.tree_util.tree_map(f, pytree1, pytree2)] *)
Fixpoint tree_map2 (f : list Q -> list Q -> M bool) (t1 t2 : pytree)
  : M (list bool) :=
  match t1, t2 with
  | [], [] => Ok []
  | x :: t1', y :: t2' =>
      z <- f x y ;; zs <- tree_map2 f t1' t2' ;; Ok (z :: zs)
  | _, _ => Raise (ValueError "Tuple arity mismatch")
  end.

(** The inner function [assert_allclose] of [_test_gradient]; the message
    of its assertion also prints the two pytrees. *)
Definition assert_allclose (rtol atol : Q) (pytree1 pytree2 : pytree)
  : M unit :=
  (* assert two pytrees are equal *)
  let f := allclose rtol atol in
  allclose_tree <- tree_map2 f pytree1 pytree2 ;;
  (* reduce the tree to a single boolean value *)
  let all_true := fold_left (fun x y => x && y) allclose_tree true in
  if all_true then Ok tt
  else Raise (AssertionError "Pytrees are not close enough").

Section Tester.

(** The types of the parameters of a system, of its states, of the result
    of a run, and of the solver, gradient and options handed to it. *)
Variables Params State Result Solver Gradient Options : Type.

(** What the routine asks of a [System]. *)
Record System : Type := mk_System {
  run : Solver -> Gradient -> Options -> Params -> Result;
  loss_state : State -> Q;
  loss_expect : list Q -> list Q;
  grads_state : Q -> pytree;
  grads_expect : Q -> pytree;
  tsave : list Q;
  params_default : Params
}.

(** [res.ysave[-1]] and [res.Esave[:, -1]]. *)
Variable ysave_last : Result -> State.
Variable Esave_last : Result -> list Q.

(** [jax.grad(f)(params)] and [jax.jacrev(f)(params)], as pytrees. *)
Variable jax_grad : (Params -> Q) -> Params -> pytree.
Variable jax_jacrev : (Params -> list Q) -> Params -> pytree.

(** [system.tsave[-1]] *)
Definition tsave_last (system : System) : M Q :=
  match rev (tsave system) with
  | t :: _ => Ok t
  | [] => Raise (IndexError "index is out of bounds for axis 0 with size 0")
  end.

(** [SolverTester._test_gradient]; the calls to [logging.warning] have no
    part in its outcome.  The runs of the system, its analytic gradients
    and the gradients of [jax] are taken to return: an exception raised
    inside one of them is not modelled. *)
Definition _test_gradient (system : System) (solver : Solver)
  (gradient : Gradient) (options : Options) (rtol atol : Q) : M unit :=
  (* === test gradients depending on final ysave *)
  let loss_ysave params :=
    let res := run system solver gradient options params in
    loss_state system (ysave_last res) in
  t_end <- tsave_last system ;;
  let true_grads_ysave := grads_state system t_end in
  let grads_ysave := jax_grad loss_ysave (params_default system) in
  assert_allclose rtol atol true_grads_ysave grads_ysave ;;;
  (* === test gradients depending on final Esave *)
  let loss_Esave params :=
    let res := run system solver gradient options params in
    loss_expect system (Esave_last res) in
  t_end' <- tsave_last system ;;
  let true_grads_Esave := grads_expect system t_end' in
  let grads_Esave := jax_jacrev loss_Esave (params_default system) in
  assert_allclose rtol atol true_grads_ysave grads_ysave.

(** The comparison the second assertion is announced to make. *)
Definition expectation_gradients_check (system : System) (solver : Solver)
  (gradient : Gradient) (options : Options) (rtol atol : Q) : M unit :=
  let loss_Esave params :=
    let res := run system solver gradient options params in
    loss_expect system (Esave_last res) in
  t_end <- tsave_last system ;;
  assert_allclose rtol atol (grads_expect system t_end)
                  (jax_jacrev loss_Esave (params_default system)).

(** The outcome of [_test_gradient] is that of its first comparison: the
    analytic and the computed gradients of the expectation values are
    computed and never compared. *)
Lemma test_gradient_is_state_check (system : System) (solver : Solver)
  (gradient : Gradient) (options : Options) (rtol atol : Q) :
  _test_gradient system solver gradient options rtol atol
  = (t_end <- tsave_last system ;;
     assert_allclose rtol atol (grads_state system t_end)
       (jax_grad
          (fun params =>
             loss_state system
               (ysave_last (run system solver gradient options params)))
          (params_default system))).
Proof.
  unfold _test_gradient.
  destruct (tsave_last system) as [t|e]; [|reflexivity].
  cbn [bind].
  destruct (assert_allclose rtol atol _ _) as [[]|e]; reflexivity.
Qed.

End Tester.

(** A system with one parameter whose state gradient is computed right
    ([1] against the analytic [1]) and whose expectation gradient is
    computed wrong ([100] against the analytic [2]). *)
Definition wrong_expectation_system : System Q Q Q unit unit unit :=
  {| run := fun _ _ _ params => params;
     loss_state := fun y => y;
     loss_expect := fun E => E;
     grads_state := fun _ => [[1%Q]];
     grads_expect := fun _ => [[2%Q]];
     tsave := [0%Q; 1%Q];
     params_default := 0%Q |}.

(** C8.  Two comparisons are meant, the second one of the gradients of
    the expectation values.  On a system whose state
    gradients agree and whose expectation gradients differ ([100] computed,
    [2] analytic), [_test_gradient] passes, although the comparison of the
    expectation gradients fails: the second assertion repeats the first. *)
Theorem test_gradient_misses_expectation_gradients :
  _test_gradient Q Q Q unit unit unit (fun r => r) (fun r => [r])
    (fun _ _ => [[1%Q]]) (fun _ _ => [[100%Q]])
    wrong_expectation_system tt tt tt 1e-3%Q 1e-5%Q
  = Ok tt
  /\ expectation_gradients_check Q Q Q unit unit unit (fun r => [r])
       (fun _ _ => [[100%Q]])
       wrong_expectation_system tt tt tt 1e-3%Q 1e-5%Q
     = Raise (AssertionError "Pytrees are not close enough").
Proof.
  split.
  - rewrite test_gradient_is_state_check. vm_compute. reflexivity.
  - vm_compute. reflexivity.
Qed.

End SolverTester.

(* ===================================================================== *)
(** ** Time arrays: the algebra exercised by tests/test_time_tensor.py *)
(* ===================================================================== *)

Module TimeArray.
Import Py.
Local Open Scope nat_scope.

(** The shape two shapes broadcast to, if any: trailing axes are aligned;
    two sizes agree when they are equal or one of them is 1. *)
Definition bshape (s t : list nat) : option (list nat) :=
  option_map (@rev nat) (Jax.broadcast_rev (rev s) (rev t)).

(** The shape [s] broadcasts to the shape [t]. *)
Definition fits (s t : list nat) : Prop :=
  Jax.broadcastable_rev (rev s) (rev t) = true.

(** The index an array of shape [s] is read at for the index [idx] of the
    shape it is broadcast to. *)
Definition src (s idx : list nat) : list nat :=
  rev (Jax.source_index_rev (rev s) (rev idx)).

(** An index within a shape. *)
Definition in_range (idx s : list nat) : Prop := Forall2 lt idx s.

(** The last two axes exchanged. *)
Definition swap_first2 {A : Type} (l : list A) : list A :=
  match l with
  | x :: y :: r => y :: x :: r
  | _ => l
  end.

Definition swap_last2 {A : Type} (l : list A) : list A :=
  rev (swap_first2 (rev l)).

Section Algebra.

(** The entries of arrays: a commutative ring with a conjugation (the
    complex numbers of the library). *)
Variable C : Type.
Variables c0 c1 : C.
Variables cadd cmul csub : C -> C -> C.
Variables copp conj : C -> C.
Hypothesis C_ring : ring_theory c0 c1 cadd cmul csub copp (@eq C).
Hypothesis conj_add : forall a b, conj (cadd a b) = cadd (conj a) (conj b).
Hypothesis conj_mul : forall a b, conj (cmul a b) = cmul (conj a) (conj b).
Hypothesis conj_zero : conj c0 = c0.

(** Times, with their order. *)
Variable T : Type.
Variable Tleb : T -> T -> bool.

Local Abbreviation array := (Jax.array C).

(** An elementwise operation of [jax.numpy] on two arrays: the operands
    are broadcast to a common shape; shapes that do not broadcast are a
    [TypeError]. *)
Definition broadcast2 (name : string) (op : C -> C -> C) (a b : array)
  : M array :=
  match bshape (Jax.shape a) (Jax.shape b) with
  | Some s =>
      Ok (Jax.mk_array C s
            (fun idx => op (Jax.at_ a (src (Jax.shape a) idx))
                           (Jax.at_ b (src (Jax.shape b) idx))))
  | None =>
      Raise (TypeError (name ++ " got incompatible shapes for broadcasting"))
  end.

(** [a + b] and [a * b] *)
Definition arr_add : array -> array -> M array := broadcast2 "add" cadd.
Definition arr_mul : array -> array -> M array := broadcast2 "mul" cmul.

(** [-a] *)
Definition arr_neg (a : array) : array :=
  Jax.mk_array C (Jax.shape a) (fun idx => copp (Jax.at_ a idx)).

(** [w * a] for a number [w] that weighs the array [a]. *)
Definition arr_scale_l (w : C) (a : array) : array :=
  Jax.mk_array C (Jax.shape a) (fun idx => cmul w (Jax.at_ a idx)).

Definition zeros (s : list nat) : array :=
  Jax.mk_array C s (fun _ => c0).

(** [a.mH]: the conjugate transpose of a stack of matrices; the properties
    below use it on arrays of at least two axes. *)
Definition arr_mH (a : array) : array :=
  Jax.mk_array C (swap_last2 (Jax.shape a))
    (fun idx => conj (Jax.at_ a (swap_last2 idx))).

(** What a time array is multiplied by: a number or an array.  A number
    is multiplied as an array without axes. *)
Inductive multiplier : Type :=
| Number (c : C)
| Array (a : array).

Definition as_array (y : multiplier) : array :=
  match y with
  | Number c => Jax.mk_array C [] (fun _ => c)
  | Array b => b
  end.

(** [_PWCFactor(times, values)]: the value on the interval that holds [t],
    zero outside all of them. *)
Record PWCFactor : Type := mk_PWCFactor {
  times : list T;
  values : list C
}.

Fixpoint pwc_value (ts : list T) (vs : list C) (t : T) : C :=
  match ts, vs with
  | t0 :: ((t1 :: _) as rest), v :: vs' =>
      if Tleb t0 t && negb (Tleb t1 t) then v else pwc_value rest vs' t
  | _, _ => c0
  end.

Definition pwc_call (f : PWCFactor) (t : T) : C :=
  pwc_value (times f) (values f) t.

Definition pwc_conj (f : PWCFactor) : PWCFactor :=
  mk_PWCFactor (times f) (map conj (values f)).

(** [_ModulatedFactor(f, f0)]: a function of time, kept with its value at
    time zero. *)
Record ModulatedFactor : Type := mk_ModulatedFactor {
  eps : T -> C;
  eps0 : C
}.

Definition modulated_conj (f : ModulatedFactor) : ModulatedFactor :=
  mk_ModulatedFactor (fun t => conj (eps f t)) (conj (eps0 f)).

(** Modelled from the spec: the time arrays of [dynamiqs/time_array.py],
    which is not among the sources: a function from time to an array,
    with a declared shape, under [+], [*], negation and adjoint.  The
    classes and what their operations keep are those of the tests: a
    constant array; a function with its value at time zero; arrays
    weighted by piecewise-constant factors, plus a static array; arrays
    weighted by functions of time, plus a static array.  The stack of the
    weighted arrays is kept as the list of its slices.  The tests add time
    arrays of one class only; the sum of two time arrays of different
    classes, which the specification allows, is kept as the pair of its
    terms.  The operations [call], [shape_of], [neg], [mul], [rmul],
    [adjoint], [add] and [radd] below are modelled likewise, from the
    specification and from what the tests check. *)
Inductive TimeArray : Type :=
| ConstantTimeArray (x : array)
| CallableTimeArray (f : T -> M array) (f0 : array)
| PWCTimeArray (factors : list PWCFactor) (arrays : list array)
               (static : array)
| ModulatedTimeArray (factors : list ModulatedFactor) (arrays : list array)
                     (static : array)
| SummedTimeArray (x y : TimeArray).

(** [sum(w * a for w, a in zip(ws, arrays)) + static] *)
Definition weighted_sum (ws : list C) (arrays : list array)
  (static : array) : M array :=
  fold_right (fun wa acc => r <- acc ;; arr_add (arr_scale_l (fst wa) (snd wa)) r)
             (Ok static) (combine ws arrays).

(** [x(t)] *)
Fixpoint call (x : TimeArray) (t : T) : M array :=
  match x with
  | ConstantTimeArray x => Ok x
  | CallableTimeArray f _ => f t
  | PWCTimeArray factors arrays static =>
      weighted_sum (map (fun f => pwc_call f t) factors) arrays static
  | ModulatedTimeArray factors arrays static =>
      weighted_sum (map (fun f => eps f t) factors) arrays static
  | SummedTimeArray x y =>
      a <- call x t ;; b <- call y t ;; arr_add a b
  end.

(** The declared shape. *)
Fixpoint shape_of (x : TimeArray) : list nat :=
  match x with
  | ConstantTimeArray x => Jax.shape x
  | CallableTimeArray _ f0 => Jax.shape f0
  | PWCTimeArray _ _ static => Jax.shape static
  | ModulatedTimeArray _ _ static => Jax.shape static
  | SummedTimeArray x y =>
      match bshape (shape_of x) (shape_of y) with
      | Some s => s
      | None => []
      end
  end.

(** [-x] *)
Fixpoint neg (x : TimeArray) : TimeArray :=
  match x with
  | ConstantTimeArray x => ConstantTimeArray (arr_neg x)
  | CallableTimeArray f f0 =>
      CallableTimeArray (fun t => a <- f t ;; Ok (arr_neg a)) (arr_neg f0)
  | PWCTimeArray factors arrays static =>
      PWCTimeArray factors (map arr_neg arrays) (arr_neg static)
  | ModulatedTimeArray factors arrays static =>
      ModulatedTimeArray factors (map arr_neg arrays) (arr_neg static)
  | SummedTimeArray x y => SummedTimeArray (neg x) (neg y)
  end.

(** [x * y] *)
Fixpoint mul (x : TimeArray) (y : multiplier) : M TimeArray :=
  let c := as_array y in
  match x with
  | ConstantTimeArray x =>
      x' <- arr_mul x c ;; Ok (ConstantTimeArray x')
  | CallableTimeArray f f0 =>
      f0' <- arr_mul f0 c ;;
      Ok (CallableTimeArray (fun t => a <- f t ;; arr_mul a c) f0')
  | PWCTimeArray factors arrays static =>
      arrays' <- map_m (fun a => arr_mul a c) arrays ;;
      static' <- arr_mul static c ;;
      Ok (PWCTimeArray factors arrays' static')
  | ModulatedTimeArray factors arrays static =>
      arrays' <- map_m (fun a => arr_mul a c) arrays ;;
      static' <- arr_mul static c ;;
      Ok (ModulatedTimeArray factors arrays' static')
  | SummedTimeArray x1 x2 =>
      x1' <- mul x1 y ;; x2' <- mul x2 y ;; Ok (SummedTimeArray x1' x2')
  end.

(** [y * x]: [__rmul__] is [__mul__]. *)
Definition rmul (y : multiplier) (x : TimeArray) : M TimeArray := mul x y.

(** [x.adjoint()] *)
Fixpoint adjoint (x : TimeArray) : TimeArray :=
  match x with
  | ConstantTimeArray x => ConstantTimeArray (arr_mH x)
  | CallableTimeArray f f0 =>
      CallableTimeArray (fun t => a <- f t ;; Ok (arr_mH a)) (arr_mH f0)
  | PWCTimeArray factors arrays static =>
      PWCTimeArray (map pwc_conj factors) (map arr_mH arrays)
                   (arr_mH static)
  | ModulatedTimeArray factors arrays static =>
      ModulatedTimeArray (map modulated_conj factors) (map arr_mH arrays)
                         (arr_mH static)
  | SummedTimeArray x y => SummedTimeArray (adjoint x) (adjoint y)
  end.

(** What a time array is added to: an array or a time array. *)
Inductive summand : Type :=
| AnArray (a : array)
| ATimeArray (y : TimeArray).

Definition summand_shape (y : summand) : list nat :=
  match y with
  | AnArray a => Jax.shape a
  | ATimeArray y => shape_of y
  end.

(** The sum of two terms kept as they are, once their shapes broadcast. *)
Definition summed (x y : TimeArray) : M TimeArray :=
  match bshape (shape_of x) (shape_of y) with
  | Some _ => Ok (SummedTimeArray x y)
  | None => Raise (TypeError "add got incompatible shapes for broadcasting")
  end.

(** [x + y]: an array joins the constant part; a time array of the same
    class is merged; terms of different classes are kept as a sum. *)
Definition add (x : TimeArray) (y : summand) : M TimeArray :=
  match x, y with
  | ConstantTimeArray x, AnArray y =>
      x' <- arr_add x y ;; Ok (ConstantTimeArray x')
  | ConstantTimeArray x, ATimeArray (ConstantTimeArray y) =>
      x' <- arr_add x y ;; Ok (ConstantTimeArray x')
  | CallableTimeArray f f0, AnArray y =>
      f0' <- arr_add f0 y ;;
      Ok (CallableTimeArray (fun t => a <- f t ;; arr_add a y) f0')
  | CallableTimeArray f f0, ATimeArray (CallableTimeArray g g0) =>
      f0' <- arr_add f0 g0 ;;
      Ok (CallableTimeArray
            (fun t => a <- f t ;; b <- g t ;; arr_add a b) f0')
  | PWCTimeArray fs arrays static, AnArray y =>
      static' <- arr_add static y ;; Ok (PWCTimeArray fs arrays static')
  | PWCTimeArray fs arrays static,
    ATimeArray (PWCTimeArray fs' arrays' static') =>
      static'' <- arr_add static static' ;;
      Ok (PWCTimeArray (fs ++ fs')%list (arrays ++ arrays')%list static'')
  | ModulatedTimeArray fs arrays static, AnArray y =>
      static' <- arr_add static y ;; Ok (ModulatedTimeArray fs arrays static')
  | ModulatedTimeArray fs arrays static,
    ATimeArray (ModulatedTimeArray fs' arrays' static') =>
      static'' <- arr_add static static' ;;
      Ok (ModulatedTimeArray (fs ++ fs')%list (arrays ++ arrays')%list
                             static'')
  | SummedTimeArray _ _, AnArray y => summed x (ConstantTimeArray y)
  | _, ATimeArray y => summed x y
  end.

(** [y + x] for an array [y]: [__radd__] is [__add__]. *)
Definition radd (y : array) (x : TimeArray) : M TimeArray :=
  add x (AnArray y).

(** [y(t)] for a summand. *)
Definition call_summand (y : summand) (t : T) : M array :=
  match y with
  | AnArray a => Ok a
  | ATimeArray y => call y t
  end.

(** A time array is well formed when what it holds broadcasts to its
    declared shape: the function of a [CallableTimeArray] returns arrays
    shaped like its value at time zero; the weighted arrays are as many as
    their factors and broadcast to the shape of the static array; the
    terms of a sum are well formed and their shapes broadcast. *)
Fixpoint well_formed (x : TimeArray) : Prop :=
  match x with
  | ConstantTimeArray _ => True
  | CallableTimeArray f f0 =>
      forall t, exists a, f t = Ok a /\ Jax.shape a = Jax.shape f0
  | PWCTimeArray factors arrays static =>
      List.length factors = List.length arrays
      /\ Forall (fun a => fits (Jax.shape a) (Jax.shape static)) arrays
  | ModulatedTimeArray factors arrays static =>
      List.length factors = List.length arrays
      /\ Forall (fun a => fits (Jax.shape a) (Jax.shape static)) arrays
  | SummedTimeArray x y =>
      well_formed x /\ well_formed y
      /\ exists s, bshape (shape_of x) (shape_of y) = Some s
  end.

Definition well_formed_summand (y : summand) : Prop :=
  match y with
  | AnArray _ => True
  | ATimeArray y => well_formed y
  end.

(** A time array of matrices: every array it holds has at least two
    axes. *)
Fixpoint matrices (x : TimeArray) : Prop :=
  match x with
  | ConstantTimeArray x => 2 <= Jax.ndim x
  | CallableTimeArray _ f0 => 2 <= Jax.ndim f0
  | PWCTimeArray _ arrays static =>
      Forall (fun a => 2 <= Jax.ndim a) arrays /\ 2 <= Jax.ndim static
  | ModulatedTimeArray _ arrays static =>
      Forall (fun a => 2 <= Jax.ndim a) arrays /\ 2 <= Jax.ndim static
  | SummedTimeArray x y => matrices x /\ matrices y
  end.

(** Two arrays are equal: same shape, same entries. *)
Definition arr_eq (a b : array) : Prop :=
  Jax.shape a = Jax.shape b
  /\ forall idx, in_range idx (Jax.shape a) -> Jax.at_ a idx = Jax.at_ b idx.

(** The entry of a weighted sum of arrays at an index of a shape they
    broadcast to. *)
Definition dot (ws : list C) (arrays : list array) (idx : list nat) : C :=
  fold_right
    (fun wa acc =>
       cadd (cmul (fst wa)
                  (Jax.at_ (snd wa) (src (Jax.shape (snd wa)) idx)))
            acc)
    c0 (combine ws arrays).

(** The entry of [x(t)] at an index. *)
Fixpoint value (x : TimeArray) (t : T) (idx : list nat) : C :=
  match x with
  | ConstantTimeArray x => Jax.at_ x idx
  | CallableTimeArray f _ =>
      match f t with
      | Ok a => Jax.at_ a idx
      | Raise _ => c0
      end
  | PWCTimeArray factors arrays static =>
      cadd (dot (map (fun f => pwc_call f t) factors) arrays idx)
           (Jax.at_ static idx)
  | ModulatedTimeArray factors arrays static =>
      cadd (dot (map (fun f => eps f t) factors) arrays idx)
           (Jax.at_ static idx)
  | SummedTimeArray x y =>
      cadd (value x t (src (shape_of x) idx))
           (value y t (src (shape_of y) idx))
  end.

Definition value_summand (y : summand) (t : T) (idx : list nat) : C :=
  match y with
  | AnArray a => Jax.at_ a idx
  | ATimeArray y => value y t idx
  end.

(** *** Properties of broadcasting *)

Lemma Forall2_rev {A B : Type} (R : A -> B -> Prop) (l : list A)
  (l' : list B) :
  Forall2 R l l' -> Forall2 R (rev l) (rev l').
Proof.
  induction 1 as [|x y l l' Hxy _ IH]; [constructor|].
  cbn [rev]. apply Forall2_app; [exact IH|]. now repeat constructor.
Qed.

Lemma eq_or_one (a c : nat) :
  (a =? c) || (a =? 1) = true <-> a = c \/ a = 1.
Proof. rewrite orb_true_iff, !Nat.eqb_eq. reflexivity. Qed.

Lemma broadcastable_rev_antisym (s t : list nat) :
  Jax.broadcastable_rev s t = true -> Jax.broadcastable_rev t s = true ->
  s = t.
Proof.
  revert t. induction s as [|a s IH]; intros [|b t]; cbn; try discriminate;
    [reflexivity|].
  intros Hst Hts.
  apply andb_true_iff in Hst. destruct Hst as [Hab Hst].
  apply andb_true_iff in Hts. destruct Hts as [Hba Hts].
  f_equal; [|now apply IH].
  apply eq_or_one in Hab. apply eq_or_one in Hba.
  destruct Hab, Hba; congruence.
Qed.

Lemma broadcast_rev_lub (s t u : list nat) :
  Jax.broadcastable_rev s u = true -> Jax.broadcastable_rev t u = true ->
  exists r, Jax.broadcast_rev s t = Some r
            /\ Jax.broadcastable_rev r u = true.
Proof.
  revert t u. induction s as [|a s IH]; intros t u Hs Ht.
  - exists t. now split.
  - destruct t as [|b t].
    + exists (a :: s). now split.
    + destruct u as [|c u]; [discriminate|]. cbn in Hs, Ht.
      apply andb_true_iff in Hs. destruct Hs as [Hac Hs].
      apply andb_true_iff in Ht. destruct Ht as [Hbc Ht].
      destruct (IH t u Hs Ht) as (r & Hr & Hru).
      cbn [Jax.broadcast_rev]. rewrite Hr.
      apply eq_or_one in Hac. apply eq_or_one in Hbc.
      assert (Hgoal : forall x, x = c \/ x = 1 ->
                Jax.broadcastable_rev (x :: r) (c :: u) = true).
      { intros x Hx. cbn. rewrite Hru, andb_true_r. now apply eq_or_one. }
      destruct (Nat.eqb_spec a b) as [Hab|Hab];
        [eexists; split; [reflexivity|now apply Hgoal]|].
      destruct (Nat.eqb_spec a 1) as [Ha|Ha];
        [eexists; split; [reflexivity|now apply Hgoal]|].
      destruct (Nat.eqb_spec b 1) as [Hb|Hb];
        [eexists; split; [reflexivity|now apply Hgoal]|].
      exfalso. destruct Hac, Hbc; congruence.
Qed.

Lemma source_index_rev_compose (s s' idx : list nat) :
  Jax.broadcastable_rev s s' = true ->
  Jax.source_index_rev s (Jax.source_index_rev s' idx)
  = Jax.source_index_rev s idx.
Proof.
  revert s' idx. induction s as [|a s IH]; intros [|b s'] idx Hs;
    try reflexivity; try discriminate.
  cbn in Hs. apply andb_true_iff in Hs. destruct Hs as [Hab Hs].
  apply eq_or_one in Hab.
  destruct idx as [|i idx]; cbn [Jax.source_index_rev].
  - rewrite (IH s' [] Hs). now destruct (a =? 1).
  - rewrite (IH s' idx Hs). f_equal.
    destruct (Nat.eqb_spec a 1) as [Ha|Ha]; [reflexivity|].
    destruct Hab as [Hab|Hab]; [|contradiction].
    subst b. now destruct (Nat.eqb_spec a 1).
Qed.

Lemma source_index_rev_in_range (s t idx : list nat) :
  Jax.broadcastable_rev s t = true ->
  Forall2 lt idx t -> Forall2 lt (Jax.source_index_rev s idx) s.
Proof.
  revert t idx. induction s as [|a s IH]; intros t idx Hs Hidx;
    [constructor|].
  destruct t as [|b t]; [discriminate|].
  inversion Hidx as [|i b' idx' t' Hi Hidx']; subst.
  cbn in Hs. apply andb_true_iff in Hs. destruct Hs as [Hab Hs].
  cbn [Jax.source_index_rev]. constructor; [|exact (IH t idx' Hs Hidx')].
  apply eq_or_one in Hab.
  destruct (Nat.eqb_spec a 1) as [Ha|Ha]; [lia|].
  destruct Hab as [Hab|Hab]; [lia|contradiction].
Qed.

Lemma source_index_rev_id (s idx : list nat) :
  Forall2 lt idx s -> Jax.source_index_rev s idx = idx.
Proof.
  induction 1 as [|i a idx s Hi _ IH]; [reflexivity|].
  cbn [Jax.source_index_rev]. rewrite IH. f_equal.
  destruct (Nat.eqb_spec a 1); [lia|reflexivity].
Qed.

Lemma fits_refl (s : list nat) : fits s s.
Proof. apply Jax.broadcastable_rev_refl. Qed.

Lemma fits_trans (s t u : list nat) : fits s t -> fits t u -> fits s u.
Proof. apply Jax.broadcastable_rev_trans. Qed.

Lemma fits_antisym (s t : list nat) : fits s t -> fits t s -> s = t.
Proof.
  intros Hst Hts. rewrite <- (rev_involutive s), <- (rev_involutive t).
  f_equal. now apply broadcastable_rev_antisym.
Qed.

Lemma fits_nil (s : list nat) : fits [] s.
Proof. reflexivity. Qed.

(** The shape two shapes broadcast to is the least one both fit. *)
Lemma bshape_fits (s t r : list nat) :
  bshape s t = Some r -> fits s r /\ fits t r.
Proof.
  unfold bshape, fits.
  destruct (Jax.broadcast_rev (rev s) (rev t)) as [r'|] eqn:Hr;
    [|discriminate].
  intros [= <-]. rewrite rev_involutive.
  exact (Jax.broadcast_rev_broadcastable _ _ _ Hr).
Qed.

Lemma bshape_lub (s t u : list nat) :
  fits s u -> fits t u -> exists r, bshape s t = Some r /\ fits r u.
Proof.
  unfold bshape, fits. intros Hs Ht.
  destruct (broadcast_rev_lub _ _ _ Hs Ht) as (r & Hr & Hru).
  exists (rev r). rewrite Hr, rev_involutive. now split.
Qed.

Lemma fits_bshape (s t : list nat) : fits s t -> bshape s t = Some t.
Proof.
  intros Hst.
  destruct (bshape_lub s t t Hst (fits_refl t)) as (r & Hr & Hrt).
  rewrite Hr. f_equal. apply fits_antisym; [exact Hrt|].
  exact (proj2 (bshape_fits _ _ _ Hr)).
Qed.

Lemma bshape_comm (s t : list nat) : bshape s t = bshape t s.
Proof.
  destruct (bshape s t) as [r|] eqn:Hst, (bshape t s) as [r'|] eqn:Hts;
    try reflexivity.
  - destruct (bshape_fits _ _ _ Hst) as [H1 H2].
    destruct (bshape_fits _ _ _ Hts) as [H3 H4].
    destruct (bshape_lub s t r' H4 H3) as (q & Hq & Hqr').
    destruct (bshape_lub t s r H2 H1) as (q' & Hq' & Hq'r).
    rewrite Hst in Hq. injection Hq as <-.
    rewrite Hts in Hq'. injection Hq' as <-.
    f_equal. now apply fits_antisym.
  - destruct (bshape_fits _ _ _ Hst) as [H1 H2].
    destruct (bshape_lub t s r H2 H1) as (q & Hq & _).
    rewrite Hts in Hq. discriminate.
  - destruct (bshape_fits _ _ _ Hts) as [H1 H2].
    destruct (bshape_lub s t r' H2 H1) as (q & Hq & _).
    rewrite Hst in Hq. discriminate.
Qed.

(** Broadcasting three shapes, whatever the grouping. *)
Lemma bshape_both (s t c st r : list nat) :
  bshape s t = Some st -> bshape st c = Some r ->
  exists sc tc,
    bshape s c = Some sc /\ bshape t c = Some tc /\ bshape sc tc = Some r.
Proof.
  intros Hst Hr.
  destruct (bshape_fits _ _ _ Hst) as [Hs Ht].
  destruct (bshape_fits _ _ _ Hr) as [Hstr Hc].
  destruct (bshape_lub s c r (fits_trans _ _ _ Hs Hstr) Hc)
    as (sc & Hsc & Hscr).
  destruct (bshape_lub t c r (fits_trans _ _ _ Ht Hstr) Hc)
    as (tc & Htc & Htcr).
  destruct (bshape_lub sc tc r Hscr Htcr) as (q & Hq & Hqr).
  exists sc, tc. split; [exact Hsc|]. split; [exact Htc|].
  rewrite Hq. f_equal. apply fits_antisym; [exact Hqr|].
  destruct (bshape_fits _ _ _ Hsc) as [Hs' Hc'].
  destruct (bshape_fits _ _ _ Htc) as [Ht' _].
  destruct (bshape_fits _ _ _ Hq) as [Hscq Htcq].
  destruct (bshape_lub s t q (fits_trans _ _ _ Hs' Hscq)
                             (fits_trans _ _ _ Ht' Htcq))
    as (st' & Hst' & Hst'q).
  rewrite Hst in Hst'. injection Hst' as <-.
  destruct (bshape_lub st c q Hst'q (fits_trans _ _ _ Hc' Hscq))
    as (r' & Hr' & Hr'q).
  rewrite Hr in Hr'. injection Hr' as <-. exact Hr'q.
Qed.

Lemma src_compose (s s' idx : list nat) :
  fits s s' -> src s (src s' idx) = src s idx.
Proof.
  intros Hs. unfold src. rewrite rev_involutive.
  now rewrite source_index_rev_compose.
Qed.

Lemma src_in_range (s t idx : list nat) :
  fits s t -> in_range idx t -> in_range (src s idx) s.
Proof.
  intros Hs Hidx. unfold src, in_range.
  rewrite <- (rev_involutive s) at 2. apply Forall2_rev.
  exact (source_index_rev_in_range _ _ _ Hs (Forall2_rev _ _ _ Hidx)).
Qed.

Lemma src_id (s idx : list nat) : in_range idx s -> src s idx = idx.
Proof.
  intros Hidx. unfold src.
  rewrite (source_index_rev_id _ _ (Forall2_rev _ _ _ Hidx)).
  apply rev_involutive.
Qed.

Lemma swap_last2_length {A : Type} (l : list A) :
  List.length (swap_last2 l) = List.length l.
Proof.
  unfold swap_last2. rewrite length_rev, <- (length_rev l).
  now destruct (rev l) as [|x [|y r]].
Qed.

Lemma swap_last2_involutive {A : Type} (l : list A) :
  swap_last2 (swap_last2 l) = l.
Proof.
  unfold swap_last2. rewrite rev_involutive.
  rewrite <- (rev_involutive l) at 2.
  now destruct (rev l) as [|x [|y r]].
Qed.

Lemma fits_swap (s t : list nat) :
  2 <= List.length s -> fits s t -> fits (swap_last2 s) (swap_last2 t).
Proof.
  unfold fits, swap_last2. rewrite !rev_involutive, <- (length_rev s).
  destruct (rev s) as [|a [|b s']]; cbn [List.length]; try lia.
  intros _. destruct (rev t) as [|a' [|b' t']]; cbn; try discriminate;
    try (now rewrite andb_false_r).
  intros H. apply andb_true_iff in H. destruct H as [Ha H].
  apply andb_true_iff in H. destruct H as [Hb H].
  now rewrite Ha, Hb, H.
Qed.

Lemma in_range_swap (idx s : list nat) :
  in_range idx s -> in_range (swap_last2 idx) (swap_last2 s).
Proof.
  intros H. unfold in_range, swap_last2. apply Forall2_rev.
  apply Forall2_rev in H.
  destruct H as [|i a idx' s' Hi H]; [constructor|].
  destruct H as [|j b idx'' s'' Hj H]; cbn; repeat constructor; assumption.
Qed.

Lemma src_swap (s idx : list nat) :
  2 <= List.length s -> 2 <= List.length idx ->
  swap_last2 (src (swap_last2 s) idx) = src s (swap_last2 idx).
Proof.
  unfold src, swap_last2. rewrite !rev_involutive.
  rewrite <- (length_rev s), <- (length_rev idx).
  destruct (rev s) as [|a [|b s']]; cbn [List.length]; try lia.
  destruct (rev idx) as [|i [|k idx']]; cbn [List.length]; try lia.
  intros _ _. reflexivity.
Qed.

(** *** Properties of the arrays *)

Add Ring C_ring_instance : C_ring.

Lemma bind_ok_eq {A B : Type} (a : A) (k : A -> M B) : bind (Ok a) k = k a.
Proof. reflexivity. Qed.

Lemma src_length (s idx : list nat) : List.length (src s idx) = List.length s.
Proof.
  unfold src. rewrite length_rev, <- (length_rev s).
  generalize (rev idx). induction (rev s) as [|a l IH]; intros [|i l'];
    cbn; auto.
Qed.

Lemma fits_length (s t : list nat) :
  fits s t -> List.length s <= List.length t.
Proof.
  unfold fits. rewrite <- (length_rev s), <- (length_rev t).
  generalize (rev t). induction (rev s) as [|a l IH]; intros [|b l'];
    cbn; try discriminate; try lia.
  intros H. apply andb_true_iff in H. destruct H as [_ H].
  specialize (IH _ H). lia.
Qed.

Lemma in_range_length (idx s : list nat) :
  in_range idx s -> List.length idx = List.length s.
Proof. apply Forall2_length. Qed.

Lemma bshape_swap (s t r : list nat) :
  2 <= List.length s -> 2 <= List.length t ->
  bshape s t = Some r ->
  bshape (swap_last2 s) (swap_last2 t) = Some (swap_last2 r).
Proof.
  intros Hs Ht Hr. destruct (bshape_fits _ _ _ Hr) as [Hsr Htr].
  assert (Hr2 : 2 <= List.length r)
    by (pose proof (fits_length _ _ Hsr); lia).
  destruct (bshape_lub _ _ _ (fits_swap _ _ Hs Hsr) (fits_swap _ _ Ht Htr))
    as (q & Hq & Hqr).
  rewrite Hq. f_equal.
  destruct (bshape_fits _ _ _ Hq) as [Hsq Htq].
  assert (Hq2 : 2 <= List.length q).
  { pose proof (fits_length _ _ Hsq) as H.
    rewrite swap_last2_length in H. lia. }
  apply fits_antisym; [exact Hqr|].
  rewrite <- (swap_last2_involutive q). apply fits_swap; [exact Hr2|].
  apply fits_swap in Hsq, Htq;
    rewrite ?swap_last2_length, ?swap_last2_involutive in *; try assumption.
  destruct (bshape_lub _ _ _ Hsq Htq) as (r' & Hr' & Hr'q).
  rewrite Hr in Hr'. injection Hr' as <-. exact Hr'q.
Qed.

(** Shapes that broadcast in pairs broadcast together. *)
Lemma broadcast_rev_pairwise (s t c st sc tc : list nat) :
  Jax.broadcast_rev s t = Some st ->
  Jax.broadcast_rev s c = Some sc ->
  Jax.broadcast_rev t c = Some tc ->
  exists r, Jax.broadcast_rev st c = Some r.
Proof.
  revert t c st sc tc.
  induction s as [|a s IH]; intros t c st sc tc Hst Hsc Htc.
  - cbn in Hst. injection Hst as <-. eauto.
  - destruct t as [|b t].
    + cbn in Hst. injection Hst as <-. eauto.
    + destruct c as [|d c].
      * destruct st; cbn; eauto.
      * cbn in Hst, Hsc, Htc.
        destruct (Jax.broadcast_rev s t) as [st'|] eqn:Hst';
          [|discriminate].
        destruct (Jax.broadcast_rev s c) as [sc'|] eqn:Hsc';
          [|discriminate].
        destruct (Jax.broadcast_rev t c) as [tc'|] eqn:Htc';
          [|discriminate].
        destruct (IH t c st' sc' tc' Hst' Hsc' Htc') as (r & Hr).
        assert (Hh : exists h, st = h :: st' /\ (h = a \/ h = b)).
        { destruct (a =? b); [injection Hst as <-; eauto|].
          destruct (a =? 1); [injection Hst as <-; eauto|].
          destruct (b =? 1); [injection Hst as <-; eauto|discriminate]. }
        destruct Hh as (h & -> & Hh). cbn. rewrite Hr.
        assert (Had : (a =? d) = true \/ (a =? 1) = true \/ (d =? 1) = true).
        { destruct (a =? d); [auto|]. destruct (a =? 1); [auto|].
          destruct (d =? 1); [auto|discriminate]. }
        assert (Hbd : (b =? d) = true \/ (b =? 1) = true \/ (d =? 1) = true).
        { destruct (b =? d); [auto|]. destruct (b =? 1); [auto|].
          destruct (d =? 1); [auto|discriminate]. }
        assert (Hhd : (h =? d) = true \/ (h =? 1) = true \/ (d =? 1) = true)
          by (destruct Hh; subst h; assumption).
        destruct (h =? d); [eauto|]. destruct (h =? 1); [eauto|].
        destruct (d =? 1); [eauto|].
        destruct Hhd as [|[|]]; discriminate.
Qed.

Lemma bshape_pairwise (s t c st sc tc : list nat) :
  bshape s t = Some st -> bshape s c = Some sc -> bshape t c = Some tc ->
  exists r, bshape st c = Some r.
Proof.
  unfold bshape. intros Hst Hsc Htc.
  destruct (Jax.broadcast_rev (rev s) (rev t)) as [st'|] eqn:Hst';
    [|discriminate].
  destruct (Jax.broadcast_rev (rev s) (rev c)) as [sc'|] eqn:Hsc';
    [|discriminate].
  destruct (Jax.broadcast_rev (rev t) (rev c)) as [tc'|] eqn:Htc';
    [|discriminate].
  injection Hst as <-. rewrite rev_involutive.
  destruct (broadcast_rev_pairwise _ _ _ _ _ _ Hst' Hsc' Htc') as (r & ->).
  cbn. eauto.
Qed.

Lemma arr_eq_refl (a : array) : arr_eq a a.
Proof. now split. Qed.

Lemma broadcast2_ok (name : string) (op : C -> C -> C) (a b : array)
  (s : list nat) :
  bshape (Jax.shape a) (Jax.shape b) = Some s ->
  broadcast2 name op a b
  = Ok (Jax.mk_array C s
          (fun idx => op (Jax.at_ a (src (Jax.shape a) idx))
                         (Jax.at_ b (src (Jax.shape b) idx)))).
Proof. intros H. unfold broadcast2. now rewrite H. Qed.

Lemma broadcast2_raise (name : string) (op : C -> C -> C) (a b : array) :
  bshape (Jax.shape a) (Jax.shape b) = None ->
  exists msg, broadcast2 name op a b = Raise (TypeError msg).
Proof. intros H. unfold broadcast2. rewrite H. eauto. Qed.

Lemma dot_src (ws : list C) (arrays : list array) (s idx : list nat) :
  Forall (fun a => fits (Jax.shape a) s) arrays ->
  dot ws arrays (src s idx) = dot ws arrays idx.
Proof.
  unfold dot. intros Hall. revert ws.
  induction Hall as [|a arrays Ha _ IH]; intros [|w ws]; try reflexivity.
  cbn [combine fold_right fst snd]. now rewrite IH, src_compose.
Qed.

Lemma dot_app (ws ws' : list C) (arrays arrays' : list array)
  (idx : list nat) :
  List.length ws = List.length arrays ->
  dot (ws ++ ws') (arrays ++ arrays') idx
  = cadd (dot ws arrays idx) (dot ws' arrays' idx).
Proof.
  unfold dot. revert arrays.
  induction ws as [|w ws IH]; intros [|a arrays] Hlen; try discriminate.
  - cbn. ring.
  - cbn. rewrite IH by (now injection Hlen). ring.
Qed.

Lemma dot_neg (ws : list C) (arrays : list array) (idx : list nat) :
  dot ws (map arr_neg arrays) idx = copp (dot ws arrays idx).
Proof.
  unfold dot. revert arrays.
  induction ws as [|w ws IH]; intros [|a arrays];
    cbn [map combine fold_right fst snd arr_neg Jax.at_ Jax.shape];
    try ring.
  rewrite IH. ring.
Qed.

Lemma dot_mH (ws : list C) (arrays : list array) (idx : list nat) :
  Forall (fun a => 2 <= Jax.ndim a) arrays ->
  2 <= List.length idx ->
  dot (map conj ws) (map arr_mH arrays) idx
  = conj (dot ws arrays (swap_last2 idx)).
Proof.
  unfold dot. intros Hall Hidx. revert ws.
  induction Hall as [|a arrays Ha _ IH]; intros [|w ws];
    cbn [map combine fold_right fst snd arr_mH Jax.at_ Jax.shape];
    try (now rewrite conj_zero).
  rewrite IH, conj_add, conj_mul.
  now rewrite (src_swap _ _ Ha Hidx).
Qed.

(** The arrays [a * c] for the arrays [a] of a list. *)
Lemma map_mul_ok (arrays : list array) (c : array) (s u : list nat) :
  Forall (fun a => fits (Jax.shape a) s) arrays ->
  bshape s (Jax.shape c) = Some u ->
  exists arrays',
    map_m (fun a => arr_mul a c) arrays = Ok arrays'
    /\ List.length arrays' = List.length arrays
    /\ Forall (fun a => fits (Jax.shape a) u) arrays'
    /\ forall ws idx,
         dot ws arrays' idx
         = cmul (dot ws arrays idx) (Jax.at_ c (src (Jax.shape c) idx)).
Proof.
  intros Hall Hu. destruct (bshape_fits _ _ _ Hu) as [Hsu Hcu].
  induction Hall as [|a arrays Ha _ (arrays' & Hm & Hlen & Hfit & Hdot)].
  - exists []. repeat split; try constructor.
    intros ws idx. unfold dot. destruct ws; cbn; ring.
  - destruct (bshape_lub _ _ _ (fits_trans _ _ _ Ha Hsu) Hcu)
      as (q & Hq & Hqu).
    destruct (bshape_fits _ _ _ Hq) as [Haq Hcq].
    exists (Jax.mk_array C q
              (fun idx => cmul (Jax.at_ a (src (Jax.shape a) idx))
                               (Jax.at_ c (src (Jax.shape c) idx)))
            :: arrays').
    cbn [map_m]. unfold arr_mul at 1.
    rewrite (broadcast2_ok _ _ _ _ _ Hq), bind_ok_eq, Hm, bind_ok_eq.
    split; [reflexivity|]. split; [cbn; now rewrite Hlen|].
    split; [constructor; assumption|].
    intros [|w ws] idx; [unfold dot; cbn; ring|].
    specialize (Hdot ws idx). unfold dot in *.
    cbn [combine fold_right fst snd Jax.at_ Jax.shape].
    rewrite Hdot, !src_compose by assumption. ring.
Qed.

(** The weighted sum of arrays that broadcast to the shape of the static
    array. *)
Lemma weighted_sum_ok (ws : list C) (arrays : list array) (static : array) :
  Forall (fun a => fits (Jax.shape a) (Jax.shape static)) arrays ->
  exists r,
    weighted_sum ws arrays static = Ok r
    /\ Jax.shape r = Jax.shape static
    /\ forall idx, in_range idx (Jax.shape static) ->
                   Jax.at_ r idx
                   = cadd (dot ws arrays idx) (Jax.at_ static idx).
Proof.
  unfold weighted_sum, dot. intros Hall. revert ws.
  induction Hall as [|a arrays Ha _ IH]; intros ws.
  - exists static. destruct ws; cbn; repeat split; intros; ring.
  - destruct ws as [|w ws].
    + exists static. cbn. repeat split; intros; ring.
    + destruct (IH ws) as (r & Hr & Hshape & Hat).
      cbn [combine fold_right fst snd]. rewrite Hr, bind_ok_eq.
      unfold arr_add. rewrite (broadcast2_ok _ _ _ _ (Jax.shape static)).
      * eexists. split; [reflexivity|]. split; [reflexivity|].
        intros idx Hidx. cbn [Jax.at_ Jax.shape arr_scale_l].
        rewrite Hshape, (src_id _ _ Hidx), (Hat idx Hidx). ring.
      * cbn [Jax.shape arr_scale_l]. rewrite Hshape.
        now apply fits_bshape.
Qed.

(** *** Properties of the time arrays *)

Lemma pwc_value_conj (ts : list T) (vs : list C) (t : T) :
  pwc_value ts (map conj vs) t = conj (pwc_value ts vs t).
Proof.
  revert vs. induction ts as [|t0 ts IH]; intros vs.
  - cbn. now rewrite conj_zero.
  - destruct ts as [|t1 ts].
    + cbn. now rewrite conj_zero.
    + destruct vs as [|v vs]; [cbn; now rewrite conj_zero|].
      cbn [map pwc_value].
      destruct (Tleb t0 t && negb (Tleb t1 t)); [reflexivity|apply IH].
Qed.

Lemma pwc_weights_conj (fs : list PWCFactor) (t : T) :
  map (fun f => pwc_call f t) (map pwc_conj fs)
  = map conj (map (fun f => pwc_call f t) fs).
Proof.
  rewrite !map_map. apply map_ext. intros f.
  unfold pwc_call, pwc_conj. cbn. apply pwc_value_conj.
Qed.

Lemma modulated_weights_conj (fs : list ModulatedFactor) (t : T) :
  map (fun f => eps f t) (map modulated_conj fs)
  = map conj (map (fun f => eps f t) fs).
Proof. rewrite !map_map. reflexivity. Qed.

(** A well-formed time array can be called at every time: the array it
    returns has the declared shape, and [value] gives its entries. *)
Lemma call_value (x : TimeArray) (t : T) :
  well_formed x ->
  exists a,
    call x t = Ok a
    /\ Jax.shape a = shape_of x
    /\ forall idx, in_range idx (shape_of x) ->
                   Jax.at_ a idx = value x t idx.
Proof.
  induction x as [a|f f0|fs arrays static|fs arrays static|x IHx y IHy];
    intros Hwf.
  - exists a. cbn. auto.
  - destruct (Hwf t) as (a & Ha & Hs). exists a.
    cbn [call shape_of value]. rewrite Ha. auto.
  - destruct Hwf as [_ Hall]. exact (weighted_sum_ok _ arrays static Hall).
  - destruct Hwf as [_ Hall]. exact (weighted_sum_ok _ arrays static Hall).
  - destruct Hwf as (Hx & Hy & s & Hs).
    destruct (IHx Hx) as (a & Ha & Hsa & Hva).
    destruct (IHy Hy) as (b & Hb & Hsb & Hvb).
    destruct (bshape_fits _ _ _ Hs) as [H1 H2].
    cbn [call shape_of value]. rewrite Ha, Hb. cbn [bind]. rewrite Hs.
    unfold arr_add.
    rewrite (broadcast2_ok _ _ _ _ s) by (now rewrite Hsa, Hsb).
    eexists. split; [reflexivity|]. split; [reflexivity|].
    intros idx Hidx. cbn [Jax.at_]. rewrite Hsa, Hsb.
    now rewrite Hva, Hvb by (eapply src_in_range; eassumption).
Qed.

Lemma call_summand_value (y : summand) (t : T) :
  well_formed_summand y ->
  exists b,
    call_summand y t = Ok b
    /\ Jax.shape b = summand_shape y
    /\ forall idx, in_range idx (summand_shape y) ->
                   Jax.at_ b idx = value_summand y t idx.
Proof.
  destruct y as [b|y]; intros Hy.
  - exists b. cbn. auto.
  - exact (call_value y t Hy).
Qed.

Lemma neg_value (x : TimeArray) :
  well_formed x ->
  well_formed (neg x)
  /\ shape_of (neg x) = shape_of x
  /\ forall t idx, value (neg x) t idx = copp (value x t idx).
Proof.
  induction x as [a|f f0|fs arrays static|fs arrays static|x IHx y IHy];
    intros Hwf.
  - cbn. auto.
  - cbn [neg well_formed shape_of value]. split; [|split; [reflexivity|]].
    + intros t. destruct (Hwf t) as (a & -> & Hs). cbn [bind].
      eexists. split; [reflexivity|]. exact Hs.
    + intros t idx. destruct (Hwf t) as (a & -> & _). reflexivity.
  - destruct Hwf as [Hlen Hall].
    cbn [neg well_formed shape_of value]. split; [|split; [reflexivity|]].
    + split; [now rewrite length_map|]. now apply Forall_map.
    + intros t idx. rewrite dot_neg. cbn [arr_neg Jax.at_]. ring.
  - destruct Hwf as [Hlen Hall].
    cbn [neg well_formed shape_of value]. split; [|split; [reflexivity|]].
    + split; [now rewrite length_map|]. now apply Forall_map.
    + intros t idx. rewrite dot_neg. cbn [arr_neg Jax.at_]. ring.
  - destruct Hwf as (Hx & Hy & s & Hs).
    destruct (IHx Hx) as (Hwx & Hsx & Hvx).
    destruct (IHy Hy) as (Hwy & Hsy & Hvy).
    cbn [neg well_formed shape_of value]. rewrite Hsx, Hsy.
    split; [|split; [reflexivity|]].
    + split; [exact Hwx|]. split; [exact Hwy|]. now exists s.
    + intros t idx. rewrite Hvx, Hvy. ring.
Qed.

Lemma matrices_rank (x : TimeArray) :
  well_formed x -> matrices x -> 2 <= List.length (shape_of x).
Proof.
  induction x as [a|f f0|fs arrays static|fs arrays static|x IHx y IHy];
    intros Hwf Hm; try exact Hm; try exact (proj2 Hm).
  destruct Hwf as (Hx & _ & s & Hs). destruct Hm as [Hmx _].
  cbn [shape_of]. rewrite Hs.
  pose proof (fits_length _ _ (proj1 (bshape_fits _ _ _ Hs))).
  specialize (IHx Hx Hmx). lia.
Qed.

Lemma adjoint_value (x : TimeArray) :
  well_formed x -> matrices x ->
  well_formed (adjoint x)
  /\ shape_of (adjoint x) = swap_last2 (shape_of x)
  /\ forall t idx, 2 <= List.length idx ->
                   value (adjoint x) t idx
                   = conj (value x t (swap_last2 idx)).
Proof.
  induction x as [a|f f0|fs arrays static|fs arrays static|x IHx y IHy];
    intros Hwf Hm.
  - cbn. auto.
  - cbn [adjoint well_formed shape_of value].
    split; [|split; [reflexivity|]].
    + intros t. destruct (Hwf t) as (a & -> & Hs). cbn [bind].
      eexists. split; [reflexivity|]. cbn. now rewrite Hs.
    + intros t idx _. destruct (Hwf t) as (a & -> & _). reflexivity.
  - destruct Hwf as [Hlen Hall]. destruct Hm as [Hma Hms].
    cbn [adjoint well_formed shape_of value].
    split; [|split; [reflexivity|]].
    + split; [now rewrite !length_map|]. apply Forall_map.
      rewrite Forall_forall in *. intros a Ha.
      apply fits_swap; [exact (Hma a Ha) | exact (Hall a Ha)].
    + intros t idx Hidx.
      rewrite pwc_weights_conj, (dot_mH _ _ _ Hma Hidx), conj_add.
      reflexivity.
  - destruct Hwf as [Hlen Hall]. destruct Hm as [Hma Hms].
    cbn [adjoint well_formed shape_of value].
    split; [|split; [reflexivity|]].
    + split; [now rewrite !length_map|]. apply Forall_map.
      rewrite Forall_forall in *. intros a Ha.
      apply fits_swap; [exact (Hma a Ha) | exact (Hall a Ha)].
    + intros t idx Hidx.
      rewrite modulated_weights_conj, (dot_mH _ _ _ Hma Hidx), conj_add.
      reflexivity.
  - pose proof (matrices_rank _ (proj1 Hwf) (proj1 Hm)) as Hrx.
    pose proof (matrices_rank _ (proj1 (proj2 Hwf)) (proj2 Hm)) as Hry.
    destruct Hwf as (Hx & Hy & s & Hs). destruct Hm as [Hmx Hmy].
    destruct (IHx Hx Hmx) as (Hwx & Hsx & Hvx).
    destruct (IHy Hy Hmy) as (Hwy & Hsy & Hvy).
    pose proof (bshape_swap _ _ _ Hrx Hry Hs) as Hs'.
    cbn [adjoint well_formed shape_of value]. rewrite Hsx, Hsy, Hs, Hs'.
    split; [|split; [reflexivity|]].
    + split; [exact Hwx|]. split; [exact Hwy|]. now exists (swap_last2 s).
    + intros t idx Hidx.
      rewrite Hvx, Hvy by (now rewrite src_length, swap_last2_length).
      rewrite !src_swap by assumption. now rewrite conj_add.
Qed.

Lemma mul_value (x : TimeArray) (c : multiplier) :
  forall s,
    well_formed x ->
    bshape (shape_of x) (Jax.shape (as_array c)) = Some s ->
    exists z,
      mul x c = Ok z
      /\ well_formed z
      /\ shape_of z = s
      /\ forall t idx,
           value z t idx
           = cmul (value x t (src (shape_of x) idx))
                  (Jax.at_ (as_array c) (src (Jax.shape (as_array c)) idx)).
Proof.
  induction x as [a|f f0|fs arrays static|fs arrays static|x IHx y IHy];
    intros s Hwf Hs; cbn [shape_of] in Hs.
  - cbn [mul]. unfold arr_mul. rewrite (broadcast2_ok _ _ _ _ _ Hs).
    cbn [bind]. eexists. split; [reflexivity|]. cbn. auto.
  - cbn [mul]. unfold arr_mul at 1. rewrite (broadcast2_ok _ _ _ _ _ Hs).
    cbn [bind]. eexists. split; [reflexivity|].
    cbn [well_formed shape_of value Jax.shape].
    split; [|split; [reflexivity|]].
    + intros t. destruct (Hwf t) as (a & -> & Hsa). cbn [bind].
      unfold arr_mul. rewrite (broadcast2_ok _ _ _ _ s) by (now rewrite Hsa).
      eexists. split; reflexivity.
    + intros t idx. destruct (Hwf t) as (a & -> & Hsa). cbn [bind].
      unfold arr_mul. rewrite (broadcast2_ok _ _ _ _ s) by (now rewrite Hsa).
      cbn [Jax.at_]. now rewrite Hsa.
  - destruct Hwf as [Hlen Hall].
    destruct (map_mul_ok arrays (as_array c) _ _ Hall Hs)
      as (arrays' & Hm & Hlen' & Hfit & Hdot).
    cbn [mul]. rewrite Hm. cbn [bind].
    unfold arr_mul. rewrite (broadcast2_ok _ _ _ _ _ Hs). cbn [bind].
    eexists. split; [reflexivity|].
    cbn [well_formed shape_of value Jax.shape Jax.at_].
    split; [|split; [reflexivity|]].
    + split; [congruence | exact Hfit].
    + intros t idx. rewrite Hdot, (dot_src _ _ _ _ Hall). ring.
  - destruct Hwf as [Hlen Hall].
    destruct (map_mul_ok arrays (as_array c) _ _ Hall Hs)
      as (arrays' & Hm & Hlen' & Hfit & Hdot).
    cbn [mul]. rewrite Hm. cbn [bind].
    unfold arr_mul. rewrite (broadcast2_ok _ _ _ _ _ Hs). cbn [bind].
    eexists. split; [reflexivity|].
    cbn [well_formed shape_of value Jax.shape Jax.at_].
    split; [|split; [reflexivity|]].
    + split; [congruence | exact Hfit].
    + intros t idx. rewrite Hdot, (dot_src _ _ _ _ Hall). ring.
  - destruct Hwf as (Hx & Hy & sxy & Hxy). rewrite Hxy in Hs.
    destruct (bshape_both _ _ _ _ _ Hxy Hs) as (sx & sy & Hsx & Hsy & Hj).
    destruct (IHx sx Hx Hsx) as (x' & Hx' & Hwx & Hshx & Hvx).
    destruct (IHy sy Hy Hsy) as (y' & Hy' & Hwy & Hshy & Hvy).
    destruct (bshape_fits _ _ _ Hxy) as [F1 F2].
    destruct (bshape_fits _ _ _ Hsx) as [F3 F4].
    destruct (bshape_fits _ _ _ Hsy) as [F5 F6].
    cbn [mul]. rewrite Hx', Hy'. cbn [bind].
    eexists. split; [reflexivity|].
    cbn [well_formed shape_of value]. rewrite Hshx, Hshy, Hj, Hxy.
    split; [|split; [reflexivity|]].
    + split; [exact Hwx|]. split; [exact Hwy|]. now exists s.
    + intros t idx. rewrite Hvx, Hvy, !src_compose by assumption. ring.
Qed.

Lemma arr_mul_cases (a c : array) :
  (exists r, arr_mul a c = Ok r)
  \/ (exists msg, arr_mul a c = Raise (TypeError msg)).
Proof.
  unfold arr_mul, broadcast2.
  destruct (bshape (Jax.shape a) (Jax.shape c)); eauto.
Qed.

Lemma map_mul_cases (arrays : list array) (c : array) :
  (exists rs, map_m (fun a => arr_mul a c) arrays = Ok rs)
  \/ (exists msg, map_m (fun a => arr_mul a c) arrays = Raise (TypeError msg)).
Proof.
  induction arrays as [|a arrays IH]; [left; now exists []|].
  cbn [map_m].
  destruct (arr_mul_cases a c) as [(r & ->)|(msg & ->)];
    [|right; eexists; reflexivity].
  cbn [bind].
  destruct IH as [(rs & ->)|(msg & ->)]; [left|right]; eexists; reflexivity.
Qed.

Lemma mul_raises (x : TimeArray) (c : multiplier) :
  well_formed x ->
  bshape (shape_of x) (Jax.shape (as_array c)) = None ->
  exists msg, mul x c = Raise (TypeError msg).
Proof.
  induction x as [a|f f0|fs arrays static|fs arrays static|x IHx y IHy];
    intros Hwf Hs; cbn [shape_of] in Hs; cbn [mul].
  - destruct (broadcast2_raise "mul" cmul _ _ Hs) as (msg & Hmsg).
    unfold arr_mul. rewrite Hmsg. cbn. eauto.
  - destruct (broadcast2_raise "mul" cmul _ _ Hs) as (msg & Hmsg).
    unfold arr_mul at 1. rewrite Hmsg. cbn. eauto.
  - destruct (map_mul_cases arrays (as_array c)) as [(rs & ->)|(msg & ->)];
      [|cbn; eauto].
    destruct (broadcast2_raise "mul" cmul _ _ Hs) as (msg & Hmsg).
    cbn [bind]. unfold arr_mul. rewrite Hmsg. cbn. eauto.
  - destruct (map_mul_cases arrays (as_array c)) as [(rs & ->)|(msg & ->)];
      [|cbn; eauto].
    destruct (broadcast2_raise "mul" cmul _ _ Hs) as (msg & Hmsg).
    cbn [bind]. unfold arr_mul. rewrite Hmsg. cbn. eauto.
  - destruct Hwf as (Hx & Hy & sxy & Hxy). rewrite Hxy in Hs.
    destruct (bshape (shape_of x) (Jax.shape (as_array c))) as [sx|] eqn:Hsx.
    + destruct (mul_value x c sx Hx Hsx) as (x' & -> & _). cbn [bind].
      destruct (bshape (shape_of y) (Jax.shape (as_array c)))
        as [sy|] eqn:Hsy.
      * destruct (bshape_pairwise _ _ _ _ _ _ Hxy Hsx Hsy) as (r & Hr).
        rewrite Hr in Hs. discriminate.
      * destruct (IHy Hy eq_refl) as (msg & ->). cbn. eauto.
    + destruct (IHx Hx eq_refl) as (msg & ->). cbn. eauto.
Qed.

Lemma summed_value (x y : TimeArray) (s : list nat) :
  well_formed x -> well_formed y ->
  bshape (shape_of x) (shape_of y) = Some s ->
  exists z,
    summed x y = Ok z
    /\ well_formed z
    /\ shape_of z = s
    /\ forall t idx,
         value z t idx
         = cadd (value x t (src (shape_of x) idx))
                (value y t (src (shape_of y) idx)).
Proof.
  intros Hx Hy Hs. unfold summed. rewrite Hs.
  eexists. split; [reflexivity|]. cbn [well_formed shape_of value].
  rewrite Hs. split; [|split; [reflexivity|reflexivity]].
  split; [exact Hx|]. split; [exact Hy|]. now exists s.
Qed.

Lemma weighted_add_array (ws : list C) (arrays : list array)
  (static y : array) (idx : list nat) :
  Forall (fun a => fits (Jax.shape a) (Jax.shape static)) arrays ->
  cadd (dot ws arrays idx)
       (cadd (Jax.at_ static (src (Jax.shape static) idx))
             (Jax.at_ y (src (Jax.shape y) idx)))
  = cadd (cadd (dot ws arrays (src (Jax.shape static) idx))
               (Jax.at_ static (src (Jax.shape static) idx)))
         (Jax.at_ y (src (Jax.shape y) idx)).
Proof. intros Hall. rewrite (dot_src _ _ _ _ Hall). ring. Qed.

Lemma weighted_add (ws ws' : list C) (arrays arrays' : list array)
  (static static' : array) (idx : list nat) :
  List.length ws = List.length arrays ->
  Forall (fun a => fits (Jax.shape a) (Jax.shape static)) arrays ->
  Forall (fun a => fits (Jax.shape a) (Jax.shape static')) arrays' ->
  cadd (dot (ws ++ ws') (arrays ++ arrays') idx)
       (cadd (Jax.at_ static (src (Jax.shape static) idx))
             (Jax.at_ static' (src (Jax.shape static') idx)))
  = cadd (cadd (dot ws arrays (src (Jax.shape static) idx))
               (Jax.at_ static (src (Jax.shape static) idx)))
         (cadd (dot ws' arrays' (src (Jax.shape static') idx))
               (Jax.at_ static' (src (Jax.shape static') idx))).
Proof.
  intros Hlen Hall Hall'.
  rewrite (dot_src _ _ _ _ Hall), (dot_src _ _ _ _ Hall'), dot_app
    by exact Hlen.
  ring.
Qed.

Lemma add_value (x : TimeArray) (y : summand) (s : list nat) :
  well_formed x -> well_formed_summand y ->
  bshape (shape_of x) (summand_shape y) = Some s ->
  exists z,
    add x y = Ok z
    /\ well_formed z
    /\ shape_of z = s
    /\ forall t idx,
         value z t idx
         = cadd (value x t (src (shape_of x) idx))
                (value_summand y t (src (summand_shape y) idx)).
Proof.
  intros Hx Hy Hs.
  destruct x as [a|f f0|fs arrays static|fs arrays static|x1 x2];
    destruct y as [b|[b|g g0|gs arrays' static'|gs arrays' static'|y1 y2]];
    cbn [add];
    try (exact (summed_value _ _ s Hx Hy Hs));
    try (exact (summed_value _ (ConstantTimeArray b) s Hx I Hs));
    cbn [shape_of summand_shape] in Hs;
    unfold arr_add at 1; rewrite (broadcast2_ok _ _ _ _ _ Hs); cbn [bind];
    (eexists; split; [reflexivity|]);
    cbn [well_formed shape_of value value_summand summand_shape
         Jax.shape Jax.at_];
    (split; [|split; [reflexivity|]]).
  - exact I.
  - reflexivity.
  - exact I.
  - reflexivity.
  - intros t. destruct (Hx t) as (a & -> & Hsa). cbn [bind].
    unfold arr_add. rewrite (broadcast2_ok _ _ _ _ s) by (now rewrite Hsa).
    eexists. split; reflexivity.
  - intros t idx. destruct (Hx t) as (a & -> & Hsa). cbn [bind].
    unfold arr_add. rewrite (broadcast2_ok _ _ _ _ s) by (now rewrite Hsa).
    cbn [Jax.at_]. now rewrite Hsa.
  - intros t. destruct (Hx t) as (a & -> & Hsa).
    destruct (Hy t) as (b & -> & Hsb). cbn [bind].
    unfold arr_add.
    rewrite (broadcast2_ok _ _ _ _ s) by (now rewrite Hsa, Hsb).
    eexists. split; reflexivity.
  - intros t idx. destruct (Hx t) as (a & -> & Hsa).
    destruct (Hy t) as (b & -> & Hsb). cbn [bind].
    unfold arr_add.
    rewrite (broadcast2_ok _ _ _ _ s) by (now rewrite Hsa, Hsb).
    cbn [Jax.at_]. now rewrite Hsa, Hsb.
  - destruct Hx as [Hlen Hall]. split; [exact Hlen|].
    eapply Forall_impl; [|exact Hall]. intros a Ha.
    exact (fits_trans _ _ _ Ha (proj1 (bshape_fits _ _ _ Hs))).
  - intros t idx. apply weighted_add_array. exact (proj2 Hx).
  - destruct Hx as [Hlen Hall]. destruct Hy as [Hlen' Hall'].
    destruct (bshape_fits _ _ _ Hs) as [F1 F2].
    split; [now rewrite !length_app, Hlen, Hlen'|].
    apply Forall_app. split.
    + eapply Forall_impl; [|exact Hall]. intros a Ha.
      exact (fits_trans _ _ _ Ha F1).
    + eapply Forall_impl; [|exact Hall']. intros a Ha.
      exact (fits_trans _ _ _ Ha F2).
  - intros t idx. rewrite map_app.
    apply weighted_add;
      [rewrite length_map; exact (proj1 Hx) | exact (proj2 Hx)
      | exact (proj2 Hy)].
  - destruct Hx as [Hlen Hall]. split; [exact Hlen|].
    eapply Forall_impl; [|exact Hall]. intros a Ha.
    exact (fits_trans _ _ _ Ha (proj1 (bshape_fits _ _ _ Hs))).
  - intros t idx. apply weighted_add_array. exact (proj2 Hx).
  - destruct Hx as [Hlen Hall]. destruct Hy as [Hlen' Hall'].
    destruct (bshape_fits _ _ _ Hs) as [F1 F2].
    split; [now rewrite !length_app, Hlen, Hlen'|].
    apply Forall_app. split.
    + eapply Forall_impl; [|exact Hall]. intros a Ha.
      exact (fits_trans _ _ _ Ha F1).
    + eapply Forall_impl; [|exact Hall']. intros a Ha.
      exact (fits_trans _ _ _ Ha F2).
  - intros t idx. rewrite map_app.
    apply weighted_add;
      [rewrite length_map; exact (proj1 Hx) | exact (proj2 Hx)
      | exact (proj2 Hy)].
Qed.

Lemma add_raises (x : TimeArray) (y : summand) :
  bshape (shape_of x) (summand_shape y) = None ->
  exists msg, add x y = Raise (TypeError msg).
Proof.
  intros Hs.
  destruct x as [a|f f0|fs arrays static|fs arrays static|x1 x2];
    destruct y as [b|[b|g g0|gs arrays' static'|gs arrays' static'|y1 y2]];
    cbn [add];
    try (unfold summed; cbn [shape_of summand_shape] in *; rewrite Hs;
         now eauto);
    cbn [shape_of summand_shape] in Hs;
    destruct (broadcast2_raise "add" cadd _ _ Hs) as (msg & Hmsg);
    unfold arr_add at 1; rewrite Hmsg; cbn; eauto.
Qed.

(** C7.  A well-formed time array [x] can be called at every time [t],
    and [x(t)] has the declared shape of [x].  For every array or
    well-formed time array [y], of any class, whose shape broadcasts with
    that of [x]: [x + y] is a well-formed time array of the broadcast
    shape and [(x + y)(t) = x(t) + y(t)], and [y + x] is [x + y] for an
    array [y]; when the shapes do not broadcast, [x + y] is a [TypeError].
    For every number or array [c] whose shape broadcasts with that of [x]:
    [x * c] is a well-formed time array of the broadcast shape,
    [(x * c)(t) = x(t) * c], [c * x] is [x * c] and
    [(c * x)(t) = c * x(t)]; when the shapes do not broadcast, [x * c] is
    a [TypeError].  [-x] is well formed, of the shape of [x], and
    [(-x)(t) = -(x(t))].  When [x] holds matrices, [x.adjoint()] is well
    formed, its shape is that of [x] with the last two axes exchanged, and
    [x.adjoint()(t)] is the conjugate transpose of [x(t)]. *)
Theorem time_array_algebra_is_pointwise (x : TimeArray) (t : T) :
  well_formed x ->
  exists a,
    call x t = Ok a
    /\ Jax.shape a = shape_of x
    /\ (forall y, well_formed_summand y ->
          match bshape (shape_of x) (summand_shape y) with
          | Some s =>
              exists z b v c,
                add x y = Ok z /\ well_formed z /\ shape_of z = s
                /\ (forall y0, y = AnArray y0 -> radd y0 x = Ok z)
                /\ call_summand y t = Ok b /\ arr_add a b = Ok c
                /\ call z t = Ok v /\ arr_eq v c
          | None => exists msg, add x y = Raise (TypeError msg)
          end)
    /\ (forall c,
          match bshape (shape_of x) (Jax.shape (as_array c)) with
          | Some s =>
              exists z v p q,
                mul x c = Ok z /\ rmul c x = Ok z
                /\ well_formed z /\ shape_of z = s
                /\ call z t = Ok v
                /\ arr_mul a (as_array c) = Ok p /\ arr_eq v p
                /\ arr_mul (as_array c) a = Ok q /\ arr_eq v q
          | None => exists msg, mul x c = Raise (TypeError msg)
          end)
    /\ (well_formed (neg x)
        /\ shape_of (neg x) = shape_of x
        /\ exists v, call (neg x) t = Ok v /\ arr_eq v (arr_neg a))
    /\ (matrices x ->
        well_formed (adjoint x)
        /\ shape_of (adjoint x) = swap_last2 (shape_of x)
        /\ exists v, call (adjoint x) t = Ok v /\ arr_eq v (arr_mH a)).
Proof.
  intros Hwf.
  destruct (call_value x t Hwf) as (a & Ha & Hsa & Hva).
  exists a. split; [exact Ha|]. split; [exact Hsa|].
  split; [|split; [|split]].
  - (* x + y *)
    intros y Hy.
    destruct (bshape (shape_of x) (summand_shape y)) as [s|] eqn:Hs;
      [|exact (add_raises x y Hs)].
    destruct (add_value x y s Hwf Hy Hs) as (z & Hz & Hwz & Hsz & Hvz).
    destruct (call_value z t Hwz) as (v & Hv & Hsv & Hvv).
    destruct (call_summand_value y t Hy) as (b & Hb & Hsb & Hvb).
    destruct (bshape_fits _ _ _ Hs) as [F1 F2].
    exists z, b, v. eexists.
    split; [exact Hz|]. split; [exact Hwz|]. split; [exact Hsz|].
    split; [intros y0 ->; exact Hz|]. split; [exact Hb|].
    split; [apply (broadcast2_ok "add" cadd a b s); now rewrite Hsa, Hsb|].
    split; [exact Hv|].
    split; [cbn [Jax.shape]; now rewrite Hsv, Hsz|].
    intros idx Hidx. rewrite Hsv in Hidx. cbn [Jax.at_].
    rewrite (Hvv idx Hidx), Hvz, Hsa, Hsb. rewrite Hsz in Hidx.
    now rewrite Hva, Hvb by (eapply src_in_range; eassumption).
  - (* x * c and c * x *)
    intros c.
    destruct (bshape (shape_of x) (Jax.shape (as_array c))) as [s|] eqn:Hs;
      [|exact (mul_raises x c Hwf Hs)].
    destruct (mul_value x c s Hwf Hs) as (z & Hz & Hwz & Hsz & Hvz).
    destruct (call_value z t Hwz) as (v & Hv & Hsv & Hvv).
    destruct (bshape_fits _ _ _ Hs) as [F1 F2].
    exists z, v. do 2 eexists.
    split; [exact Hz|]. split; [exact Hz|].
    split; [exact Hwz|]. split; [exact Hsz|]. split; [exact Hv|].
    split;
      [apply (broadcast2_ok "mul" cmul a (as_array c) s); now rewrite Hsa|].
    split.
    { split; [cbn [Jax.shape]; now rewrite Hsv, Hsz|].
      intros idx Hidx. rewrite Hsv in Hidx. cbn [Jax.at_].
      rewrite (Hvv idx Hidx), Hvz, Hsa. rewrite Hsz in Hidx.
      now rewrite Hva by (eapply src_in_range; eassumption). }
    split;
      [apply (broadcast2_ok "mul" cmul (as_array c) a s);
       now rewrite Hsa, bshape_comm|].
    split; [cbn [Jax.shape]; now rewrite Hsv, Hsz|].
    intros idx Hidx. rewrite Hsv in Hidx. cbn [Jax.at_].
    rewrite (Hvv idx Hidx), Hvz, Hsa. rewrite Hsz in Hidx.
    rewrite Hva by (eapply src_in_range; eassumption). ring.
  - (* -x *)
    destruct (neg_value x Hwf) as (Hwn & Hsn & Hvn).
    destruct (call_value (neg x) t Hwn) as (v & Hv & Hsv & Hvv).
    split; [exact Hwn|]. split; [exact Hsn|].
    exists v. split; [exact Hv|].
    split; [cbn [arr_neg Jax.shape]; now rewrite Hsv, Hsn, Hsa|].
    intros idx Hidx. rewrite Hsv in Hidx. cbn [arr_neg Jax.at_].
    rewrite (Hvv idx Hidx), Hvn. rewrite Hsn in Hidx.
    now rewrite (Hva idx Hidx).
  - (* x.adjoint() *)
    intros Hm.
    pose proof (matrices_rank x Hwf Hm) as Hrank.
    destruct (adjoint_value x Hwf Hm) as (Hwa & Hsadj & Hvadj).
    destruct (call_value (adjoint x) t Hwa) as (v & Hv & Hsv & Hvv).
    split; [exact Hwa|]. split; [exact Hsadj|].
    exists v. split; [exact Hv|].
    split; [cbn [arr_mH Jax.shape]; now rewrite Hsv, Hsadj, Hsa|].
    intros idx Hidx. rewrite Hsv in Hidx. cbn [arr_mH Jax.at_].
    rewrite (Hvv idx Hidx). rewrite Hsadj in Hidx.
    rewrite Hvadj
      by (rewrite (in_range_length _ _ Hidx), swap_last2_length; exact Hrank).
    apply in_range_swap in Hidx. rewrite swap_last2_involutive in Hidx.
    now rewrite (Hva _ Hidx).
Qed.

End Algebra.


(* --------------------------------------------------------------------- *)
(** *** The time arrays of the tests, over the Gaussian integers *)
(* --------------------------------------------------------------------- *)

(** The complex numbers of the tests have integer parts: [re + im j]. *)
Definition G : Type := (Z * Z)%type.

Definition g0 : G := (0, 0)%Z.
Definition g1 : G := (1, 0)%Z.
Definition gadd (a b : G) : G := (fst a + fst b, snd a + snd b)%Z.
Definition gmul (a b : G) : G :=
  (fst a * fst b - snd a * snd b, fst a * snd b + snd a * fst b)%Z.
Definition gopp (a : G) : G := (- fst a, - snd a)%Z.
Definition gsub (a b : G) : G := (fst a - fst b, snd a - snd b)%Z.
Definition gconj (a : G) : G := (fst a, - snd a)%Z.

(** A real number, and [1j]. *)
Definition re (n : Z) : G := (n, 0%Z).
Definition j : G := (0, 1)%Z.

(** The complex numbers with rational parts, for the functions of time
    of the tests: [re + im j]. *)
Definition CQ : Type := (Q * Q)%type.

Definition cq0 : CQ := (0, 0)%Q.
Definition cqadd (a b : CQ) : CQ := (fst a + fst b, snd a + snd b)%Q.
Definition cqmul (a b : CQ) : CQ :=
  (fst a * fst b - snd a * snd b, fst a * snd b + snd a * fst b)%Q.
Definition cqopp (a : CQ) : CQ := (- fst a, - snd a)%Q.
Definition cqconj (a : CQ) : CQ := (fst a, - snd a)%Q.
Definition real (t : Q) : CQ := (t, 0%Q).
Definition cq (a b : Q) : CQ := (a, b).

(** A complex number with its parts in lowest terms. *)
Definition cqred (a : CQ) : CQ := (Qred (fst a), Qred (snd a)).

(** [jnp.array(entries)] for a vector and [jnp.array(rows)] for a matrix
    given by its rows. *)
Definition vector_of {C : Type} (c0 : C) (entries : list C) : Jax.array C :=
  Jax.mk_array C [List.length entries]
    (fun idx =>
       match idx with
       | [i] => nth i entries c0
       | _ => c0
       end).

Definition matrix_of {C : Type} (c0 : C) (rows : list (list C))
  : Jax.array C :=
  Jax.mk_array C [List.length rows; List.length (hd [] rows)]
    (fun idx =>
       match idx with
       | [r; c] => nth c (nth r rows []) c0
       | _ => c0
       end).

Definition vector : list G -> Jax.array G := vector_of g0.
Definition matrix : list (list G) -> Jax.array G := matrix_of g0.

(** The entries of a vector and the rows of a matrix, read back. *)
Definition entries_of {C : Type} (a : Jax.array C) : list C :=
  match Jax.shape a with
  | [n] => map (fun i => Jax.at_ a [i]) (seq 0 n)
  | _ => []
  end.

Definition rows_of {C : Type} (a : Jax.array C) : list (list C) :=
  match Jax.shape a with
  | [n; m] =>
      map (fun r => map (fun c => Jax.at_ a [r; c]) (seq 0 m)) (seq 0 n)
  | _ => []
  end.

(** The fixture of [TestConstantTimeArray]. *)
Definition constant_x : TimeArray G Q :=
  ConstantTimeArray G Q (vector [re 1; re 2]).

(** The fixture of [TestPWCTimeArray]; the static part, which the test
    does not give, is zero. *)
Definition array1 : Jax.array G :=
  matrix [[re 1; re 2]; [re 3; re 4]].
Definition array2 : Jax.array G := matrix [[j; j]; [j; j]].

Definition f1 : PWCFactor G Q :=
  mk_PWCFactor G Q [0%Q; 1%Q; 2%Q; 3%Q] [re 1; re 10; re 100].
Definition f2 : PWCFactor G Q :=
  mk_PWCFactor G Q [1%Q; 3%Q; 5%Q] [re 1; re 1].

Definition pwc_x : TimeArray G Q :=
  PWCTimeArray G Q [f1; f2] [array1; array2] (zeros G g0 [2; 2]).

Definition call_x (x : TimeArray G Q) (t : Q) : Py.M (Jax.array G) :=
  call G g0 gadd gmul Q Qle_bool x t.

(** The entries of [x(t)] for a time array [x] that an operation
    returned. *)
Definition entries_at (x : Py.M (TimeArray G Q)) (t : Q) : Py.M (list G) :=
  z <- x ;; a <- call_x z t ;; Ok (entries_of a).

Definition rows_at (x : Py.M (TimeArray G Q)) (t : Q)
  : Py.M (list (list G)) :=
  z <- x ;; a <- call_x z t ;; Ok (rows_of a).

Definition mul_x := mul G gmul Q.
Definition add_x := add G gadd Q.

(** The fixture of [TestCallableTimeArray]: [f = lambda t: t * [1, 2]]
    with [f(0.0)]. *)
Definition callable_f (t : Q) : Py.M (Jax.array CQ) :=
  Ok (vector_of cq0 [cqmul (real t) (real 1); cqmul (real t) (real 2)]).

Definition callable_x : TimeArray CQ Q :=
  CallableTimeArray CQ Q callable_f
    (vector_of cq0 [cqmul (real 0) (real 1); cqmul (real 0) (real 2)]).

(** The fixture of [TestModulatedTimeArray]; the static part, which the
    test does not give, is zero. *)
Definition eps1 (t : Q) : CQ :=
  cqmul (cqadd (real (0.5 * t)) (cq 0 1)) (real 1).
Definition eps2 (t : Q) : CQ := cqmul (real (t * t)) (real 1).

Definition modulated_x : TimeArray CQ Q :=
  ModulatedTimeArray CQ Q
    [mk_ModulatedFactor CQ Q eps1 (eps1 0); mk_ModulatedFactor CQ Q eps2 (eps2 0)]
    [matrix_of cq0 [[real 1; real 2]; [real 3; real 4]];
     matrix_of cq0 [[cq 0 1; cq 0 1]; [cq 0 1; cq 0 1]]]
    (zeros CQ cq0 [2; 2]).

(** The entries of [x(t)], in lowest terms, for a time array [x] that an
    operation returned. *)
Definition cq_entries_at (x : Py.M (TimeArray CQ Q)) (t : Q)
  : Py.M (list CQ) :=
  z <- x ;; a <- call CQ cq0 cqadd cqmul Q Qle_bool z t ;;
  Ok (map cqred (entries_of a)).

Definition cq_rows_at (x : Py.M (TimeArray CQ Q)) (t : Q)
  : Py.M (list (list CQ)) :=
  z <- x ;; a <- call CQ cq0 cqadd cqmul Q Qle_bool z t ;;
  Ok (map (map cqred) (rows_of a)).

Lemma G_ring : ring_theory g0 g1 gadd gmul gsub gopp (@eq G).
Proof.
  constructor; repeat intros [? ?];
    unfold g0, g1, gadd, gmul, gsub, gopp; cbn [fst snd]; f_equal; ring.
Qed.

Lemma gconj_add (a b : G) : gconj (gadd a b) = gadd (gconj a) (gconj b).
Proof.
  destruct a, b. unfold gconj, gadd. cbn [fst snd]. f_equal; ring.
Qed.

Lemma gconj_mul (a b : G) : gconj (gmul a b) = gmul (gconj a) (gconj b).
Proof.
  destruct a, b. unfold gconj, gmul. cbn [fst snd]. f_equal; ring.
Qed.

Lemma gconj_zero : gconj g0 = g0.
Proof. reflexivity. Qed.

Lemma pwc_x_well_formed : well_formed G Q pwc_x.
Proof. split; [reflexivity | repeat constructor]. Qed.

(** [TestConstantTimeArray]: [test_call], [test_neg], [test_mul],
    [test_rmul], [test_add], [test_radd] and [test_adjoint]. *)
Example test_ConstantTimeArray :
  entries_at (Ok constant_x) 0%Q = Ok [re 1; re 2]
  /\ entries_at (Ok constant_x) 1%Q = Ok [re 1; re 2]
  /\ entries_at (Ok (neg G gopp Q constant_x)) 0%Q = Ok [re (-1); re (-2)]
  /\ entries_at (mul_x constant_x (Number G (re 2))) 0%Q = Ok [re 2; re 4]
  /\ entries_at (mul_x constant_x (Array G (vector [re 0; re 1]))) 0%Q
     = Ok [re 0; re 2]
  /\ entries_at (rmul G gmul Q (Array G (vector [re 0; re 1])) constant_x) 0%Q
     = Ok [re 0; re 2]
  /\ entries_at (add_x constant_x (AnArray G Q (vector [re 0; re 1]))) 0%Q
     = Ok [re 1; re 3]
  /\ entries_at (add_x constant_x (ATimeArray G Q constant_x)) 0%Q
     = Ok [re 2; re 4]
  /\ entries_at (radd G gadd Q (vector [re 0; re 1]) constant_x) 0%Q
     = Ok [re 1; re 3]
  /\ rows_at
       (Ok (adjoint G gconj Q
              (ConstantTimeArray G Q
                 (matrix [[(1, 1); (2, 2)]; [(3, 3); (4, 4)]]%Z))))
       0%Q
     = Ok [[(1, -1); (3, -3)]; [(2, -2); (4, -4)]]%Z.
Proof. repeat split; vm_compute; reflexivity. Qed.

(** [TestPWCTimeArray.test_call] *)
Example test_call_PWC :
  rows_at (Ok pwc_x) (-0.1)%Q = Ok [[g0; g0]; [g0; g0]]
  /\ rows_at (Ok pwc_x) 0%Q = Ok [[re 1; re 2]; [re 3; re 4]]
  /\ rows_at (Ok pwc_x) 0.999%Q = Ok [[re 1; re 2]; [re 3; re 4]]
  /\ rows_at (Ok pwc_x) 1%Q
     = Ok [[(10, 1); (20, 1)]; [(30, 1); (40, 1)]]%Z
  /\ rows_at (Ok pwc_x) 3%Q = Ok [[j; j]; [j; j]]
  /\ rows_at (Ok pwc_x) 5%Q = Ok [[g0; g0]; [g0; g0]].
Proof. repeat split; vm_compute; reflexivity. Qed.

(** [TestPWCTimeArray.test_adjoint] and [test_neg] *)
Example test_adjoint_neg_PWC :
  rows_at (Ok (adjoint G gconj Q pwc_x)) 1%Q
  = Ok [[(10, -1); (30, -1)]; [(20, -1); (40, -1)]]%Z
  /\ rows_at (Ok (neg G gopp Q pwc_x)) 0%Q
     = Ok [[re (-1); re (-2)]; [re (-3); re (-4)]].
Proof. split; vm_compute; reflexivity. Qed.

(** [TestPWCTimeArray.test_mul] and [test_rmul]: by the number [2] and by
    the array [jnp.array([2])], which is broadcast. *)
Example test_mul_PWC :
  rows_at (mul_x pwc_x (Number G (re 2))) 0%Q
  = Ok [[re 2; re 4]; [re 6; re 8]]
  /\ rows_at (mul_x pwc_x (Array G (vector [re 2]))) 0%Q
     = Ok [[re 2; re 4]; [re 6; re 8]]
  /\ rows_at (rmul G gmul Q (Number G (re 2)) pwc_x) 0%Q
     = Ok [[re 2; re 4]; [re 6; re 8]]
  /\ rows_at (rmul G gmul Q (Array G (vector [re 2])) pwc_x) 0%Q
     = Ok [[re 2; re 4]; [re 6; re 8]].
Proof. repeat split; vm_compute; reflexivity. Qed.

(** [TestPWCTimeArray.test_add] and [test_radd] *)
Example test_add_PWC :
  let ones := matrix [[re 1; re 1]; [re 1; re 1]] in
  rows_at (add_x pwc_x (AnArray G Q ones)) (-0.1)%Q
  = Ok [[re 1; re 1]; [re 1; re 1]]
  /\ rows_at (add_x pwc_x (AnArray G Q ones)) 0%Q
     = Ok [[re 2; re 3]; [re 4; re 5]]
  /\ rows_at (add_x pwc_x (ATimeArray G Q pwc_x)) 0%Q
     = Ok [[re 2; re 4]; [re 6; re 8]]
  /\ rows_at (radd G gadd Q ones pwc_x) 0%Q
     = Ok [[re 2; re 3]; [re 4; re 5]].
Proof. repeat split; vm_compute; reflexivity. Qed.

(** [TestCallableTimeArray]: [test_call], [test_neg], [test_mul],
    [test_rmul], [test_add] and [test_radd]. *)
Example test_CallableTimeArray :
  let two := Number CQ (real 2) in
  let v01 := vector_of cq0 [real 0; real 1] in
  cq_entries_at (Ok callable_x) 0 = Ok [real 0; real 0]
  /\ cq_entries_at (Ok callable_x) 1 = Ok [real 1; real 2]
  /\ cq_entries_at (Ok (neg CQ cqopp Q callable_x)) 1
     = Ok [real (-1); real (-2)]
  /\ cq_entries_at (mul CQ cqmul Q callable_x two) 0 = Ok [real 0; real 0]
  /\ cq_entries_at (mul CQ cqmul Q callable_x two) 1 = Ok [real 2; real 4]
  /\ cq_entries_at (mul CQ cqmul Q callable_x (Array CQ v01)) 1
     = Ok [real 0; real 2]
  /\ cq_entries_at (rmul CQ cqmul Q (Array CQ v01) callable_x) 1
     = Ok [real 0; real 2]
  /\ cq_entries_at (add CQ cqadd Q callable_x (AnArray CQ Q v01)) 0
     = Ok [real 0; real 1]
  /\ cq_entries_at (add CQ cqadd Q callable_x (AnArray CQ Q v01)) 1
     = Ok [real 1; real 3]
  /\ cq_entries_at (add CQ cqadd Q callable_x (ATimeArray CQ Q callable_x)) 0
     = Ok [real 0; real 0]
  /\ cq_entries_at (add CQ cqadd Q callable_x (ATimeArray CQ Q callable_x)) 1
     = Ok [real 2; real 4]
  /\ cq_entries_at (radd CQ cqadd Q v01 callable_x) 1 = Ok [real 1; real 3]
  /\ (exists f f0, add CQ cqadd Q callable_x (AnArray CQ Q v01)
                   = Ok (CallableTimeArray CQ Q f f0))
  /\ (exists f f0, add CQ cqadd Q callable_x (ATimeArray CQ Q callable_x)
                   = Ok (CallableTimeArray CQ Q f f0)).
Proof.
  repeat split; try (vm_compute; reflexivity); repeat eexists; reflexivity.
Qed.

(** [TestCallableTimeArray.test_adjoint] *)
Example test_adjoint_Callable :
  let f t :=
    Ok (matrix_of cq0
          [[cqmul (real t) (cq 1 1); cqmul (real t) (cq 2 2)];
           [cqmul (real t) (cq 3 3); cqmul (real t) (cq 4 4)]]) in
  cq_rows_at (Ok (adjoint CQ cqconj Q (CallableTimeArray CQ Q f (zeros CQ cq0 [2; 2])))) 1
  = Ok [[cq 1 (-1); cq 3 (-3)]; [cq 2 (-2); cq 4 (-4)]].
Proof. vm_compute. reflexivity. Qed.

(** [TestModulatedTimeArray]: [test_call], [test_adjoint], [test_neg],
    [test_mul], [test_rmul], [test_add] and [test_radd]. *)
Example test_ModulatedTimeArray :
  let ones := matrix_of cq0 [[real 1; real 1]; [real 1; real 1]] in
  let two := vector_of cq0 [real 2] in
  cq_rows_at (Ok modulated_x) 0
  = Ok [[cq 0 1; cq 0 2]; [cq 0 3; cq 0 4]]
  /\ cq_rows_at (Ok modulated_x) 2
     = Ok [[cq 1 5; cq 2 6]; [cq 3 7; cq 4 8]]
  /\ cq_rows_at (Ok (adjoint CQ cqconj Q modulated_x)) 0
     = Ok [[cq 0 (-1); cq 0 (-3)]; [cq 0 (-2); cq 0 (-4)]]
  /\ cq_rows_at (Ok (neg CQ cqopp Q modulated_x)) 0
     = Ok [[cq 0 (-1); cq 0 (-2)]; [cq 0 (-3); cq 0 (-4)]]
  /\ cq_rows_at (mul CQ cqmul Q modulated_x (Number CQ (real 2))) 0
     = Ok [[cq 0 2; cq 0 4]; [cq 0 6; cq 0 8]]
  /\ cq_rows_at (mul CQ cqmul Q modulated_x (Array CQ two)) 0
     = Ok [[cq 0 2; cq 0 4]; [cq 0 6; cq 0 8]]
  /\ cq_rows_at (rmul CQ cqmul Q (Array CQ two) modulated_x) 0
     = Ok [[cq 0 2; cq 0 4]; [cq 0 6; cq 0 8]]
  /\ cq_rows_at (add CQ cqadd Q modulated_x (AnArray CQ Q ones)) 0
     = Ok [[cq 1 1; cq 1 2]; [cq 1 3; cq 1 4]]
  /\ cq_rows_at (add CQ cqadd Q modulated_x (ATimeArray CQ Q modulated_x)) 0
     = Ok [[cq 0 2; cq 0 4]; [cq 0 6; cq 0 8]]
  /\ cq_rows_at (radd CQ cqadd Q ones modulated_x) 0
     = Ok [[cq 1 1; cq 1 2]; [cq 1 3; cq 1 4]]
  /\ (exists fs arrays static,
        add CQ cqadd Q modulated_x (ATimeArray CQ Q modulated_x)
        = Ok (ModulatedTimeArray CQ Q fs arrays static)).
Proof.
  repeat split; try (vm_compute; reflexivity); repeat eexists; reflexivity.
Qed.

(** The classes that the operations of the tests return. *)
Example test_classes :
  (exists a, add_x constant_x (AnArray G Q (vector [re 0; re 1]))
             = Ok (ConstantTimeArray G Q a))
  /\ (exists a, add_x constant_x (ATimeArray G Q constant_x)
                = Ok (ConstantTimeArray G Q a))
  /\ (exists fs arrays static,
        add_x pwc_x (AnArray G Q (matrix [[re 1; re 1]; [re 1; re 1]]))
        = Ok (PWCTimeArray G Q fs arrays static))
  /\ (exists fs arrays static,
        add_x pwc_x (ATimeArray G Q pwc_x)
        = Ok (PWCTimeArray G Q fs arrays static)).
Proof. repeat split; repeat eexists; reflexivity. Qed.

(** A sum of two classes, multiplied by a broadcast array, and shapes that
    do not broadcast. *)
Example test_mixed_sum :
  rows_at
    (z <- add_x pwc_x (ATimeArray G Q (ConstantTimeArray G Q array2)) ;;
     mul_x z (Array G (vector [re 1; re 2])))
    1%Q
  = Ok [[(10, 2); (40, 4)]; [(30, 2); (80, 4)]]%Z
  /\ (exists msg,
        mul_x pwc_x (Array G (vector [re 1; re 2; re 3]))
        = Raise (TypeError msg)).
Proof. split; [vm_compute; reflexivity | eexists; vm_compute; reflexivity]. Qed.

Lemma time_array_algebra_is_pointwise_witness :
  well_formed G Q pwc_x
  /\ exists z v,
       mul_x pwc_x (Array G (vector [re 2])) = Ok z
       /\ call_x z 1%Q = Ok v
       /\ rows_of v = [[(20, 2); (40, 2)]; [(60, 2); (80, 2)]]%Z.
Proof.
  split; [exact pwc_x_well_formed|].
  destruct (time_array_algebra_is_pointwise G g0 g1 gadd gmul gsub gopp gconj
              G_ring gconj_add gconj_mul gconj_zero Q Qle_bool pwc_x 1%Q
              pwc_x_well_formed) as (a & Ha & _ & _ & Hmul & _).
  specialize (Hmul (Array G (vector [re 2]))). hnf in Hmul.
  destruct Hmul
    as (z & v & p & q & Hz & _ & _ & _ & Hv & Hp & [Hshape Hent] & _).
  exists z, v. split; [exact Hz|]. split; [exact Hv|].
  vm_compute in Ha. injection Ha as <-.
  vm_compute in Hp. injection Hp as <-.
  cbn [Jax.shape] in Hshape. rewrite Hshape in Hent.
  unfold rows_of. rewrite Hshape. cbn [map seq].
  rewrite !Hent by (repeat constructor). reflexivity.
Defined.

End TimeArray.
